(** * mod_tls: the TLS connection filters, the startup enablement and the
      variable export, embedded from the C sources

    - [TlsCore]   embeds [we_listen_on] and the enablement loop of
                  [tls_core_init] (src/tls_core.c);
    - [TlsVar]    embeds [tls_var_handshake_done] and its helpers
                  (src/tls_var.c);
    - [TlsFilter] embeds the input and output connection filters
                  (src/tls_filter.c).

    Pointers that may be NULL are [option]s; a store or a call through a
    NULL pointer is a fault of the run, written out as an outcome of its
    own.  Sizes of type [apr_size_t] are [Z] with the 64-bit wrap-around
    written out; [apr_off_t] counters are [Z] (signed overflow is
    undefined in C and no counter of the filters comes near it).

    The headers of the module (tls_defs.h, tls_conf.h, tls_filter.h,
    tls_util.h) are not part of the sources embedded here: a record has
    the fields its functions use, an enumeration the constants they name,
    and numeric constants and the functions of other files are
    parameters of the filters. *)

From Stdlib Require Import ZArith List Bool String Lia.
From Stdlib Require Import Strings.Byte.
Import ListNotations.
Open Scope Z_scope.

Definition bytes := list byte.

(** The status codes of APR that the module tells apart. *)
Inductive apr_status_t : Type :=
| APR_SUCCESS
| APR_EOF
| APR_EAGAIN
| APR_ENOMEM
| APR_ENOTIMPL
| APR_ECONNRESET
| APR_ECONNABORTED
| APR_OTHER (code : Z).

Definition apr_status_eqb (a b : apr_status_t) : bool :=
  match a, b with
  | APR_SUCCESS, APR_SUCCESS => true
  | APR_EOF, APR_EOF => true
  | APR_EAGAIN, APR_EAGAIN => true
  | APR_ENOMEM, APR_ENOMEM => true
  | APR_ENOTIMPL, APR_ENOTIMPL => true
  | APR_ECONNRESET, APR_ECONNRESET => true
  | APR_ECONNABORTED, APR_ECONNABORTED => true
  | APR_OTHER x, APR_OTHER y => x =? y
  | _, _ => false
  end.

(** [APR_STATUS_IS_EOF] and [APR_STATUS_IS_EAGAIN]. *)
Definition APR_STATUS_IS_EOF (rv : apr_status_t) : bool := apr_status_eqb rv APR_EOF.
Definition APR_STATUS_IS_EAGAIN (rv : apr_status_t) : bool := apr_status_eqb rv APR_EAGAIN.

(** The phases of a connection ([tls_conn_state_t] of tls_conf.h), by the
    constants the sources name. *)
Inductive tls_conn_state_t : Type :=
| TLS_CONN_ST_IGNORED
| TLS_CONN_ST_PRE_HANDSHAKE
| TLS_CONN_ST_HANDSHAKE
| TLS_CONN_ST_TRAFFIC
| TLS_CONN_ST_NOTIFIED
| TLS_CONN_ST_DONE.

Definition tls_conn_state_eqb (a b : tls_conn_state_t) : bool :=
  match a, b with
  | TLS_CONN_ST_IGNORED, TLS_CONN_ST_IGNORED => true
  | TLS_CONN_ST_PRE_HANDSHAKE, TLS_CONN_ST_PRE_HANDSHAKE => true
  | TLS_CONN_ST_HANDSHAKE, TLS_CONN_ST_HANDSHAKE => true
  | TLS_CONN_ST_TRAFFIC, TLS_CONN_ST_TRAFFIC => true
  | TLS_CONN_ST_NOTIFIED, TLS_CONN_ST_NOTIFIED => true
  | TLS_CONN_ST_DONE, TLS_CONN_ST_DONE => true
  | _, _ => false
  end.

(** The three-valued configuration flag ([TLS_FLAG_UNSET], ...). *)
Inductive tls_flag : Type := TLS_FLAG_UNSET | TLS_FLAG_FALSE | TLS_FLAG_TRUE.

Definition tls_flag_eqb (a b : tls_flag) : bool :=
  match a, b with
  | TLS_FLAG_UNSET, TLS_FLAG_UNSET => true
  | TLS_FLAG_FALSE, TLS_FLAG_FALSE => true
  | TLS_FLAG_TRUE, TLS_FLAG_TRUE => true
  | _, _ => false
  end.

(** What a hook of the server answers: [OK] or [DECLINED]. *)
Inductive hook_status : Type := OK | DECLINED.

(* ===================================================================== *)
(** * tls_core.c: which servers TLS is enabled on *)
(* ===================================================================== *)

Module TlsCore.

(** [apr_sockaddr_t], the two fields [we_listen_on] reads. *)
Record apr_sockaddr_t : Type := {
  ipaddr_len : Z;
  ipaddr_ptr : bytes
}.

Record server_addr_rec : Type := {
  host_port : Z;
  host_addr : apr_sockaddr_t
}.

(** [tls_conf_server_t], the field the enablement loop writes. *)
Record tls_conf_server_t : Type := {
  enabled : tls_flag
}.

(** [server_rec]: its address list, the protocol that
    [ap_get_server_protocol] reports (NULL when none is set) and the module
    configuration that [tls_conf_server_get] finds (NULL when absent). *)
Record server_rec : Type := {
  addrs : list server_addr_rec;
  server_protocol : option string;
  tls_conf_server_get : option tls_conf_server_t
}.

(** [memcmp] of libc on the first [n] bytes: zero exactly when they agree. *)
Fixpoint memcmp (p q : bytes) (n : nat) {struct n} : Z :=
  match n with
  | O => 0
  | S n' =>
      match p, q with
      | a :: p', b :: q' =>
          if Byte.eqb a b then memcmp p' q' n'
          else Z.of_N (Byte.to_N a) - Z.of_N (Byte.to_N b)
      | [], [] => 0
      | [], _ :: _ => -1
      | _ :: _, [] => 1
      end
  end.

(** The test of the inner loop body of [we_listen_on], lines 29-32.  The
    third conjunct is written as the source has it: both arguments of
    [memcmp] are taken from [la]. *)
Definition listen_match (la sa : server_addr_rec) : bool :=
  (host_port la =? host_port sa)
  && (ipaddr_len (host_addr la) =? ipaddr_len (host_addr sa))
  && (memcmp (ipaddr_ptr (host_addr la)) (ipaddr_ptr (host_addr la))
             (Z.to_nat (ipaddr_len (host_addr la))) =? 0).

(** [for (sa = s->addrs; sa; sa = sa->next)] *)
Fixpoint we_listen_on_sa (la : server_addr_rec) (sas : list server_addr_rec) : bool :=
  match sas with
  | [] => false
  | sa :: rest => if listen_match la sa then true else we_listen_on_sa la rest
  end.

(** [for (la = gc->tls_addresses; la; la = la->next)] *)
Fixpoint we_listen_on (tls_addresses : list server_addr_rec) (s : server_rec) : bool :=
  match tls_addresses with
  | [] => false
  | la :: rest => if we_listen_on_sa la (addrs s) then true else we_listen_on rest s
  end.

(** The body of the first loop of [tls_core_init], lines 83-94, on one
    server that has a module configuration. *)
Definition tls_core_init_enabled
    (tls_addresses : list server_addr_rec) (s : server_rec)
    (sc : tls_conf_server_t) : tls_conf_server_t :=
  let sc1 :=
    match tls_addresses with
    | _ :: _ =>
        {| enabled := if we_listen_on tls_addresses s then TLS_FLAG_TRUE else TLS_FLAG_FALSE |}
    | [] =>
        if tls_flag_eqb (enabled sc) TLS_FLAG_UNSET
           && match server_protocol s with
              | Some p => String.eqb "https" p
              | None => false
              end
        then {| enabled := TLS_FLAG_TRUE |}
        else sc
    end in
  if tls_flag_eqb (enabled sc1) TLS_FLAG_UNSET
  then {| enabled := TLS_FLAG_FALSE |}
  else sc1.

(** One iteration: [if (!sc) continue;] *)
Definition tls_core_init_server
    (tls_addresses : list server_addr_rec) (s : server_rec) : server_rec :=
  match tls_conf_server_get s with
  | None => s
  | Some sc =>
      {| addrs := addrs s;
         server_protocol := server_protocol s;
         tls_conf_server_get := Some (tls_core_init_enabled tls_addresses s sc) |}
  end.

(** [for (s = base_server; s; s = s->next)], the enablement pass. *)
Definition tls_core_init_servers
    (tls_addresses : list server_addr_rec) (servers : list server_rec) : list server_rec :=
  map (tls_core_init_server tls_addresses) servers.

(** What the specification asks of a match, in its words: same port, same
    address length, same address bytes. *)
Definition spec_listen_match (la sa : server_addr_rec) : bool :=
  (host_port la =? host_port sa)
  && (ipaddr_len (host_addr la) =? ipaddr_len (host_addr sa))
  && (memcmp (ipaddr_ptr (host_addr la)) (ipaddr_ptr (host_addr sa))
             (Z.to_nat (ipaddr_len (host_addr la))) =? 0).

Definition spec_we_listen_on (tls_addresses : list server_addr_rec) (s : server_rec) : bool :=
  existsb (fun la => existsb (spec_listen_match la) (addrs s)) tls_addresses.

(** The enablement the specification describes for a server whose flag was
    not set before startup. *)
Definition spec_enabled (tls_addresses : list server_addr_rec) (s : server_rec) : bool :=
  match tls_addresses with
  | _ :: _ => spec_we_listen_on tls_addresses s
  | [] => match server_protocol s with
          | Some p => String.eqb "https" p
          | None => false
          end
  end.

(** A server on 10.0.0.1:443 and a TLS listener pinned to 10.0.0.2:443. *)
Definition addr_10_0_0_1 : apr_sockaddr_t :=
  {| ipaddr_len := 4; ipaddr_ptr := ["010"; "000"; "000"; "001"]%byte |}.
Definition addr_10_0_0_2 : apr_sockaddr_t :=
  {| ipaddr_len := 4; ipaddr_ptr := ["010"; "000"; "000"; "002"]%byte |}.
Definition listen_10_0_0_2_443 : server_addr_rec :=
  {| host_port := 443; host_addr := addr_10_0_0_2 |}.
Definition vhost_10_0_0_1 : server_rec :=
  {| addrs := [ {| host_port := 443; host_addr := addr_10_0_0_1 |} ];
     server_protocol := Some "http"%string;
     tls_conf_server_get := Some {| enabled := TLS_FLAG_UNSET |} |}.

End TlsCore.

(* ===================================================================== *)
(** * tls_var.c: the variables exported after the handshake *)
(* ===================================================================== *)

Module TlsVar.

(** What a run of a function of this file comes to: it returns, or it
    stores through a NULL pointer. *)
Inductive outcome (A : Type) : Type :=
| Returns (a : A)
| NullDeref.
Arguments Returns {A} a.
Arguments NullDeref {A}.

(** [apr_table_t]: an ordered list of name/value pairs.  The names used by
    this file are fixed upper-case literals, so the case-insensitive match of
    APR is the equality of strings here. *)
Definition apr_table_t := list (string * string).

Fixpoint apr_table_get (t : apr_table_t) (key : string) : option string :=
  match t with
  | [] => None
  | (k, v) :: rest => if String.eqb k key then Some v else apr_table_get rest key
  end.

Fixpoint apr_table_unset (t : apr_table_t) (key : string) : apr_table_t :=
  match t with
  | [] => []
  | (k, v) :: rest =>
      if String.eqb k key then apr_table_unset rest key else (k, v) :: apr_table_unset rest key
  end.

(** [apr_table_setn]: the first entry of the name is overwritten and its
    duplicates dropped; a new name goes to the end. *)
Fixpoint apr_table_setn (t : apr_table_t) (key val : string) : apr_table_t :=
  match t with
  | [] => [(key, val)]
  | (k, v) :: rest =>
      if String.eqb k key then (k, val) :: apr_table_unset rest key
      else (k, v) :: apr_table_setn rest key val
  end.

(** [tls_conf_conn_t], the fields this file reads and writes.
    [client_cert] tells whether the pointer is set. *)
Record tls_conf_conn_t : Type := {
  state : tls_conn_state_t;
  tls_protocol_name : option string;
  tls_cipher_name : option string;
  sni_hostname : option string;
  client_cert : bool;
  subprocess_env : option apr_table_t
}.

Definition set_subprocess_env (env : option apr_table_t) (cc : tls_conf_conn_t) : tls_conf_conn_t :=
  {| state := state cc;
     tls_protocol_name := tls_protocol_name cc;
     tls_cipher_name := tls_cipher_name cc;
     sni_hostname := sni_hostname cc;
     client_cert := client_cert cc;
     subprocess_env := env |}.

(** [conn_rec]: what [tls_conf_conn_get] finds on the connection. *)
Record conn_rec : Type := {
  tls_conf_conn_get : option tls_conf_conn_t
}.

(** [tls_var_lookup_ctx_t], the fields [invoke] and [set_var] read. *)
Record tls_var_lookup_ctx_t : Type := {
  ctx_cc : option tls_conf_conn_t;
  ctx_name : string
}.

(** The lookup functions are only called by [invoke], behind its test of
    [ctx->cc]; they take the context they dereference. *)
Definition var_lookup := tls_conf_conn_t -> option string.

Definition var_get_ssl_protocol : var_lookup := fun cc => tls_protocol_name cc.
Definition var_get_ssl_cipher : var_lookup := fun cc => tls_cipher_name cc.
Definition var_get_sni_hostname : var_lookup := fun cc => sni_hostname cc.
Definition var_get_client_s_dn_cn : var_lookup :=
  fun cc => if client_cert cc then Some "Not Implemented"%string else None.

Record var_def_t : Type := {
  name : string;
  fn : var_lookup
}.

Definition VAR_DEFS : list var_def_t :=
  [ {| name := "SSL_PROTOCOL"; fn := var_get_ssl_protocol |};
    {| name := "SSL_CIPHER"; fn := var_get_ssl_cipher |};
    {| name := "SSL_TLS_SNI"; fn := var_get_sni_hostname |};
    {| name := "SSL_CLIENT_S_DN_CN"; fn := var_get_client_s_dn_cn |} ].

Definition TlsAlwaysVars : list string :=
  [ "SSL_TLS_SNI"; "SSL_PROTOCOL"; "SSL_CIPHER"; "SSL_CLIENT_S_DN_CN" ]%string.

(** [apr_hash_t] keyed by strings. *)
Definition apr_hash_t := list (string * var_def_t).

Fixpoint apr_hash_get (h : apr_hash_t) (key : string) : option var_def_t :=
  match h with
  | [] => None
  | (k, d) :: rest => if String.eqb k key then Some d else apr_hash_get rest key
  end.

Fixpoint apr_hash_set (h : apr_hash_t) (key : string) (d : var_def_t) : apr_hash_t :=
  match h with
  | [] => [(key, d)]
  | (k, d0) :: rest =>
      if String.eqb k key then (k, d) :: rest else (k, d0) :: apr_hash_set rest key d
  end.

Definition tls_var_init_lookup_hash (map : apr_hash_t) : apr_hash_t :=
  fold_left (fun m def => apr_hash_set m (name def) def) VAR_DEFS map.

(** [(val && *val)] *)
Definition nonempty (val : option string) : bool :=
  match val with
  | Some s => negb (String.eqb s "")
  | None => false
  end.

Definition invoke (def : var_def_t) (ctx : tls_var_lookup_ctx_t) : option string :=
  match ctx_cc ctx with
  | Some cc =>
      if negb (tls_conn_state_eqb (state cc) TLS_CONN_ST_IGNORED) then
        let val := match subprocess_env cc with
                   | Some env => apr_table_get env (name def)
                   | None => None
                   end in
        if nonempty val then val else fn def cc
      else None
  | None => None
  end.

Definition set_var (ctx : tls_var_lookup_ctx_t) (lookups : apr_hash_t)
    (table : apr_table_t) : apr_table_t :=
  match apr_hash_get lookups (ctx_name ctx) with
  | Some def =>
      match invoke def ctx with
      | Some val => if nonempty (Some val) then apr_table_setn table (ctx_name ctx) val else table
      | None => table
      end
  | None => table
  end.

(** [tls_var_handshake_done].  [lookups] is
    [tls_conf_server_get(cc->server)->global->var_lookups].  The statement
    after the label [cleanup] stores through [cc] on every path. *)
Definition tls_var_handshake_done (lookups : apr_hash_t) (c : conn_rec)
  : outcome (apr_status_t * conn_rec) :=
  let cc := tls_conf_conn_get c in
  let rv := APR_SUCCESS in
  let env : option apr_table_t :=
    match cc with
    | None => None                                     (* !cc: goto cleanup *)
    | Some x =>
        if tls_conn_state_eqb TLS_CONN_ST_IGNORED (state x) then None   (* goto cleanup *)
        else
          let env0 := apr_table_setn [] "HTTPS" "on" in
          Some (fold_left
                  (fun env nm => set_var {| ctx_cc := Some x; ctx_name := nm |} lookups env)
                  TlsAlwaysVars env0)
    end in
  (* cleanup: cc->subprocess_env = (APR_SUCCESS == rv)? env : NULL; *)
  match cc with
  | None => NullDeref
  | Some x =>
      let v := if apr_status_eqb APR_SUCCESS rv then env else None in
      Returns (rv, {| tls_conf_conn_get := Some (set_subprocess_env v x) |})
  end.

(** A connection this module never attached a context to. *)
Definition conn_without_context : conn_rec := {| tls_conf_conn_get := None |}.

(** A connection whose context is marked as not handled by the module. *)
Definition conn_ignored : conn_rec :=
  {| tls_conf_conn_get :=
       Some {| state := TLS_CONN_ST_IGNORED;
               tls_protocol_name := None; tls_cipher_name := None;
               sni_hostname := None; client_cert := false;
               subprocess_env := Some [("HTTPS", "on")]%string |} |}.

(** The value of a variable on a connection context: what [invoke] gives
    for its definition. *)
Definition var_value (cc : tls_conf_conn_t) (def : var_def_t) : option string :=
  invoke def {| ctx_cc := Some cc; ctx_name := name def |}.

(** The definition that [VAR_DEFS] has for a name. *)
Definition var_def_of (nm : string) : option var_def_t :=
  find (fun def => String.eqb (name def) nm) VAR_DEFS.

(** The variables of a connection in the order of [TlsAlwaysVars], without
    those that have no value or an empty one, behind the entry for HTTPS. *)
Definition exported_vars (cc : tls_conf_conn_t) : apr_table_t :=
  ("HTTPS", "on")%string ::
  flat_map
    (fun nm =>
       match var_def_of nm with
       | Some def =>
           match var_value cc def with
           | Some v => if nonempty (Some v) then [(nm, v)] else []
           | None => []
           end
       | None => []
       end)
    TlsAlwaysVars.

(** A connection after its handshake, with its protocol and cipher known
    and no server name sent. *)
Definition conn_handled : tls_conf_conn_t :=
  {| state := TLS_CONN_ST_TRAFFIC;
     tls_protocol_name := Some "TLSv1.3"%string;
     tls_cipher_name := Some "TLS13_AES_256_GCM_SHA384"%string;
     sni_hostname := None; client_cert := false;
     subprocess_env := None |}.

(** [server_rec] as [tls_var_lookup] uses it: what
    [tls_conf_server_get(s)] finds, NULL or a configuration, of which the
    function reads [sc->global->var_lookups]. *)
Record server_rec : Type := {
  var_lookups : option apr_hash_t
}.



End TlsVar.

(* ===================================================================== *)
(** * tls_filter.c: the connection filters *)
(* ===================================================================== *)

Module TlsFilter.

Inductive apr_read_type_e : Type := APR_BLOCK_READ | APR_NONBLOCK_READ.

Definition apr_read_type_eqb (a b : apr_read_type_e) : bool :=
  match a, b with
  | APR_BLOCK_READ, APR_BLOCK_READ => true
  | APR_NONBLOCK_READ, APR_NONBLOCK_READ => true
  | _, _ => false
  end.

Inductive ap_input_mode_t : Type :=
| AP_MODE_READBYTES
| AP_MODE_GETLINE
| AP_MODE_EATCRLF
| AP_MODE_SPECULATIVE
| AP_MODE_EXHAUSTIVE
| AP_MODE_INIT.

Inductive rustls_result : Type :=
| RUSTLS_RESULT_OK
| RUSTLS_RESULT_ERROR (code : Z).

Definition rustls_ok (rr : rustls_result) : bool :=
  match rr with RUSTLS_RESULT_OK => true | RUSTLS_RESULT_ERROR _ => false end.

(** [apr_size_t] arithmetic wraps at 2^64. *)
Definition size_wrap (x : Z) : Z := x mod 2 ^ 64.

(** [(apr_size_t)-1], the length of a bucket that was not read yet. *)
Definition SIZE_UNKNOWN : Z := 2 ^ 64 - 1.

(** What an open file does when the filter seeks and reads it: the two
    statuses, and how many bytes one read delivers at most. *)
Record apr_file_t : Type := {
  seek_rv : apr_status_t;
  read_rv : apr_status_t;
  read_max : Z
}.

(** The buckets the filters meet.  Three metadata buckets; data held in
    memory; data of a file, of known length; and a pipe or socket bucket,
    whose length is unknown until it is read: each element of [reads] is
    what one [apr_bucket_read] of it gives, depending on the blocking mode. *)
Inductive apr_bucket : Type :=
| BUCKET_EOS
| BUCKET_FLUSH
| BUCKET_EOC
| BUCKET_HEAP (data : bytes)
| BUCKET_FILE (fd : apr_file_t) (data : bytes)
| BUCKET_PIPE (reads : list (apr_read_type_e -> apr_status_t * bytes)).

Definition apr_bucket_brigade := list apr_bucket.

Definition APR_BUCKET_IS_METADATA (b : apr_bucket) : bool :=
  match b with
  | BUCKET_EOS | BUCKET_FLUSH | BUCKET_EOC => true
  | _ => false
  end.

Definition APR_BUCKET_IS_EOS (b : apr_bucket) : bool :=
  match b with BUCKET_EOS => true | _ => false end.

Definition AP_BUCKET_IS_EOC (b : apr_bucket) : bool :=
  match b with BUCKET_EOC => true | _ => false end.

Definition APR_BUCKET_IS_FILE (b : apr_bucket) : bool :=
  match b with BUCKET_FILE _ _ => true | _ => false end.

Definition blen (d : bytes) : Z := Z.of_nat (List.length d).

(** [b->length] *)
Definition bucket_length (b : apr_bucket) : Z :=
  match b with
  | BUCKET_EOS | BUCKET_FLUSH | BUCKET_EOC => 0
  | BUCKET_HEAP d => blen d
  | BUCKET_FILE _ d => blen d
  | BUCKET_PIPE _ => SIZE_UNKNOWN
  end.

(** The data bytes a bucket carries, as far as they are known. *)
Definition bucket_bytes (b : apr_bucket) : bytes :=
  match b with
  | BUCKET_HEAP d => d
  | BUCKET_FILE _ d => d
  | _ => []
  end.

Definition brigade_bytes (bb : apr_bucket_brigade) : bytes :=
  flat_map bucket_bytes bb.

(** [apr_bucket_read(b, &data, &dlen, block)]: the status, the data, what
    [b] itself has become and the buckets the read put behind it.  Reading a
    pipe turns it into a heap bucket followed by the rest of the pipe; a pipe
    with nothing left reports [APR_EOF].  A file bucket is read into memory. *)
Definition apr_bucket_read (b : apr_bucket) (block : apr_read_type_e)
  : apr_status_t * bytes * apr_bucket * apr_bucket_brigade :=
  match b with
  | BUCKET_EOS | BUCKET_FLUSH | BUCKET_EOC => (APR_SUCCESS, [], b, [])
  | BUCKET_HEAP d => (APR_SUCCESS, d, b, [])
  | BUCKET_FILE _ d => (APR_SUCCESS, d, BUCKET_HEAP d, [])
  | BUCKET_PIPE [] => (APR_EOF, [], b, [])
  | BUCKET_PIPE (r :: rest) =>
      match r block with
      | (APR_SUCCESS, d) => (APR_SUCCESS, d, BUCKET_HEAP d, [BUCKET_PIPE rest])
      | (rv, _) => (rv, [], b, [])
      end
  end.

(** [apr_bucket_split(b, point)]: [b] keeps the first [point] bytes, a new
    bucket behind it takes the rest. *)
Definition apr_bucket_split (b : apr_bucket) (point : Z) : apr_bucket * apr_bucket_brigade :=
  match b with
  | BUCKET_HEAP d =>
      (BUCKET_HEAP (firstn (Z.to_nat point) d), [BUCKET_HEAP (skipn (Z.to_nat point) d)])
  | BUCKET_FILE fd d =>
      (BUCKET_FILE fd (firstn (Z.to_nat point) d), [BUCKET_FILE fd (skipn (Z.to_nat point) d)])
  | _ => (b, [])
  end.

(** [b->start += n; b->length -= n] on a bucket that was read. *)
Definition bucket_advance (b : apr_bucket) (n : Z) : apr_bucket :=
  match b with
  | BUCKET_HEAP d => BUCKET_HEAP (skipn (Z.to_nat n) d)
  | BUCKET_FILE fd d => BUCKET_FILE fd (skipn (Z.to_nat n) d)
  | _ => b
  end.

(** What the filters do to the engine and to the filters below them, in the
    order they do it. *)
Inductive event : Type :=
| EvGetBrigade (mode : ap_input_mode_t) (block : apr_read_type_e) (len : Z)
| EvBucketRead (block : apr_read_type_e)
| EvEndOfStream
| EvReadTls (data : bytes) (rr : rustls_result) (rlen : Z)
| EvProcessNewPackets
| EvSessionRead (got : bytes)
| EvSessionWrite (data : bytes) (rr : rustls_result) (wlen : Z)
| EvWriteTls (got : bytes)
| EvSendCloseNotify
| EvPassBrigade (bb : apr_bucket_brigade)
| EvInitServer.

(** The capabilities the filters are written against.  [E] is the state of
    a rustls server session together with what its callbacks recorded on the
    connection ([cc->client_hello_seen]); [N] is the state of the filters
    below ([f->next]).  The functions of crustls return their result and
    their out parameter.  The constants are those of tls_filter.h, of APR
    and of httpd. *)
Record externals (E N : Type) : Type := {
  rustls_server_session_is_handshaking : E -> bool;
  rustls_server_session_wants_read : E -> bool;
  rustls_server_session_wants_write : E -> bool;
  rustls_server_session_read_tls : E -> bytes -> rustls_result * Z * E;
  rustls_server_session_process_new_packets : E -> rustls_result * E;
  rustls_server_session_read : E -> Z -> rustls_result * bytes * E;
  rustls_server_session_write : E -> bytes -> rustls_result * Z * E;
  rustls_server_session_write_tls : E -> Z -> rustls_result * bytes * E;
  rustls_server_session_send_close_notify : E -> E;
  client_hello_seen : E -> bool;
  (* the filters below: the status, the buckets added to the brigade *)
  ap_get_brigade : N -> ap_input_mode_t -> apr_read_type_e -> Z
                   -> apr_status_t * apr_bucket_brigade * N;
  (* the status, whether the core marked the connection aborted, what it
     left in the brigade *)
  ap_pass_brigade : N -> apr_bucket_brigade -> apr_status_t * bool * apr_bucket_brigade * N;
  (* other files of the module *)
  tls_core_conn_init_server : E -> apr_status_t * E;
  tls_core_conn_post_handshake : E -> apr_status_t * E;
  tls_util_rustls_error : rustls_result -> apr_status_t;
  tls_util_brigade_split_line :
    apr_bucket_brigade -> apr_bucket_brigade -> apr_read_type_e -> Z
    -> apr_status_t * apr_bucket_brigade * apr_bucket_brigade * Z;
  tls_util_brigade_transfer :
    apr_bucket_brigade -> apr_bucket_brigade -> Z
    -> apr_status_t * apr_bucket_brigade * apr_bucket_brigade * Z;
  tls_util_brigade_copy :
    apr_bucket_brigade -> apr_bucket_brigade -> Z
    -> apr_status_t * apr_bucket_brigade * apr_bucket_brigade * Z;
  TLS_PREF_WRITE_SIZE : Z;
  TLS_PREF_TLS_WRITE_SIZE : Z;
  TLS_REC_EXTRA : Z;
  TLS_MAX_BUCKET_SIZE : Z;
  APR_BUCKET_BUFF_SIZE : Z;
  HUGE_STRING_LEN : Z
}.

Arguments rustls_server_session_is_handshaking {E N} _ _.
Arguments rustls_server_session_wants_read {E N} _ _.
Arguments rustls_server_session_wants_write {E N} _ _.
Arguments rustls_server_session_read_tls {E N} _ _ _.
Arguments rustls_server_session_process_new_packets {E N} _ _.
Arguments rustls_server_session_read {E N} _ _ _.
Arguments rustls_server_session_write {E N} _ _ _.
Arguments rustls_server_session_write_tls {E N} _ _ _.
Arguments rustls_server_session_send_close_notify {E N} _ _.
Arguments client_hello_seen {E N} _ _.
Arguments ap_get_brigade {E N} _ _ _ _ _.
Arguments ap_pass_brigade {E N} _ _ _.
Arguments tls_core_conn_init_server {E N} _ _.
Arguments tls_core_conn_post_handshake {E N} _ _.
Arguments tls_util_rustls_error {E N} _ _.
Arguments tls_util_brigade_split_line {E N} _ _ _ _ _.
Arguments tls_util_brigade_transfer {E N} _ _ _ _.
Arguments tls_util_brigade_copy {E N} _ _ _ _.
Arguments TLS_PREF_WRITE_SIZE {E N} _.
Arguments TLS_PREF_TLS_WRITE_SIZE {E N} _.
Arguments TLS_REC_EXTRA {E N} _.
Arguments TLS_MAX_BUCKET_SIZE {E N} _.
Arguments APR_BUCKET_BUFF_SIZE {E N} _.
Arguments HUGE_STRING_LEN {E N} _.

(** [tls_filter_ctx_t] with the fields of [conn_rec] and [tls_conf_conn_t]
    that the filters use.  [fout_buf_plain] is the memory of the buffer: its
    first [fout_buf_plain_len] bytes are the ones in use.  [trace] is not a
    field of the C structure: it records the events of the run. *)
Record tls_filter_ctx_t (E N : Type) : Type := {
  c_aborted : bool;
  cc_state : tls_conn_state_t;
  cc_rustls_session : option E;
  fin_tls_bb : apr_bucket_brigade;
  fin_tls_buffer_bb : option apr_bucket_brigade;
  fin_plain_bb : apr_bucket_brigade;
  fin_bytes_in_rustls : Z;
  fin_max_in_rustls : Z;
  fin_block : apr_read_type_e;
  fout_tls_bb : apr_bucket_brigade;
  fout_buf_plain : bytes;
  fout_buf_plain_size : Z;
  fout_buf_plain_len : Z;
  fout_bytes_in_rustls : Z;
  fout_bytes_in_tls_bb : Z;
  fout_max_in_rustls : Z;
  next : N;
  trace : list event
}.

Arguments c_aborted {E N} _.
Arguments cc_state {E N} _.
Arguments cc_rustls_session {E N} _.
Arguments fin_tls_bb {E N} _.
Arguments fin_tls_buffer_bb {E N} _.
Arguments fin_plain_bb {E N} _.
Arguments fin_bytes_in_rustls {E N} _.
Arguments fin_max_in_rustls {E N} _.
Arguments fin_block {E N} _.
Arguments fout_tls_bb {E N} _.
Arguments fout_buf_plain {E N} _.
Arguments fout_buf_plain_size {E N} _.
Arguments fout_buf_plain_len {E N} _.
Arguments fout_bytes_in_rustls {E N} _.
Arguments fout_bytes_in_tls_bb {E N} _.
Arguments fout_max_in_rustls {E N} _.
Arguments next {E N} _.
Arguments trace {E N} _.

(** An assertion of the source that does not hold, or a NULL pointer handed
    to a function that dereferences it. *)
Inductive fault : Type := FaultAssert | FaultNull.

(** How a run of a function of the filters ends: it returns a value and
    leaves a context; it stops the process at a fault; or the loop it is in
    has not ended when the fuel of the model is used up. *)
Inductive outcome (E N A : Type) : Type :=
| Returns (a : A) (st : tls_filter_ctx_t E N)
| Faults (f : fault) (st : tls_filter_ctx_t E N)
| Spins (st : tls_filter_ctx_t E N).

Arguments Returns {E N A} a st.
Arguments Faults {E N A} f st.
Arguments Spins {E N A} st.

Definition bind {E N A B : Type} (m : outcome E N A)
    (k : A -> tls_filter_ctx_t E N -> outcome E N B) : outcome E N B :=
  match m with
  | Returns a st => k a st
  | Faults f st => Faults f st
  | Spins st => Spins st
  end.

Notation "'call' ( x , st ) <- m ; k" := (bind m (fun x st => k))
  (at level 10, x pattern, st name, m at level 100, k at level 200).

(** The context in which a run ends, whatever its end. *)
Definition final_ctx {E N A : Type} (o : outcome E N A) : tls_filter_ctx_t E N :=
  match o with
  | Returns _ st => st
  | Faults _ st => st
  | Spins st => st
  end.

(** ** Assignments to the fields *)

Section Fields.
Context {E N : Type}.
Local Abbreviation ctx := (tls_filter_ctx_t E N).

Definition set_c_aborted (v : bool) (st : ctx) : ctx :=
  {| c_aborted := v; cc_state := cc_state st;
     cc_rustls_session := cc_rustls_session st; fin_tls_bb := fin_tls_bb st;
     fin_tls_buffer_bb := fin_tls_buffer_bb st; fin_plain_bb := fin_plain_bb st;
     fin_bytes_in_rustls := fin_bytes_in_rustls st; fin_max_in_rustls := fin_max_in_rustls st;
     fin_block := fin_block st; fout_tls_bb := fout_tls_bb st;
     fout_buf_plain := fout_buf_plain st; fout_buf_plain_size := fout_buf_plain_size st;
     fout_buf_plain_len := fout_buf_plain_len st; fout_bytes_in_rustls := fout_bytes_in_rustls st;
     fout_bytes_in_tls_bb := fout_bytes_in_tls_bb st; fout_max_in_rustls := fout_max_in_rustls st;
     next := next st; trace := trace st |}.

Definition set_cc_state (v : tls_conn_state_t) (st : ctx) : ctx :=
  {| c_aborted := c_aborted st; cc_state := v;
     cc_rustls_session := cc_rustls_session st; fin_tls_bb := fin_tls_bb st;
     fin_tls_buffer_bb := fin_tls_buffer_bb st; fin_plain_bb := fin_plain_bb st;
     fin_bytes_in_rustls := fin_bytes_in_rustls st; fin_max_in_rustls := fin_max_in_rustls st;
     fin_block := fin_block st; fout_tls_bb := fout_tls_bb st;
     fout_buf_plain := fout_buf_plain st; fout_buf_plain_size := fout_buf_plain_size st;
     fout_buf_plain_len := fout_buf_plain_len st; fout_bytes_in_rustls := fout_bytes_in_rustls st;
     fout_bytes_in_tls_bb := fout_bytes_in_tls_bb st; fout_max_in_rustls := fout_max_in_rustls st;
     next := next st; trace := trace st |}.

Definition set_cc_rustls_session (v : option E) (st : ctx) : ctx :=
  {| c_aborted := c_aborted st; cc_state := cc_state st;
     cc_rustls_session := v; fin_tls_bb := fin_tls_bb st;
     fin_tls_buffer_bb := fin_tls_buffer_bb st; fin_plain_bb := fin_plain_bb st;
     fin_bytes_in_rustls := fin_bytes_in_rustls st; fin_max_in_rustls := fin_max_in_rustls st;
     fin_block := fin_block st; fout_tls_bb := fout_tls_bb st;
     fout_buf_plain := fout_buf_plain st; fout_buf_plain_size := fout_buf_plain_size st;
     fout_buf_plain_len := fout_buf_plain_len st; fout_bytes_in_rustls := fout_bytes_in_rustls st;
     fout_bytes_in_tls_bb := fout_bytes_in_tls_bb st; fout_max_in_rustls := fout_max_in_rustls st;
     next := next st; trace := trace st |}.

Definition set_fin_tls_bb (v : apr_bucket_brigade) (st : ctx) : ctx :=
  {| c_aborted := c_aborted st; cc_state := cc_state st;
     cc_rustls_session := cc_rustls_session st; fin_tls_bb := v;
     fin_tls_buffer_bb := fin_tls_buffer_bb st; fin_plain_bb := fin_plain_bb st;
     fin_bytes_in_rustls := fin_bytes_in_rustls st; fin_max_in_rustls := fin_max_in_rustls st;
     fin_block := fin_block st; fout_tls_bb := fout_tls_bb st;
     fout_buf_plain := fout_buf_plain st; fout_buf_plain_size := fout_buf_plain_size st;
     fout_buf_plain_len := fout_buf_plain_len st; fout_bytes_in_rustls := fout_bytes_in_rustls st;
     fout_bytes_in_tls_bb := fout_bytes_in_tls_bb st; fout_max_in_rustls := fout_max_in_rustls st;
     next := next st; trace := trace st |}.

Definition set_fin_tls_buffer_bb (v : option apr_bucket_brigade) (st : ctx) : ctx :=
  {| c_aborted := c_aborted st; cc_state := cc_state st;
     cc_rustls_session := cc_rustls_session st; fin_tls_bb := fin_tls_bb st;
     fin_tls_buffer_bb := v; fin_plain_bb := fin_plain_bb st;
     fin_bytes_in_rustls := fin_bytes_in_rustls st; fin_max_in_rustls := fin_max_in_rustls st;
     fin_block := fin_block st; fout_tls_bb := fout_tls_bb st;
     fout_buf_plain := fout_buf_plain st; fout_buf_plain_size := fout_buf_plain_size st;
     fout_buf_plain_len := fout_buf_plain_len st; fout_bytes_in_rustls := fout_bytes_in_rustls st;
     fout_bytes_in_tls_bb := fout_bytes_in_tls_bb st; fout_max_in_rustls := fout_max_in_rustls st;
     next := next st; trace := trace st |}.

Definition set_fin_plain_bb (v : apr_bucket_brigade) (st : ctx) : ctx :=
  {| c_aborted := c_aborted st; cc_state := cc_state st;
     cc_rustls_session := cc_rustls_session st; fin_tls_bb := fin_tls_bb st;
     fin_tls_buffer_bb := fin_tls_buffer_bb st; fin_plain_bb := v;
     fin_bytes_in_rustls := fin_bytes_in_rustls st; fin_max_in_rustls := fin_max_in_rustls st;
     fin_block := fin_block st; fout_tls_bb := fout_tls_bb st;
     fout_buf_plain := fout_buf_plain st; fout_buf_plain_size := fout_buf_plain_size st;
     fout_buf_plain_len := fout_buf_plain_len st; fout_bytes_in_rustls := fout_bytes_in_rustls st;
     fout_bytes_in_tls_bb := fout_bytes_in_tls_bb st; fout_max_in_rustls := fout_max_in_rustls st;
     next := next st; trace := trace st |}.

Definition set_fin_bytes_in_rustls (v : Z) (st : ctx) : ctx :=
  {| c_aborted := c_aborted st; cc_state := cc_state st;
     cc_rustls_session := cc_rustls_session st; fin_tls_bb := fin_tls_bb st;
     fin_tls_buffer_bb := fin_tls_buffer_bb st; fin_plain_bb := fin_plain_bb st;
     fin_bytes_in_rustls := v; fin_max_in_rustls := fin_max_in_rustls st;
     fin_block := fin_block st; fout_tls_bb := fout_tls_bb st;
     fout_buf_plain := fout_buf_plain st; fout_buf_plain_size := fout_buf_plain_size st;
     fout_buf_plain_len := fout_buf_plain_len st; fout_bytes_in_rustls := fout_bytes_in_rustls st;
     fout_bytes_in_tls_bb := fout_bytes_in_tls_bb st; fout_max_in_rustls := fout_max_in_rustls st;
     next := next st; trace := trace st |}.

Definition set_fin_block (v : apr_read_type_e) (st : ctx) : ctx :=
  {| c_aborted := c_aborted st; cc_state := cc_state st;
     cc_rustls_session := cc_rustls_session st; fin_tls_bb := fin_tls_bb st;
     fin_tls_buffer_bb := fin_tls_buffer_bb st; fin_plain_bb := fin_plain_bb st;
     fin_bytes_in_rustls := fin_bytes_in_rustls st; fin_max_in_rustls := fin_max_in_rustls st;
     fin_block := v; fout_tls_bb := fout_tls_bb st;
     fout_buf_plain := fout_buf_plain st; fout_buf_plain_size := fout_buf_plain_size st;
     fout_buf_plain_len := fout_buf_plain_len st; fout_bytes_in_rustls := fout_bytes_in_rustls st;
     fout_bytes_in_tls_bb := fout_bytes_in_tls_bb st; fout_max_in_rustls := fout_max_in_rustls st;
     next := next st; trace := trace st |}.

Definition set_fout_tls_bb (v : apr_bucket_brigade) (st : ctx) : ctx :=
  {| c_aborted := c_aborted st; cc_state := cc_state st;
     cc_rustls_session := cc_rustls_session st; fin_tls_bb := fin_tls_bb st;
     fin_tls_buffer_bb := fin_tls_buffer_bb st; fin_plain_bb := fin_plain_bb st;
     fin_bytes_in_rustls := fin_bytes_in_rustls st; fin_max_in_rustls := fin_max_in_rustls st;
     fin_block := fin_block st; fout_tls_bb := v;
     fout_buf_plain := fout_buf_plain st; fout_buf_plain_size := fout_buf_plain_size st;
     fout_buf_plain_len := fout_buf_plain_len st; fout_bytes_in_rustls := fout_bytes_in_rustls st;
     fout_bytes_in_tls_bb := fout_bytes_in_tls_bb st; fout_max_in_rustls := fout_max_in_rustls st;
     next := next st; trace := trace st |}.

Definition set_fout_buf_plain (v : bytes) (st : ctx) : ctx :=
  {| c_aborted := c_aborted st; cc_state := cc_state st;
     cc_rustls_session := cc_rustls_session st; fin_tls_bb := fin_tls_bb st;
     fin_tls_buffer_bb := fin_tls_buffer_bb st; fin_plain_bb := fin_plain_bb st;
     fin_bytes_in_rustls := fin_bytes_in_rustls st; fin_max_in_rustls := fin_max_in_rustls st;
     fin_block := fin_block st; fout_tls_bb := fout_tls_bb st;
     fout_buf_plain := v; fout_buf_plain_size := fout_buf_plain_size st;
     fout_buf_plain_len := fout_buf_plain_len st; fout_bytes_in_rustls := fout_bytes_in_rustls st;
     fout_bytes_in_tls_bb := fout_bytes_in_tls_bb st; fout_max_in_rustls := fout_max_in_rustls st;
     next := next st; trace := trace st |}.

Definition set_fout_buf_plain_len (v : Z) (st : ctx) : ctx :=
  {| c_aborted := c_aborted st; cc_state := cc_state st;
     cc_rustls_session := cc_rustls_session st; fin_tls_bb := fin_tls_bb st;
     fin_tls_buffer_bb := fin_tls_buffer_bb st; fin_plain_bb := fin_plain_bb st;
     fin_bytes_in_rustls := fin_bytes_in_rustls st; fin_max_in_rustls := fin_max_in_rustls st;
     fin_block := fin_block st; fout_tls_bb := fout_tls_bb st;
     fout_buf_plain := fout_buf_plain st; fout_buf_plain_size := fout_buf_plain_size st;
     fout_buf_plain_len := v; fout_bytes_in_rustls := fout_bytes_in_rustls st;
     fout_bytes_in_tls_bb := fout_bytes_in_tls_bb st; fout_max_in_rustls := fout_max_in_rustls st;
     next := next st; trace := trace st |}.

Definition set_fout_bytes_in_rustls (v : Z) (st : ctx) : ctx :=
  {| c_aborted := c_aborted st; cc_state := cc_state st;
     cc_rustls_session := cc_rustls_session st; fin_tls_bb := fin_tls_bb st;
     fin_tls_buffer_bb := fin_tls_buffer_bb st; fin_plain_bb := fin_plain_bb st;
     fin_bytes_in_rustls := fin_bytes_in_rustls st; fin_max_in_rustls := fin_max_in_rustls st;
     fin_block := fin_block st; fout_tls_bb := fout_tls_bb st;
     fout_buf_plain := fout_buf_plain st; fout_buf_plain_size := fout_buf_plain_size st;
     fout_buf_plain_len := fout_buf_plain_len st; fout_bytes_in_rustls := v;
     fout_bytes_in_tls_bb := fout_bytes_in_tls_bb st; fout_max_in_rustls := fout_max_in_rustls st;
     next := next st; trace := trace st |}.

Definition set_fout_bytes_in_tls_bb (v : Z) (st : ctx) : ctx :=
  {| c_aborted := c_aborted st; cc_state := cc_state st;
     cc_rustls_session := cc_rustls_session st; fin_tls_bb := fin_tls_bb st;
     fin_tls_buffer_bb := fin_tls_buffer_bb st; fin_plain_bb := fin_plain_bb st;
     fin_bytes_in_rustls := fin_bytes_in_rustls st; fin_max_in_rustls := fin_max_in_rustls st;
     fin_block := fin_block st; fout_tls_bb := fout_tls_bb st;
     fout_buf_plain := fout_buf_plain st; fout_buf_plain_size := fout_buf_plain_size st;
     fout_buf_plain_len := fout_buf_plain_len st; fout_bytes_in_rustls := fout_bytes_in_rustls st;
     fout_bytes_in_tls_bb := v; fout_max_in_rustls := fout_max_in_rustls st;
     next := next st; trace := trace st |}.

Definition set_next (v : N) (st : ctx) : ctx :=
  {| c_aborted := c_aborted st; cc_state := cc_state st;
     cc_rustls_session := cc_rustls_session st; fin_tls_bb := fin_tls_bb st;
     fin_tls_buffer_bb := fin_tls_buffer_bb st; fin_plain_bb := fin_plain_bb st;
     fin_bytes_in_rustls := fin_bytes_in_rustls st; fin_max_in_rustls := fin_max_in_rustls st;
     fin_block := fin_block st; fout_tls_bb := fout_tls_bb st;
     fout_buf_plain := fout_buf_plain st; fout_buf_plain_size := fout_buf_plain_size st;
     fout_buf_plain_len := fout_buf_plain_len st; fout_bytes_in_rustls := fout_bytes_in_rustls st;
     fout_bytes_in_tls_bb := fout_bytes_in_tls_bb st; fout_max_in_rustls := fout_max_in_rustls st;
     next := v; trace := trace st |}.

Definition set_trace (v : list event) (st : ctx) : ctx :=
  {| c_aborted := c_aborted st; cc_state := cc_state st;
     cc_rustls_session := cc_rustls_session st; fin_tls_bb := fin_tls_bb st;
     fin_tls_buffer_bb := fin_tls_buffer_bb st; fin_plain_bb := fin_plain_bb st;
     fin_bytes_in_rustls := fin_bytes_in_rustls st; fin_max_in_rustls := fin_max_in_rustls st;
     fin_block := fin_block st; fout_tls_bb := fout_tls_bb st;
     fout_buf_plain := fout_buf_plain st; fout_buf_plain_size := fout_buf_plain_size st;
     fout_buf_plain_len := fout_buf_plain_len st; fout_bytes_in_rustls := fout_bytes_in_rustls st;
     fout_bytes_in_tls_bb := fout_bytes_in_tls_bb st; fout_max_in_rustls := fout_max_in_rustls st;
     next := next st; trace := v |}.

(** The event [e] happens. *)
Definition log (e : event) (st : ctx) : ctx := set_trace (trace st ++ [e]) st.

End Fields.

(** ** The functions of tls_filter.c *)

Section Filters.
Context {E N : Type} (X : externals E N).
Local Abbreviation ctx := (tls_filter_ctx_t E N).
Local Abbreviation run := (outcome E N).

(** A call of crustls on [fctx->cc->rustls_session]; crustls dereferences
    the session it is given. *)
Definition with_session {A : Type} (st : ctx) (k : E -> run A) : run A :=
  match cc_rustls_session st with
  | Some s => k s
  | None => Faults FaultNull st
  end.

Definition session_is_handshaking (st : ctx) : run bool :=
  with_session st (fun s => Returns (rustls_server_session_is_handshaking X s) st).

Definition session_wants_read (st : ctx) : run bool :=
  with_session st (fun s => Returns (rustls_server_session_wants_read X s) st).

Definition session_wants_write (st : ctx) : run bool :=
  with_session st (fun s => Returns (rustls_server_session_wants_write X s) st).

Definition session_read_tls (data : bytes) (st : ctx) : run (rustls_result * Z) :=
  with_session st (fun s =>
    let '(rr, n, s') := rustls_server_session_read_tls X s data in
    let rlen := size_wrap n in                     (* the out parameter is an apr_size_t *)
    Returns (rr, rlen) (log (EvReadTls data rr rlen) (set_cc_rustls_session (Some s') st))).

Definition session_process_new_packets (st : ctx) : run rustls_result :=
  with_session st (fun s =>
    let '(rr, s') := rustls_server_session_process_new_packets X s in
    Returns rr (log EvProcessNewPackets (set_cc_rustls_session (Some s') st))).

Definition session_read (buf_len : Z) (st : ctx) : run (rustls_result * bytes) :=
  with_session st (fun s =>
    let '(rr, got, s') := rustls_server_session_read X s buf_len in
    Returns (rr, got) (log (EvSessionRead got) (set_cc_rustls_session (Some s') st))).

Definition session_write (data : bytes) (st : ctx) : run (rustls_result * Z) :=
  with_session st (fun s =>
    let '(rr, n, s') := rustls_server_session_write X s data in
    let wlen := size_wrap n in                     (* the out parameter is an apr_size_t *)
    Returns (rr, wlen) (log (EvSessionWrite data rr wlen) (set_cc_rustls_session (Some s') st))).

Definition session_write_tls (buf_len : Z) (st : ctx) : run (rustls_result * bytes) :=
  with_session st (fun s =>
    let '(rr, got, s') := rustls_server_session_write_tls X s buf_len in
    Returns (rr, got) (log (EvWriteTls got) (set_cc_rustls_session (Some s') st))).

Definition session_send_close_notify (st : ctx) : run unit :=
  with_session st (fun s =>
    Returns tt (log EvSendCloseNotify
                  (set_cc_rustls_session (Some (rustls_server_session_send_close_notify X s)) st))).

(** [fctx->cc->client_hello_seen] *)
Definition cc_client_hello_seen (st : ctx) : bool :=
  match cc_rustls_session st with
  | Some s => client_hello_seen X s
  | None => false
  end.

(** [ap_get_brigade(f->next, bb, mode, block, len)]: the buckets that
    arrive are added to [bb]. *)
Definition next_get_brigade (mode : ap_input_mode_t) (block : apr_read_type_e) (len : Z)
    (st : ctx) : apr_status_t * apr_bucket_brigade * ctx :=
  let '(rv, got, n') := ap_get_brigade X (next st) mode block len in
  (rv, got, log (EvGetBrigade mode block len) (set_next n' st)).

(** [ap_pass_brigade(f->next, bb)]: the status and what is left in [bb]. *)
Definition next_pass_brigade (bb : apr_bucket_brigade) (st : ctx)
  : apr_status_t * apr_bucket_brigade * ctx :=
  let '(rv, aborted, remains, n') := ap_pass_brigade X (next st) bb in
  (rv, remains, log (EvPassBrigade bb) (set_c_aborted (c_aborted st || aborted) (set_next n' st))).

(** Where the control is after a loop: behind it, or at the label
    [cleanup]. *)
Inductive flow : Type := Fallthrough | GotoCleanup.

(** The loop of [read_tls_to_rustls], lines 64-107, with the locals [rv],
    [block] and [passed]; [rr] is part of the result. *)
Fixpoint read_tls_loop (fuel : nat) (len : Z) (rv : apr_status_t)
    (block : apr_read_type_e) (passed : Z) (st : ctx)
  : run (flow * apr_status_t * rustls_result * Z) :=
  match fuel with
  | O => Spins st
  | Datatypes.S fuel' =>
      match fin_tls_bb st with
      | [] => Returns (Fallthrough, rv, RUSTLS_RESULT_OK, passed) st
      | b :: rest =>
          if negb (passed <? len) then Returns (Fallthrough, rv, RUSTLS_RESULT_OK, passed) st
          else if APR_BUCKET_IS_EOS b then
            let st0 := log EvEndOfStream st in
            (* apr_brigade_cleanup(fctx->fin_tls_buffer_bb) walks the ring of
               its argument *)
            match fin_tls_buffer_bb st0 with
            | None => Faults FaultNull st0
            | Some _ =>
                Returns (GotoCleanup, APR_EOF, RUSTLS_RESULT_OK, passed)
                        (set_fin_tls_buffer_bb (Some []) st0)
            end
          else
            let '(rv1, data, b1, behind) := apr_bucket_read b block in
            let st1 := log (EvBucketRead block) (set_fin_tls_bb (b1 :: behind ++ rest) st) in
            if APR_STATUS_IS_EOF rv1 then
              (* apr_bucket_delete(b); continue; *)
              read_tls_loop fuel' len rv1 block passed (set_fin_tls_bb (behind ++ rest) st1)
            else if negb (apr_status_eqb APR_SUCCESS rv1) then
              Returns (GotoCleanup, rv1, RUSTLS_RESULT_OK, passed) st1
            else
              let dlen := blen data in
              if 0 <? dlen then
                (* got something, do not block on getting more *)
                call ((rr, rlen), st2) <- session_read_tls data st1;
                if negb (rustls_ok rr) then Returns (GotoCleanup, rv1, rr, passed) st2
                else
                  let st3 :=
                    match fin_tls_buffer_bb st2 with
                    | Some buf =>
                        (* apr_brigade_write(fctx->fin_tls_buffer_bb, NULL, NULL, data, rlen) *)
                        set_fin_tls_buffer_bb
                          (Some (buf ++ [BUCKET_HEAP (firstn (Z.to_nat rlen) data)])) st2
                    | None => st2
                    end in
                  let st4 :=
                    if rlen >=? dlen
                    then set_fin_tls_bb (behind ++ rest) st3
                    else set_fin_tls_bb (bucket_advance b1 rlen :: behind ++ rest) st3 in
                  let st5 := set_fin_bytes_in_rustls (fin_bytes_in_rustls st4 + dlen) st4 in
                  read_tls_loop fuel' len rv1 APR_NONBLOCK_READ (passed + rlen) st5
              else
                (* dlen == 0: apr_bucket_delete(b) *)
                read_tls_loop fuel' len rv1 block passed (set_fin_tls_bb (behind ++ rest) st1)
      end
  end.

(** [read_tls_to_rustls] up to the label [cleanup]: the values of [rv],
    [rr] and [passed] there. *)
Definition read_tls_body (fuel : nat) (len : Z) (st : ctx)
  : run (apr_status_t * rustls_result * Z) :=
  let block := fin_block st in
  call ((fl, rv, rr, passed), st2) <-
    (match fin_tls_bb st with
     | [] =>
         let '(rv, got, st1) := next_get_brigade AP_MODE_READBYTES block len st in
         let st1' := set_fin_tls_bb (fin_tls_bb st1 ++ got) st1 in
         if negb (apr_status_eqb APR_SUCCESS rv)
         then Returns (GotoCleanup, rv, RUSTLS_RESULT_OK, 0) st1'
         else read_tls_loop fuel len rv block 0 st1'
     | _ :: _ => read_tls_loop fuel len APR_SUCCESS block 0 st
     end);
  match fl with
  | GotoCleanup => Returns (rv, rr, passed) st2
  | Fallthrough =>
      if 0 <? passed then
        call (rr', st3) <- session_process_new_packets st2;
        Returns (rv, rr', passed) st3
      else Returns (rv, rr, passed) st2
  end.

(** The statements of [read_tls_to_rustls] behind the label [cleanup],
    lines 115-134: the status the function returns. *)
Definition read_tls_cleanup (fin_block0 : apr_read_type_e)
    (rv : apr_status_t) (rr : rustls_result) (passed : Z) : apr_status_t :=
  if negb (rustls_ok rr) then APR_ECONNRESET
  else if APR_STATUS_IS_EOF rv && (0 <? passed) then APR_SUCCESS
  else if apr_status_eqb APR_SUCCESS rv && (passed =? 0)
          && apr_read_type_eqb fin_block0 APR_NONBLOCK_READ then APR_EAGAIN
  else rv.

Definition read_tls_to_rustls (fuel : nat) (len : Z) (st : ctx) : run apr_status_t :=
  call ((rv, rr, passed), st1) <- read_tls_body fuel len st;
  Returns (read_tls_cleanup (fin_block st1) rv rr passed) st1.

(** The size of the buffer offered to [rustls_server_session_write_tls],
    lines 159-169. *)
Definition tls_write_buffer_size (bytes_in_rustls : Z) : Z :=
  let blen0 := TLS_PREF_TLS_WRITE_SIZE X in
  if bytes_in_rustls <? blen0 / 2 then size_wrap (size_wrap bytes_in_rustls + TLS_REC_EXTRA X)
  else if bytes_in_rustls <=? TLS_MAX_BUCKET_SIZE X then
    let chunks := size_wrap bytes_in_rustls / TLS_PREF_WRITE_SIZE X in
    size_wrap ((if chunks =? 0 then 1 else chunks) * TLS_PREF_TLS_WRITE_SIZE X)
  else TLS_MAX_BUCKET_SIZE X.

(** The [do ... while] of [brigade_tls_from_rustls], lines 153-181: the
    value of [rr] behind it. *)
Fixpoint brigade_tls_loop (fuel : nat) (st : ctx) : run rustls_result :=
  match fuel with
  | O => Spins st
  | Datatypes.S fuel' =>
      let buf_len := tls_write_buffer_size (fout_bytes_in_rustls st) in
      call ((rr, got), st1) <- session_write_tls buf_len st;
      if negb (rustls_ok rr) then Returns rr st1
      else
        let st2 := set_fout_tls_bb (fout_tls_bb st1 ++ [BUCKET_HEAP got]) st1 in
        let st3 := set_fout_bytes_in_tls_bb (fout_bytes_in_tls_bb st2 + blen got) st2 in
        call (again, st4) <- session_wants_write st3;
        if again then brigade_tls_loop fuel' st4 else Returns RUSTLS_RESULT_OK st4
  end.

Definition brigade_tls_from_rustls (fuel : nat) (st : ctx) : run apr_status_t :=
  call (ww, st0) <- session_wants_write st;
  if ww then
    call (rr, st1) <- brigade_tls_loop fuel st0;
    if negb (rustls_ok rr) then Returns (tls_util_rustls_error X rr) st1
    else Returns APR_SUCCESS (set_fout_bytes_in_rustls 0 st1)
  else Returns APR_SUCCESS st0.

Definition write_all_tls_from_rustls (fuel : nat) (st : ctx) : run apr_status_t :=
  call (rv, st1) <- brigade_tls_from_rustls fuel st;
  if negb (apr_status_eqb APR_SUCCESS rv) then Returns rv st1
  else
    match fout_tls_bb st1 with
    | [] => Returns rv st1
    | _ :: _ =>
        let '(rv2, remains, st2) := next_pass_brigade (fout_tls_bb st1) st1 in
        let st3 := set_fout_bytes_in_tls_bb 0 (set_fout_tls_bb remains st2) in
        let rv3 := if apr_status_eqb APR_SUCCESS rv2 && c_aborted st3
                   then APR_ECONNRESET else rv2 in
        (* apr_brigade_cleanup(fctx->fout_tls_bb) *)
        Returns rv3 (set_fout_tls_bb [] st3)
    end.

Definition flush_tls_from_rustls (fuel : nat) (st : ctx) : run apr_status_t :=
  call (rv, st1) <- brigade_tls_from_rustls fuel st;
  if negb (apr_status_eqb APR_SUCCESS rv) then Returns rv st1
  else
    let st2 := set_fout_tls_bb (fout_tls_bb st1 ++ [BUCKET_FLUSH]) st1 in
    let '(rv2, remains, st3) := next_pass_brigade (fout_tls_bb st2) st2 in
    Returns rv2 (set_fout_bytes_in_tls_bb 0 (set_fout_tls_bb remains st3)).

Definition filter_abort (fuel : nat) (st : ctx) : run apr_status_t :=
  if negb (tls_conn_state_eqb (cc_state st) TLS_CONN_ST_DONE) then
    call (_, st1) <- session_send_close_notify st;
    call (_, st2) <- flush_tls_from_rustls fuel st1;
    Returns APR_ECONNABORTED (set_cc_state TLS_CONN_ST_DONE (set_c_aborted true st2))
  else Returns APR_ECONNABORTED st.

(** What the body of a loop ends with: its last statement, a [continue]
    or [break], or a [goto cleanup]. *)
Inductive loop_step : Type := StepNext | StepContinue | StepBreak | StepCleanup.

(** [tls_core_conn_init_server(fctx->c)] puts the session of the selected
    server in place of the provisional one. *)
Definition core_conn_init_server (st : ctx) : run apr_status_t :=
  with_session st (fun s =>
    let '(rv, s') := tls_core_conn_init_server X s in
    Returns rv (log EvInitServer (set_cc_rustls_session (Some s') st))).

Definition core_conn_post_handshake (st : ctx) : run apr_status_t :=
  with_session st (fun s =>
    let '(rv, s') := tls_core_conn_post_handshake X s in
    Returns rv (set_cc_rustls_session (Some s') st)).

(** The [do ... while] of [filter_do_pre_handshake], lines 266-281.  [fuel]
    bounds the loops of the functions it calls, [loops] its own turns. *)
Fixpoint pre_handshake_loop (fuel loops : nat) (st : ctx) : run (flow * apr_status_t) :=
  match loops with
  | O => Spins st
  | Datatypes.S loops' =>
      call (wr, st0) <- session_wants_read st;
      call ((step, rv), st1) <-
        (if wr then
           call (rv, st1) <- read_tls_to_rustls fuel (fin_max_in_rustls st0) st0;
           if negb (apr_status_eqb APR_SUCCESS rv) then
             if cc_client_hello_seen st1
             then Returns (StepBreak, APR_EAGAIN) st1       (* we got what we needed *)
             else Returns (StepCleanup, rv) st1
           else Returns (StepNext, rv) st1
         else Returns (StepNext, APR_SUCCESS) st0);
      match step with
      | StepCleanup => Returns (GotoCleanup, rv) st1
      | StepBreak => Returns (Fallthrough, rv) st1
      | _ =>
          if negb (cc_client_hello_seen st1) then pre_handshake_loop fuel loops' st1
          else Returns (Fallthrough, rv) st1
      end
  end.

Definition filter_do_pre_handshake (fuel : nat) (st : ctx) : run apr_status_t :=
  call (hs, st0) <- session_is_handshaking st;
  call (rv, st9) <-
    (if hs then
       let st1 := set_fin_tls_buffer_bb (Some []) st0 in
       call ((fl, rv), st2) <- pre_handshake_loop fuel fuel st1;
       match fl with
       | GotoCleanup => Returns rv st2
       | Fallthrough =>
           call (rv2, st3) <- core_conn_init_server st2;
           if negb (apr_status_eqb APR_SUCCESS rv2) then Returns rv2 st3
           else
             let bb_tmp := fin_tls_bb st3 in       (* data we have yet to feed to rustls *)
             match fin_tls_buffer_bb st3 with
             | None => Faults FaultNull st3
             | Some buf =>
                 (* fin_tls_bb = fin_tls_buffer_bb; APR_BRIGADE_CONCAT(fin_tls_bb, bb_tmp) *)
                 Returns APR_SUCCESS
                   (set_fin_tls_bb (buf ++ bb_tmp) (set_fin_tls_buffer_bb None st3))
             end
       end
     else Returns APR_SUCCESS st0);
  if negb (apr_status_eqb APR_SUCCESS rv) && negb (APR_STATUS_IS_EAGAIN rv)
  then filter_abort fuel st9
  else Returns rv st9.

(** The [do ... while] of [filter_do_handshake], lines 317-327. *)
Fixpoint handshake_loop (fuel loops : nat) (st : ctx) : run (flow * apr_status_t) :=
  match loops with
  | O => Spins st
  | Datatypes.S loops' =>
      call (wr, st0) <- session_wants_read st;
      call (rv1, st1) <-
        (if wr then read_tls_to_rustls fuel (fin_max_in_rustls st0) st0
         else Returns APR_SUCCESS st0);
      if negb (apr_status_eqb APR_SUCCESS rv1) then Returns (GotoCleanup, rv1) st1
      else
        call (ww, st2) <- session_wants_write st1;
        call (rv2, st3) <-
          (if ww then flush_tls_from_rustls fuel st2 else Returns APR_SUCCESS st2);
        if negb (apr_status_eqb APR_SUCCESS rv2) then Returns (GotoCleanup, rv2) st3
        else
          call (hs, st4) <- session_is_handshaking st3;
          if hs then handshake_loop fuel loops' st4
          else Returns (Fallthrough, APR_SUCCESS) st4
  end.

Definition filter_do_handshake (fuel : nat) (st : ctx) : run apr_status_t :=
  call (hs, st0) <- session_is_handshaking st;
  call (rv, st9) <-
    (if hs then
       call ((fl, rv), st1) <- handshake_loop fuel fuel st0;
       match fl with
       | GotoCleanup => Returns rv st1
       | Fallthrough => core_conn_post_handshake st1
       end
     else Returns APR_SUCCESS st0);
  if negb (apr_status_eqb APR_SUCCESS rv) && negb (APR_STATUS_IS_EAGAIN rv)
  then filter_abort fuel st9
  else Returns rv st9.

(** Lines 384-399 of [filter_conn_input]: the two handshake phases. *)
Definition filter_conn_input_handshake (fuel : nat) (st : ctx) : run (flow * apr_status_t) :=
  call ((fl, rv), st1) <-
    (if tls_conn_state_eqb TLS_CONN_ST_PRE_HANDSHAKE (cc_state st) then
       call (rv, st1) <- filter_do_pre_handshake fuel st;
       if negb (apr_status_eqb APR_SUCCESS rv) then Returns (GotoCleanup, rv) st1
       else Returns (Fallthrough, rv) (set_cc_state TLS_CONN_ST_HANDSHAKE st1)
     else Returns (Fallthrough, APR_SUCCESS) st);
  match fl with
  | GotoCleanup => Returns (fl, rv) st1
  | Fallthrough =>
      if tls_conn_state_eqb TLS_CONN_ST_HANDSHAKE (cc_state st1) then
        call (rv2, st2) <- filter_do_handshake fuel st1;
        if negb (apr_status_eqb APR_SUCCESS rv2) then Returns (GotoCleanup, rv2) st2
        else Returns (Fallthrough, rv2) (set_cc_state TLS_CONN_ST_TRAFFIC st2)
      else Returns (Fallthrough, rv) st1
  end.

(** The loop at lines 415-443 of [filter_conn_input]: the values of [rv]
    and [rr] where it ends. *)
Fixpoint input_fill_loop (fuel loops : nat) (rv : apr_status_t) (st : ctx)
  : run (flow * apr_status_t * rustls_result) :=
  match loops with
  | O => Spins st
  | Datatypes.S loops' =>
      match fin_plain_bb st with
      | _ :: _ => Returns (Fallthrough, rv, RUSTLS_RESULT_OK) st
      | [] =>
          call ((rr, rlen), st1) <-
            (if 0 <? fin_bytes_in_rustls st then
               call ((rr, got), st1) <- session_read (APR_BUCKET_BUFF_SIZE X) st;
               if negb (rustls_ok rr) then Returns (rr, 0) st1
               else if 0 <? blen got
               then Returns (rr, blen got)
                            (set_fin_plain_bb (fin_plain_bb st1 ++ [BUCKET_HEAP got]) st1)
               else Returns (rr, 0) st1
             else Returns (RUSTLS_RESULT_OK, 0) st);
          if negb (rustls_ok rr) then Returns (GotoCleanup, rv, rr) st1
          else if rlen =? 0 then
            (* that did not produce anything either: get more TLS data *)
            let st2 := set_fin_bytes_in_rustls 0 st1 in
            call (rv2, st3) <- read_tls_to_rustls fuel (fin_max_in_rustls st2) st2;
            if negb (apr_status_eqb APR_SUCCESS rv2)
            then Returns (GotoCleanup, rv2, RUSTLS_RESULT_OK) st3
            else input_fill_loop fuel loops' rv2 st3
          else input_fill_loop fuel loops' rv st1
      end
  end.

(** Lines 445-472 of [filter_conn_input]: the read modes.  The result is
    the status, the brigade of the caller and whether the statement behind
    the modes, [write_all_tls_from_rustls], is reached. *)
Definition filter_conn_input_modes (bb : apr_bucket_brigade) (mode : ap_input_mode_t)
    (block : apr_read_type_e) (readbytes : Z) (st : ctx)
  : run (flow * apr_status_t * apr_bucket_brigade) :=
  let finish (r : apr_status_t * apr_bucket_brigade * apr_bucket_brigade * Z) :=
    let '(rv, bb', plain', _) := r in
    if negb (apr_status_eqb APR_SUCCESS rv)
    then Returns (GotoCleanup, rv, bb') (set_fin_plain_bb plain' st)
    else Returns (Fallthrough, rv, bb') (set_fin_plain_bb plain' st) in
  match mode with
  | AP_MODE_GETLINE =>
      let readbytes' := if readbytes <=? 0 then HUGE_STRING_LEN X else readbytes in
      finish (tls_util_brigade_split_line X bb (fin_plain_bb st) block readbytes')
  | AP_MODE_READBYTES =>
      if negb (0 <? readbytes) then Faults FaultAssert st
      else finish (tls_util_brigade_transfer X bb (fin_plain_bb st) readbytes)
  | AP_MODE_SPECULATIVE =>
      if negb (0 <? readbytes) then Faults FaultAssert st
      else finish (tls_util_brigade_copy X bb (fin_plain_bb st) readbytes)
  | AP_MODE_EXHAUSTIVE =>
      (* return all we have *)
      Returns (Fallthrough, APR_SUCCESS, bb ++ fin_plain_bb st) (set_fin_plain_bb [] st)
  | _ =>
      Returns (GotoCleanup, APR_ENOTIMPL, bb) st
  end.

(** Lines 384-443 of [filter_conn_input]: all that comes before the read
    modes. *)
Definition filter_conn_input_refill (fuel : nat) (mode : ap_input_mode_t) (st : ctx)
  : run (flow * apr_status_t * rustls_result) :=
  call ((fl, rv), st1) <- filter_conn_input_handshake fuel st;
  match fl with
  | GotoCleanup => Returns (GotoCleanup, rv, RUSTLS_RESULT_OK) st1
  | Fallthrough =>
      match mode with
      | AP_MODE_INIT => Returns (GotoCleanup, rv, RUSTLS_RESULT_OK) st1
      | _ => input_fill_loop fuel fuel rv st1
      end
  end.

Definition filter_conn_input (fuel : nat) (bb : apr_bucket_brigade) (mode : ap_input_mode_t)
    (block : apr_read_type_e) (readbytes : Z) (st : ctx)
  : run (apr_status_t * apr_bucket_brigade) :=
  let st0 := set_fin_block block st in
  if c_aborted st0 then
    call (rv, st1) <- filter_abort fuel st0;
    Returns (rv, bb) st1
  else
    match cc_rustls_session st0 with
    | None =>
        let '(rv, got, st1) := next_get_brigade mode block readbytes st0 in
        Returns (rv, bb ++ got) st1
    | Some _ =>
        call ((fl, rv, rr), st1) <- filter_conn_input_refill fuel mode st0;
        call ((rv', bb'), st2) <-
          (match fl with
           | GotoCleanup => Returns (rv, bb) st1
           | Fallthrough =>
               call ((fl2, rv2, bb2), st2) <-
                 filter_conn_input_modes bb mode block readbytes st1;
               match fl2 with
               | GotoCleanup => Returns (rv2, bb2) st2
               | Fallthrough =>
                   call (_, st3) <- write_all_tls_from_rustls fuel st2;
                   Returns (rv2, bb2) st3
               end
           end);
        (* cleanup *)
        if negb (rustls_ok rr) then Returns (tls_util_rustls_error X rr, bb') st2
        else Returns (rv', bb') st2
    end.

(** [memcpy(buf + at, data, dlen)] on the memory of the buffer. *)
Definition buf_write (buf : bytes) (at_ : Z) (data : bytes) : bytes :=
  firstn (Z.to_nat at_) buf ++ data ++ skipn (Z.to_nat at_ + List.length data) buf.

(** [memmove(buf, buf + from, n)] *)
Definition buf_move (buf : bytes) (from n : Z) : bytes :=
  firstn (Z.to_nat n) (skipn (Z.to_nat from) buf) ++ skipn (Z.to_nat n) buf.

Definition fout_plain_buf_to_rustls (st : ctx) : run apr_status_t :=
  if 0 <? fout_buf_plain_len st then
    let data := firstn (Z.to_nat (fout_buf_plain_len st)) (fout_buf_plain st) in
    call ((rr, wlen), st1) <- session_write data st;
    if negb (rustls_ok rr) then Returns (tls_util_rustls_error X rr) st1
    else
      let st2 := set_fout_bytes_in_rustls (fout_bytes_in_rustls st1 + wlen) st1 in
      if wlen >=? fout_buf_plain_len st2 then
        Returns APR_SUCCESS (set_fout_buf_plain_len 0 st2)
      else if wlen =? 0 then
        Returns APR_EAGAIN st2
      else
        (* move the remaining data to the start of the buffer *)
        let len' := size_wrap (fout_buf_plain_len st2 - wlen) in
        Returns APR_SUCCESS
          (set_fout_buf_plain (buf_move (fout_buf_plain st2) wlen len')
             (set_fout_buf_plain_len len' st2))
  else Returns APR_SUCCESS st.

(** Lines 554-560 of [fout_plain_buf_append]: when no space remains the
    buffer is written to the engine first.  The result is where the control
    is, [rv] and [buf_remain]. *)
Definition fout_plain_buf_room (st : ctx) : run (flow * apr_status_t * Z) :=
  let buf_remain := size_wrap (fout_buf_plain_size st - fout_buf_plain_len st) in
  if buf_remain =? 0 then
    call (rv, st1) <- fout_plain_buf_to_rustls st;
    if negb (apr_status_eqb APR_SUCCESS rv) then Returns (GotoCleanup, rv, 0) st1
    else
      let r := size_wrap (fout_buf_plain_size st1 - fout_buf_plain_len st1) in
      if 0 <? r then Returns (Fallthrough, rv, r) st1 else Faults FaultAssert st1
  else Returns (Fallthrough, APR_SUCCESS, buf_remain) st.

(** Lines 561-631 of [fout_plain_buf_append]: the bucket [b], of length
    [dlen], is cut to the [buf_remain] bytes of space and taken in.  The
    result is the status, [*plen], and the buckets that stand where [b]
    stood in its brigade. *)
Definition fout_plain_buf_take (b : apr_bucket) (dlen buf_remain : Z) (st1 : ctx)
  : run (apr_status_t * Z * apr_bucket_brigade) :=
  (* size the bucket to the remaining space in our buffer *)
  let '(b1, behind) :=
    if dlen >? buf_remain then apr_bucket_split b buf_remain else (b, []) in
  let dlen1 := bucket_length b1 in
  match b1 with
  | BUCKET_FILE fd data =>
      if negb (dlen1 <=? buf_remain) then Faults FaultAssert st1
      else if negb (apr_status_eqb APR_SUCCESS (seek_rv fd))
      then Returns (seek_rv fd, 0, b1 :: behind) st1
      else
        (* apr_file_read(fd, fout_buf_plain + fout_buf_plain_len, &dlen) *)
        let nread := Z.max 0 (Z.min dlen1 (read_max fd)) in
        let got := firstn (Z.to_nat nread) data in
        let st2 := set_fout_buf_plain
                     (buf_write (fout_buf_plain st1) (fout_buf_plain_len st1) got) st1 in
        let rv := read_rv fd in
        if negb (apr_status_eqb APR_SUCCESS rv) && negb (APR_STATUS_IS_EOF rv)
        then Returns (rv, 0, b1 :: behind) st2
        else
          Returns (rv, nread, behind)
            (set_fout_buf_plain_len (size_wrap (fout_buf_plain_len st2 + nread)) st2)
  | _ =>
      let '(rv, data, b2, behind2) := apr_bucket_read b1 APR_BLOCK_READ in
      let st2 := log (EvBucketRead APR_BLOCK_READ) st1 in
      if negb (apr_status_eqb APR_SUCCESS rv)
      then Returns (rv, 0, b2 :: behind2 ++ behind) st2
      else
        let dlen2 := blen data in
        if (fout_buf_plain_len st2 =? 0)
           && ((dlen2 >=? fout_buf_plain_size st2) || (dlen2 >? TLS_PREF_WRITE_SIZE X))
        then
          (* write the data directly to rustls *)
          call ((rr, wlen), st3) <- session_write data st2;
          if negb (rustls_ok rr)
          then Returns (tls_util_rustls_error X rr, wlen, b2 :: behind2 ++ behind) st3
          else
            let st4 := set_fout_bytes_in_rustls (fout_bytes_in_rustls st3 + wlen) st3 in
            if wlen >=? dlen2
            then Returns (rv, wlen, behind2 ++ behind) st4
            else Returns (rv, wlen, bucket_advance b2 wlen :: behind2 ++ behind) st4
        else
          if negb (dlen2 <=? buf_remain) then Faults FaultAssert st2
          else
            Returns (rv, dlen2, behind2 ++ behind)
              (set_fout_buf_plain_len (size_wrap (fout_buf_plain_len st2 + dlen2))
                 (set_fout_buf_plain
                    (buf_write (fout_buf_plain st2) (fout_buf_plain_len st2) data) st2))
  end.

(** [fout_plain_buf_append(fctx, b, plen)] *)
Definition fout_plain_buf_append (b : apr_bucket) (st : ctx)
  : run (apr_status_t * Z * apr_bucket_brigade) :=
  let dlen := bucket_length b in
  if dlen =? SIZE_UNKNOWN then Faults FaultAssert st     (* should have been read already *)
  else
    call ((fl, rv0, buf_remain), st1) <- fout_plain_buf_room st;
    match fl with
    | GotoCleanup => Returns (rv0, 0, [b]) st1
    | Fallthrough => fout_plain_buf_take b dlen buf_remain st1
    end.

(** One turn of the loop of [filter_conn_output], lines 685-725, up to the
    two tests of the high-water marks: how it ends, [rv], the brigade of the
    caller and [passed]. *)
Definition conn_output_bucket (fuel : nat) (b : apr_bucket) (rest : apr_bucket_brigade)
    (passed : Z) (st : ctx) : run (loop_step * apr_status_t * apr_bucket_brigade * Z) :=
  if APR_BUCKET_IS_METADATA b then
    call (_, st1) <-
      (if AP_BUCKET_IS_EOC b then
         call (_, s1) <- session_send_close_notify st;
         Returns tt (set_cc_state TLS_CONN_ST_NOTIFIED s1)
       else Returns tt st);
    call (rv, st2) <- fout_plain_buf_to_rustls st1;
    if negb (apr_status_eqb APR_SUCCESS rv) then Returns (StepCleanup, rv, b :: rest, passed) st2
    else
      call (rv2, st3) <- brigade_tls_from_rustls fuel st2;
      if negb (apr_status_eqb APR_SUCCESS rv2)
      then Returns (StepCleanup, rv2, b :: rest, passed) st3
      else
        (* APR_BUCKET_REMOVE(b); APR_BRIGADE_INSERT_TAIL(fctx->fout_tls_bb, b) *)
        Returns (StepNext, rv2, rest, passed) (set_fout_tls_bb (fout_tls_bb st3 ++ [b]) st3)
  else
    (* resolve any indeterminate bucket to a real one by reading it *)
    call ((step, rv, head), st1) <-
      (if bucket_length b =? SIZE_UNKNOWN then
         let '(rv, _, b1, behind) := apr_bucket_read b APR_BLOCK_READ in
         let st1 := log (EvBucketRead APR_BLOCK_READ) st in
         if APR_STATUS_IS_EOF rv then Returns (StepContinue, rv, behind) st1
         else if negb (apr_status_eqb APR_SUCCESS rv)
         then Returns (StepCleanup, rv, b1 :: behind) st1
         else Returns (StepNext, rv, b1 :: behind) st1
       else Returns (StepNext, APR_SUCCESS, [b]) st);
    match step, head with
    | StepNext, b1 :: behind =>
        call ((rv2, wlen, repl), st2) <- fout_plain_buf_append b1 st1;
        if negb (apr_status_eqb APR_SUCCESS rv2)
        then Returns (StepCleanup, rv2, repl ++ behind ++ rest, passed) st2
        else Returns (StepNext, rv2, repl ++ behind ++ rest, passed + wlen) st2
    | _, _ => Returns (step, rv, head ++ rest, passed) st1
    end.

(** The loop of [filter_conn_output], lines 684-740. *)
Fixpoint conn_output_loop (fuel loops : nat) (rv : apr_status_t) (bb : apr_bucket_brigade)
    (passed : Z) (st : ctx) : run (flow * apr_status_t * apr_bucket_brigade * Z) :=
  match loops with
  | O => Spins st
  | Datatypes.S loops' =>
      match bb with
      | [] => Returns (Fallthrough, rv, [], passed) st
      | b :: rest =>
          call ((step, rv1, bb1, passed1), st1) <- conn_output_bucket fuel b rest passed st;
          match step with
          | StepCleanup => Returns (GotoCleanup, rv1, bb1, passed1) st1
          | StepContinue => conn_output_loop fuel loops' rv1 bb1 passed1 st1
          | _ =>
              (* did we supply enough plain bytes to rustls? *)
              call (rv2, st2) <-
                (if fout_bytes_in_rustls st1 >=? fout_max_in_rustls st1
                 then brigade_tls_from_rustls fuel st1 else Returns rv1 st1);
              if negb (apr_status_eqb APR_SUCCESS rv2)
              then Returns (GotoCleanup, rv2, bb1, passed1) st2
              else
                call (rv3, st3) <-
                  (if fout_bytes_in_tls_bb st2 >=? fout_max_in_rustls st2
                   then write_all_tls_from_rustls fuel st2 else Returns rv2 st2);
                if negb (apr_status_eqb APR_SUCCESS rv3)
                then Returns (GotoCleanup, rv3, bb1, passed1) st3
                else conn_output_loop fuel loops' rv3 bb1 passed1 st3
          end
      end
  end.

Definition filter_conn_output (fuel : nat) (bb : apr_bucket_brigade) (st : ctx)
  : run (apr_status_t * apr_bucket_brigade) :=
  if c_aborted st then
    (* apr_brigade_cleanup(bb) *)
    Returns (APR_ECONNABORTED, []) st
  else if match cc_rustls_session st with None => true | Some _ => false end
          || tls_conn_state_eqb (cc_state st) TLS_CONN_ST_DONE then
    (* have done everything, just pass through *)
    let '(rv, remains, st1) := next_pass_brigade bb st in
    Returns (rv, remains) st1
  else
    call ((fl, rv, bb1, _), st1) <- conn_output_loop fuel fuel APR_SUCCESS bb 0 st;
    match fl with
    | GotoCleanup => Returns (rv, bb1) st1
    | Fallthrough =>
        (* write everything still in rustls outgoing buffers to the network *)
        call (rv2, st2) <- write_all_tls_from_rustls fuel st1;
        Returns (rv2, bb1) st2
    end.

(** [tls_filter_conn_init]: the context of a fresh connection.  The two
    assertions of the function are in the types: there is a connection
    context and it has a session. *)
Definition tls_filter_conn_init (aborted : bool) (state : tls_conn_state_t)
    (session : E) (below : N) : ctx :=
  {| c_aborted := aborted;
     cc_state := state;
     cc_rustls_session := Some session;
     fin_tls_bb := [];
     fin_tls_buffer_bb := None;
     fin_plain_bb := [];
     fin_bytes_in_rustls := 0;
     fin_max_in_rustls := 2 * TLS_PREF_TLS_WRITE_SIZE X;
     fin_block := APR_BLOCK_READ;
     fout_tls_bb := [];
     fout_buf_plain := repeat "000"%byte (Z.to_nat (2 * TLS_PREF_WRITE_SIZE X));
     fout_buf_plain_size := 2 * TLS_PREF_WRITE_SIZE X;
     fout_buf_plain_len := 0;
     fout_bytes_in_rustls := 0;
     fout_bytes_in_tls_bb := 0;
     fout_max_in_rustls := 2 * 2 * TLS_PREF_WRITE_SIZE X;
     next := below;
     trace := [] |}.

(** [tls_filter_input_pending(c)].  [cc] is what [tls_conf_conn_get(c)]
    finds: NULL, or a context with its phase and its [filter_ctx], which is
    NULL until [tls_filter_conn_init] has run. *)
Definition tls_filter_input_pending (aborted : bool)
    (cc : option (tls_conn_state_t * option ctx)) : hook_status :=
  match cc with
  | None => DECLINED
  | Some (state, filter_ctx) =>
      if aborted || tls_conn_state_eqb TLS_CONN_ST_IGNORED state then DECLINED
      else
        match filter_ctx with
        | Some fctx => match fin_plain_bb fctx with [] => DECLINED | _ :: _ => OK end
        | None => DECLINED
        end
  end.

End Filters.

(** ** A small engine and a scripted network, to run the filters on *)

(** The engine keeps the TLS bytes it was fed, sees the opening message of
    the client once [hello_len] bytes of it were processed, never has
    plaintext to hand out, accepts at most [accept_max] bytes of plaintext
    in one write and gives them back unchanged as its TLS output. *)
Record toy_session : Type := {
  tls_in : bytes;
  tls_seen : bytes;
  hello_len : nat;
  accept_max : Z;
  plain_pending : bytes;
  closed : bool
}.

Definition toy_new (hello : nat) (accept : Z) : toy_session :=
  {| tls_in := []; tls_seen := []; hello_len := hello; accept_max := accept;
     plain_pending := []; closed := false |}.

(** The filters below: what the successive calls of [ap_get_brigade] give. *)
Definition toy_next := list (apr_status_t * apr_bucket_brigade).

Definition toy_transfer (bb src : apr_bucket_brigade) (n : Z)
  : apr_status_t * apr_bucket_brigade * apr_bucket_brigade * Z :=
  (APR_SUCCESS, bb ++ src, [], blen (brigade_bytes src)).

Definition toy (pref_write_size : Z) : externals toy_session toy_next :=
  {| rustls_server_session_is_handshaking := fun s => true;
     rustls_server_session_wants_read := fun s => true;
     rustls_server_session_wants_write :=
       fun s => match plain_pending s with [] => false | _ :: _ => true end;
     rustls_server_session_read_tls :=
       fun s data =>
         (RUSTLS_RESULT_OK, blen data,
          {| tls_in := tls_in s ++ data; tls_seen := tls_seen s; hello_len := hello_len s;
             accept_max := accept_max s; plain_pending := plain_pending s;
             closed := closed s |});
     rustls_server_session_process_new_packets :=
       fun s =>
         (RUSTLS_RESULT_OK,
          {| tls_in := []; tls_seen := tls_seen s ++ tls_in s; hello_len := hello_len s;
             accept_max := accept_max s; plain_pending := plain_pending s;
             closed := closed s |});
     rustls_server_session_read := fun s n => (RUSTLS_RESULT_OK, [], s);
     rustls_server_session_write :=
       fun s data =>
         let k := Z.min (blen data) (accept_max s) in
         (RUSTLS_RESULT_OK, k,
          {| tls_in := tls_in s; tls_seen := tls_seen s; hello_len := hello_len s;
             accept_max := accept_max s;
             plain_pending := plain_pending s ++ firstn (Z.to_nat k) data;
             closed := closed s |});
     rustls_server_session_write_tls :=
       fun s n =>
         (RUSTLS_RESULT_OK, firstn (Z.to_nat n) (plain_pending s),
          {| tls_in := tls_in s; tls_seen := tls_seen s; hello_len := hello_len s;
             accept_max := accept_max s;
             plain_pending := skipn (Z.to_nat n) (plain_pending s);
             closed := closed s |});
     rustls_server_session_send_close_notify :=
       fun s =>
         {| tls_in := tls_in s; tls_seen := tls_seen s; hello_len := hello_len s;
            accept_max := accept_max s; plain_pending := plain_pending s;
            closed := true |};
     client_hello_seen := fun s => (hello_len s <=? List.length (tls_seen s))%nat;
     ap_get_brigade :=
       fun n mode block len =>
         match n with
         | [] => (APR_EAGAIN, [], [])
         | (rv, got) :: n' => (rv, got, n')
         end;
     ap_pass_brigade := fun n bb => (APR_SUCCESS, false, [], n);
     tls_core_conn_init_server :=
       fun s => (APR_SUCCESS, toy_new (hello_len s) (accept_max s));
     tls_core_conn_post_handshake := fun s => (APR_SUCCESS, s);
     tls_util_rustls_error := fun rr => APR_ECONNRESET;
     tls_util_brigade_split_line := fun bb src block n => toy_transfer bb src n;
     tls_util_brigade_transfer := toy_transfer;
     tls_util_brigade_copy := fun bb src n => (APR_SUCCESS, bb ++ src, src, blen (brigade_bytes src));
     TLS_PREF_WRITE_SIZE := pref_write_size;
     TLS_PREF_TLS_WRITE_SIZE := pref_write_size + 2;
     TLS_REC_EXTRA := 2;
     TLS_MAX_BUCKET_SIZE := 4 * pref_write_size;
     APR_BUCKET_BUFF_SIZE := 8000;
     HUGE_STRING_LEN := 8192 |}.

(** The context of a fresh connection on the toy engine, in a given phase. *)
Definition toy_conn (pref_write_size : Z) (hello : nat) (accept : Z)
    (state : tls_conn_state_t) (below : toy_next) : tls_filter_ctx_t toy_session toy_next :=
  tls_filter_conn_init (toy pref_write_size) false state (toy_new hello accept) below.

(** ** Reading a trace, and the claims of the specification in its words *)

(** The events a run added to the trace [t0]. *)
Definition events_since (t0 t : list event) : list event := skipn (List.length t0) t.

(** The TLS bytes the engine took in at one event. *)
Definition tls_fed (e : event) : bytes :=
  match e with
  | EvReadTls data RUSTLS_RESULT_OK rlen => firstn (Z.to_nat rlen) data
  | _ => []
  end.

(** The TLS bytes fed to the provisional engine: those before the session
    of the selected server is put in place. *)
Fixpoint fed_to_provisional (t : list event) : bytes :=
  match t with
  | [] => []
  | EvInitServer :: _ => []
  | e :: t' => tls_fed e ++ fed_to_provisional t'
  end.

(** The TLS bytes fed to the final engine: those after that moment. *)
Fixpoint fed_to_final (t : list event) : bytes :=
  match t with
  | [] => []
  | EvInitServer :: t' => flat_map tls_fed t'
  | _ :: t' => fed_to_final t'
  end.

(** The blocking mode of a pull of encrypted bytes from the network. *)
Definition pull_mode (e : event) : option apr_read_type_e :=
  match e with
  | EvGetBrigade _ block _ => Some block
  | EvBucketRead block => Some block
  | _ => None
  end.

Fixpoint pull_modes (t : list event) : list apr_read_type_e :=
  match t with
  | [] => []
  | e :: t' => match pull_mode e with
               | Some m => m :: pull_modes t'
               | None => pull_modes t'
               end
  end.

(** In the words of the specification: the first pull of an invocation has
    the blocking preference of the caller, every later one is non-blocking. *)
Definition spec_pulls (caller : apr_read_type_e) (t : list event) : bool :=
  match pull_modes t with
  | [] => true
  | m :: later =>
      apr_read_type_eqb m caller
      && forallb (fun m' => apr_read_type_eqb m' APR_NONBLOCK_READ) later
  end.

(** What one call of [read_tls_to_rustls] keeps to: its pulls have the mode
    [cur], which is non-blocking from the first data handed to the engine
    on. *)
Fixpoint pulls_follow (cur : apr_read_type_e) (t : list event) : bool :=
  match t with
  | [] => true
  | EvGetBrigade _ m _ :: t' => apr_read_type_eqb m cur && pulls_follow cur t'
  | EvBucketRead m :: t' => apr_read_type_eqb m cur && pulls_follow cur t'
  | EvReadTls _ _ _ :: t' => pulls_follow APR_NONBLOCK_READ t'
  | _ :: t' => pulls_follow cur t'
  end.

Definition is_close_notify (e : event) : bool :=
  match e with EvSendCloseNotify => true | _ => false end.

(** The close-notify alerts of a trace. *)
Definition close_notifies (t : list event) : list event := filter is_close_notify t.

(** In the words of the specification: a data segment goes to the engine
    without a copy exactly when the buffer is empty and the segment is at
    least as large as the capacity of the buffer. *)
Definition spec_zero_copy {E N : Type} (st : tls_filter_ctx_t E N) (b : apr_bucket) : bool :=
  (fout_buf_plain_len st =? 0) && (bucket_length b >=? fout_buf_plain_size st).

(** The test of the code, lines 606-607, on the data [data] of the bucket
    after it was cut to the space that remains. *)
Definition code_zero_copy {E N : Type} (X : externals E N) (st : tls_filter_ctx_t E N)
    (data : bytes) : bool :=
  (fout_buf_plain_len st =? 0)
  && ((blen data >=? fout_buf_plain_size st) || (blen data >? TLS_PREF_WRITE_SIZE X)).

(** The bound on the plaintext buffer. *)
Definition buf_ok {E N : Type} (st : tls_filter_ctx_t E N) : Prop :=
  0 <= fout_buf_plain_len st <= fout_buf_plain_size st /\ fout_buf_plain_size st < 2 ^ 64.


(** Ends of runs, to state what was computed there. *)
Definition returned {E N A : Type} (o : outcome E N A) : option A :=
  match o with Returns a _ => Some a | _ => None end.

Definition bs : string -> bytes := list_byte_of_string.

(** ** Relations between the context a run starts in and the one it ends in *)

Section Relations.
Context {E N : Type} (X : externals E N).
Local Abbreviation ctx := (tls_filter_ctx_t E N).

(** The bound on the plaintext buffer is kept, with the capacity. *)
Definition keeps_buf (st st' : ctx) : Prop :=
  buf_ok st -> fout_buf_plain_size st' = fout_buf_plain_size st /\ buf_ok st'.

(** The three fields of the plaintext buffer stay as they are. *)
Definition same_buf (st st' : ctx) : Prop :=
  fout_buf_plain_size st' = fout_buf_plain_size st
  /\ fout_buf_plain_len st' = fout_buf_plain_len st
  /\ fout_buf_plain st' = fout_buf_plain st.

(** The trace only grows. *)
Definition extends (st st' : ctx) : Prop := exists ev, trace st' = trace st ++ ev.

(** A step that leaves alone the plaintext buffer, the blocking preference
    of the caller and the phase of the connection, and sends no
    close-notify. *)
Definition calm (st st' : ctx) : Prop :=
  same_buf st st'
  /\ fin_block st' = fin_block st
  /\ cc_state st' = cc_state st
  /\ exists ev, trace st' = trace st ++ ev /\ close_notifies ev = [].


(** An engine that takes every byte of plaintext it is offered. *)
Definition engine_accepts_all : Prop :=
  forall s data,
    exists n s',
      rustls_server_session_write X s data = (RUSTLS_RESULT_OK, n, s')
      /\ blen data <= size_wrap n.

(** A trace in which no end-of-stream bucket was met. *)
Definition no_eos (ev : list event) : bool :=
  forallb (fun e => match e with EvEndOfStream => false | _ => true end) ev.

(** The replay buffer holds what it held before, [bytes0], and behind it
    the bytes the engine took in during the events [ev], unless an
    end-of-stream bucket emptied it. *)
Definition records_fed (bytes0 : bytes) (st' : ctx) (ev : list event) : Prop :=
  no_eos ev = true ->
  exists buf', fin_tls_buffer_bb st' = Some buf'
               /\ brigade_bytes buf' = bytes0 ++ flat_map tls_fed ev.

End Relations.

(** ** What a run did, read off its trace and its two ends *)

(** The order of the phases in the life of a connection. *)
Definition phase_rank (s : tls_conn_state_t) : nat :=
  match s with
  | TLS_CONN_ST_IGNORED => 0
  | TLS_CONN_ST_PRE_HANDSHAKE => 1
  | TLS_CONN_ST_HANDSHAKE => 2
  | TLS_CONN_ST_TRAFFIC => 3
  | TLS_CONN_ST_NOTIFIED => 4
  | TLS_CONN_ST_DONE => 5
  end.

(** The events by which TLS bytes leave the engine for the network, and the
    close-notify that asks for them. *)
Definition is_drain_event (e : event) : bool :=
  match e with
  | EvWriteTls _ | EvPassBrigade _ | EvSendCloseNotify => true
  | _ => false
  end.

(** The events of the output side: the buckets of the caller are read, in
    blocking mode, plaintext is written to the engine, and TLS bytes leave
    it. *)
Definition is_output_event (e : event) : bool :=
  match e with
  | EvBucketRead APR_BLOCK_READ | EvSessionWrite _ _ _ => true
  | _ => is_drain_event e
  end.

(** The events of the input side: all but a write of plaintext to the
    engine. *)
Definition is_input_event (e : event) : bool :=
  match e with
  | EvSessionWrite _ _ _ => false
  | _ => true
  end.

(** The plaintext the engine took in at one event. *)
Definition plain_accepted (e : event) : bytes :=
  match e with
  | EvSessionWrite data RUSTLS_RESULT_OK wlen => firstn (Z.to_nat wlen) data
  | _ => []
  end.

(** Buckets whose bytes are in memory, and the markers. *)
Definition in_memory (b : apr_bucket) : bool :=
  match b with
  | BUCKET_FILE _ _ | BUCKET_PIPE _ => false
  | _ => true
  end.

Section Ends.
Context {E N : Type}.
Local Abbreviation ctx := (tls_filter_ctx_t E N).

(** The run added events to the trace, all of them of the kind [P]. *)
Definition adds (P : event -> bool) (st st' : ctx) : Prop :=
  exists ev, trace st' = trace st ++ ev /\ forallb P ev = true.

(** The phase of the connection did not go back. *)
Definition advances (st st' : ctx) : Prop :=
  (phase_rank (cc_state st) <= phase_rank (cc_state st'))%nat.

(** The phase is the one the run started in, or one of [phases]. *)
Definition moves_to (phases : list tls_conn_state_t) (st st' : ctx) : Prop :=
  cc_state st' = cc_state st \/ In (cc_state st') phases.

(** The two handshake phases are over. *)
Definition past_handshake (st : ctx) : Prop :=
  cc_state st <> TLS_CONN_ST_PRE_HANDSHAKE /\ cc_state st <> TLS_CONN_ST_HANDSHAKE.

(** The plaintext that waits in the buffer. *)
Definition buf_content (st : ctx) : bytes :=
  firstn (Z.to_nat (fout_buf_plain_len st)) (fout_buf_plain st).

(** The buffer is within its bound and its memory has the size of its
    capacity, as [tls_filter_conn_init] allocates it. *)
Definition buf_mem_ok (st : ctx) : Prop :=
  buf_ok st /\ blen (fout_buf_plain st) = fout_buf_plain_size st.

(** Plaintext is neither lost nor put out of order between two ends of a
    run: what waited in the buffer and in the brigade [bb] of the caller
    at the start is what the engine took in during the run, followed by
    what waits in the buffer and in the brigade [bb'] at the end. *)
Definition conserves (st : ctx) (bb : apr_bucket_brigade)
    (st' : ctx) (bb' : apr_bucket_brigade) : Prop :=
  exists ev,
    trace st' = trace st ++ ev
    /\ buf_content st ++ brigade_bytes bb
       = flat_map plain_accepted ev ++ buf_content st' ++ brigade_bytes bb'.

(** TLS bytes are neither lost nor put out of order on their way into the
    engine: what waited in [fin_tls_bb] at the start is what the engine
    took in during the run, followed by what waits there at the end. *)
Definition feeds (st st' : ctx) : Prop :=
  exists ev,
    trace st' = trace st ++ ev
    /\ brigade_bytes (fin_tls_bb st)
       = flat_map tls_fed ev ++ brigade_bytes (fin_tls_bb st').

End Ends.

(** The engine has no TLS bytes left to hand out. *)
Definition engine_drained {E N : Type} (X : externals E N) (st : tls_filter_ctx_t E N)
  : Prop :=
  exists s, cc_rustls_session st = Some s /\ rustls_server_session_wants_write X s = false.

(** ** Runs of the filters on the small engine *)

(** A connection in the traffic phase, as [tls_filter_conn_init] sets it
    up: the plaintext buffer has 8 bytes, [TLS_PREF_WRITE_SIZE] is 4. *)
Definition traffic_conn : tls_filter_ctx_t toy_session toy_next :=
  toy_conn 4 4 100 TLS_CONN_ST_TRAFFIC [].

(** Sniffing with non-blocking reads: the first byte of the opening message
    arrives, then nothing, then the other three bytes. *)
Definition sniff_conn : tls_filter_ctx_t toy_session toy_next :=
  toy_conn 4 4 100 TLS_CONN_ST_PRE_HANDSHAKE
    [ (APR_SUCCESS, [BUCKET_HEAP (bs "a")]);
      (APR_EAGAIN, []);
      (APR_SUCCESS, [BUCKET_HEAP (bs "bcd")]) ].

Definition sniff_first_call :=
  filter_conn_input (toy 4) 10 [] AP_MODE_INIT APR_NONBLOCK_READ 0 sniff_conn.

Definition sniff_second_call :=
  filter_conn_input (toy 4) 10 [] AP_MODE_INIT APR_NONBLOCK_READ 0
    (final_ctx sniff_first_call).

(** The sniffing step of the second call alone. *)
Definition sniff_second_pre_handshake :=
  filter_do_pre_handshake (toy 4) 10
    (set_fin_block APR_NONBLOCK_READ (final_ctx sniff_first_call)).

(** A blocking read in the traffic phase: the network delivers one byte
    per pull, the engine has no plaintext yet. *)
Definition blocking_read_call :=
  filter_conn_input (toy 4) 10 [] AP_MODE_EXHAUSTIVE APR_BLOCK_READ 0
    (toy_conn 4 4 100 TLS_CONN_ST_TRAFFIC
       [ (APR_SUCCESS, [BUCKET_HEAP (bs "a")]);
         (APR_SUCCESS, [BUCKET_HEAP (bs "b")]);
         (APR_EOF, []) ]).

(** The filters below deliver an end-of-stream bucket in the traffic
    phase, alone and behind a byte of data. *)
Definition eos_alone_call :=
  read_tls_to_rustls (toy 4) 10 100
    (toy_conn 4 4 100 TLS_CONN_ST_TRAFFIC [ (APR_SUCCESS, [BUCKET_EOS]) ]).

Definition eos_after_data_call :=
  read_tls_to_rustls (toy 4) 10 100
    (toy_conn 4 4 100 TLS_CONN_ST_TRAFFIC
       [ (APR_SUCCESS, [BUCKET_HEAP (bs "a"); BUCKET_EOS]) ]).

(** A connection that [filter_abort] has brought to the phase [DONE]. *)
Definition aborted_conn : tls_filter_ctx_t toy_session toy_next :=
  final_ctx (filter_abort (toy 4) 10 traffic_conn).

Definition write_after_abort_call :=
  filter_conn_output (toy 4) 10 [BUCKET_HEAP (bs "hi")] aborted_conn.

(** Two bytes of data and a flush marker are written; the engine takes one
    byte per write. *)
Definition data_then_flush_call :=
  filter_conn_output (toy 4) 10 [BUCKET_HEAP (bs "ab"); BUCKET_FLUSH]
    (toy_conn 4 4 1 TLS_CONN_ST_TRAFFIC []).




(** A connection in the traffic phase with plaintext waiting in the queue
    of the input filter. *)
Definition plain_waiting_conn : tls_filter_ctx_t toy_session toy_next :=
  set_fin_plain_bb [BUCKET_HEAP (bs "x")] traffic_conn.

(** A read in the mode [AP_MODE_EXHAUSTIVE] that finds plaintext waiting. *)
Definition exhaustive_read_call :=
  filter_conn_input (toy 4) 10 [] AP_MODE_EXHAUSTIVE APR_NONBLOCK_READ 0 plain_waiting_conn.

(** The sniffing step of the first call of the sniffing in two calls. *)
Definition sniff_first_pre_handshake :=
  filter_do_pre_handshake (toy 4) 10 (set_fin_block APR_NONBLOCK_READ sniff_conn).

(** Three bytes arrive from the network in the traffic phase. *)
Definition three_bytes_conn : tls_filter_ctx_t toy_session toy_next :=
  toy_conn 4 4 100 TLS_CONN_ST_TRAFFIC [ (APR_SUCCESS, [BUCKET_HEAP (bs "abc")]) ].

Definition three_bytes_call := read_tls_to_rustls (toy 4) 10 100 three_bytes_conn.

(** The connection on which [data_then_flush_call] writes: the engine
    takes one byte per write. *)
Definition slow_engine_conn : tls_filter_ctx_t toy_session toy_next :=
  toy_conn 4 4 1 TLS_CONN_ST_TRAFFIC [].

(** A connection in the traffic phase whose plaintext buffer is full: its
    8 bytes hold abcdefgh. *)
Definition full_buf_conn : tls_filter_ctx_t toy_session toy_next :=
  set_fout_buf_plain_len 8 (set_fout_buf_plain (bs "abcdefgh") traffic_conn).

End TlsFilter.

(* ===================================================================== *)
(** * tls_core.c: the configurations of the enabled servers *)
(* ===================================================================== *)

Module TlsCoreConfig.
Import TlsCore.

(** [tls_conf_global_t]: its address, which the assertion of
    [tls_core_init] compares, and the TLS listen addresses. *)
Record tls_conf_global_t : Type := {
  gc_addr : Z;
  tls_addresses : list server_addr_rec
}.

(** How a run of a function of this part ends. *)
Inductive outcome (A : Type) : Type :=
| Returns (a : A)
| Faults (f : TlsFilter.fault).
Arguments Returns {A} a.
Arguments Faults {A} f.

(** [tls_core_conn_init(c)].  [base_conf] is what
    [tls_conf_server_get(c->base_server)] finds.  The context that the
    function allocates stays in its local variable [cc]: the connection is
    as it was. *)
Definition tls_core_conn_init (base_conf : option tls_conf_server_t) : outcome hook_status :=
  match base_conf with
  | None => Faults TlsFilter.FaultNull
  | Some sc =>
      (* Are we configured to work on this address/port? *)
      if negb (tls_flag_eqb (enabled sc) TLS_FLAG_TRUE) then Returns DECLINED
      else Returns OK
  end.

Section Config.
(** [K] are the specifications of certificates ([tls_certificate_t]), [P]
    the PEM data loaded for one, [B] the builders and [C] the
    configurations of crustls; [W] is what allocation and the files
    depend on. *)
Context {K P B C W : Type}.

(** What the second pass of [tls_core_init] calls: crustls and
    tls_util.c. *)
Record externals : Type := {
  rustls_server_config_builder_new : W -> option B * W;
  tls_util_load_pem : W -> K -> apr_status_t * P * W;
  rustls_server_config_builder_set_single_cert_pem : B -> P -> TlsFilter.rustls_result * B;
  rustls_server_config_builder_build : B -> W -> option C * W;
  tls_util_rustls_error : TlsFilter.rustls_result -> apr_status_t
}.

(** A server with the other fields of the configuration that
    [tls_conf_server_get] finds for it: [srv] has the addresses, the
    protocol and, in its configuration, the flag; [global],
    [certificates] and [rustls_config] are read only when there is a
    configuration. *)
Record server : Type := {
  srv : server_rec;
  global : tls_conf_global_t;
  certificates : list K;
  rustls_config : option C
}.

Definition set_srv (v : server_rec) (s : server) : server :=
  {| srv := v; global := global s; certificates := certificates s;
     rustls_config := rustls_config s |}.

Definition set_rustls_config (v : option C) (s : server) : server :=
  {| srv := srv s; global := global s; certificates := certificates s;
     rustls_config := v |}.

(** [tls_core_free]: the configurations handed to
    [rustls_server_config_free], in the order of the calls, and the
    servers as they are left. *)
Fixpoint tls_core_free_loop (servers : list server) : list C * list server :=
  match servers with
  | [] => ([], [])
  | s :: rest =>
      let '(freed, rest') := tls_core_free_loop rest in
      match tls_conf_server_get (srv s), rustls_config s with
      | Some _, Some cfg => (cfg :: freed, set_rustls_config None s :: rest')
      | _, _ => (freed, s :: rest')
      end
  end.

Definition tls_core_free (servers : list server) : apr_status_t * list C * list server :=
  let '(freed, servers') := tls_core_free_loop servers in
  (APR_SUCCESS, freed, servers').

(** The first loop of [tls_core_init], lines 74-95, with its assertion. *)
Fixpoint tls_core_init_enable (gc : tls_conf_global_t) (servers : list server)
  : outcome (list server) :=
  match servers with
  | [] => Returns []
  | s :: rest =>
      let next (s' : server) :=
        match tls_core_init_enable gc rest with
        | Returns rest' => Returns (s' :: rest')
        | Faults f => Faults f
        end in
      match tls_conf_server_get (srv s) with
      | None => next s                                    (* if (!sc) continue; *)
      | Some _ =>
          (* ap_assert(sc->global == gc) *)
          if negb (gc_addr (global s) =? gc_addr gc) then Faults TlsFilter.FaultAssert
          else next (set_srv (tls_core_init_server (tls_addresses gc) (srv s)) s)
      end
  end.

Variable X : externals.

(** The second loop of [tls_core_init], lines 100-144: whether it ran to
    its end or left by [goto cleanup], the value of [rv] there, the servers
    and the world.  [rv] is the local of the function, which the loop
    goes through with the value it has. *)
Fixpoint tls_core_init_configs (rv : apr_status_t) (w : W) (servers : list server)
  : TlsFilter.flow * apr_status_t * list server * W :=
  match servers with
  | [] => (TlsFilter.Fallthrough, rv, [], w)
  | s :: rest =>
      let skip :=
        match tls_conf_server_get (srv s) with
        | None => true
        | Some sc => negb (tls_flag_eqb (enabled sc) TLS_FLAG_TRUE)
        end in
      if skip then
        let '(fl, rv', rest', w') := tls_core_init_configs rv w rest in
        (fl, rv', s :: rest', w')
      else
        let '(builder, w1) := rustls_server_config_builder_new X w in
        match builder with
        | None => (TlsFilter.GotoCleanup, rv, s :: rest, w1)
        | Some b0 =>
            let '(fl1, rv1, b1, w2) :=
              match certificates s with
              | spec :: _ =>
                  let '(rv1, pems, w2) := tls_util_load_pem X w1 spec in
                  if negb (apr_status_eqb APR_SUCCESS rv1)
                  then (TlsFilter.GotoCleanup, rv1, b0, w2)
                  else
                    let '(rr, b1) :=
                      rustls_server_config_builder_set_single_cert_pem X b0 pems in
                    if negb (TlsFilter.rustls_ok rr)
                    then (TlsFilter.GotoCleanup, tls_util_rustls_error X rr, b1, w2)
                    else (TlsFilter.Fallthrough, rv1, b1, w2)
              | [] => (TlsFilter.Fallthrough, rv, b0, w1)
              end in
            match fl1 with
            | TlsFilter.GotoCleanup => (TlsFilter.GotoCleanup, rv1, s :: rest, w2)
            | TlsFilter.Fallthrough =>
                (* sc->rustls_config = rustls_server_config_builder_build(rustls_builder) *)
                let '(cfg, w3) := rustls_server_config_builder_build X b1 w2 in
                let s' := set_rustls_config cfg s in
                match cfg with
                | None => (TlsFilter.GotoCleanup, rv1, s' :: rest, w3)
                | Some _ =>
                    let '(fl, rv', rest', w') := tls_core_init_configs rv1 w3 rest in
                    (fl, rv', s' :: rest', w')
                end
            end
        end
  end.

(** [tls_core_init(p, ptemp, base_server)]: [base_server] and the servers
    behind it in the list of httpd. *)
Definition tls_core_init (w : W) (base_server : server) (others : list server)
  : outcome (apr_status_t * list server * W) :=
  match tls_conf_server_get (srv base_server) with
  | None => Faults TlsFilter.FaultNull                   (* gc = sc->global *)
  | Some _ =>
      let gc := global base_server in
      match tls_core_init_enable gc (base_server :: others) with
      | Faults f => Faults f
      | Returns servers1 =>
          let '(fl, rv, servers2, w') := tls_core_init_configs APR_ENOMEM w servers1 in
          match fl with
          | TlsFilter.Fallthrough => Returns (APR_SUCCESS, servers2, w')
          | TlsFilter.GotoCleanup => Returns (rv, servers2, w')
          end
      end
  end.

End Config.

Arguments externals : clear implicits.
Arguments server : clear implicits.

(** The servers that are enabled and have a configuration of crustls. *)
Definition is_enabled {K C : Type} (s : server K C) : bool :=
  match tls_conf_server_get (srv s) with
  | Some sc => tls_flag_eqb (enabled sc) TLS_FLAG_TRUE
  | None => false
  end.

(** A server has a module configuration. *)
Definition has_conf {K C : Type} (s : server K C) : Prop := tls_conf_server_get (srv s) <> None.

(** A server has a module configuration with another global part than
    [gc]. *)
Definition foreign {K C : Type} (gc : tls_conf_global_t) (s : server K C) : Prop :=
  has_conf s /\ gc_addr (global s) <> gc_addr gc.

(** What the second loop keeps of a server, and of which servers it keeps
    all. *)
Definition kept {K C : Type} (s s' : server K C) : Prop :=
  srv s' = srv s /\ global s' = global s /\ certificates s' = certificates s
  /\ (is_enabled s = false -> rustls_config s' = rustls_config s).

(** A server is served: it is not enabled, or it has a configuration of
    crustls. *)
Definition served {K C : Type} (s : server K C) : Prop :=
  is_enabled s = true -> rustls_config s <> None.

(** Externals for a run: a certificate loads when its number is not
    negative, every builder takes its certificate, and the build fails from
    the world [fail_from] on, when there is one; each build moves the world
    on by one. *)
Definition small (fail_from : option Z) : externals Z Z (list Z) Z Z :=
  {| rustls_server_config_builder_new := fun w => (Some [], w);
     tls_util_load_pem :=
       fun w k => (if k <? 0 then APR_OTHER 2 else APR_SUCCESS, k, w);
     rustls_server_config_builder_set_single_cert_pem :=
       fun b p => (TlsFilter.RUSTLS_RESULT_OK, p :: b);
     rustls_server_config_builder_build :=
       fun b w =>
         (match fail_from with
          | Some n => if n <=? w then None else Some w
          | None => Some w
          end, w + 1);
     tls_util_rustls_error := fun rr => APR_OTHER 1 |}.

(** An enabled server with one certificate. *)
Definition https_server : server Z Z :=
  {| srv := {| addrs := []; server_protocol := Some "https"%string;
               tls_conf_server_get := Some {| enabled := TLS_FLAG_UNSET |} |};
     global := {| gc_addr := 1; tls_addresses := [] |};
     certificates := [7];
     rustls_config := None |}.

(** The same server after the first loop of [tls_core_init]. *)
Definition https_server_enabled : server Z Z :=
  {| srv := {| addrs := []; server_protocol := Some "https"%string;
               tls_conf_server_get := Some {| enabled := TLS_FLAG_TRUE |} |};
     global := {| gc_addr := 1; tls_addresses := [] |};
     certificates := [7];
     rustls_config := None |}.

(** A server of the same global part that speaks http, with a configuration
    of crustls from before, and the same server after the first loop. *)
Definition http_server : server Z Z :=
  {| srv := {| addrs := []; server_protocol := Some "http"%string;
               tls_conf_server_get := Some {| enabled := TLS_FLAG_UNSET |} |};
     global := {| gc_addr := 1; tls_addresses := [] |};
     certificates := [];
     rustls_config := Some 99 |}.

Definition http_server_disabled : server Z Z :=
  {| srv := {| addrs := []; server_protocol := Some "http"%string;
               tls_conf_server_get := Some {| enabled := TLS_FLAG_FALSE |} |};
     global := {| gc_addr := 1; tls_addresses := [] |};
     certificates := [];
     rustls_config := Some 99 |}.

End TlsCoreConfig.

(* ===================================================================== *)
(** * mod_tls.c: the hook that installs the filters *)
(* ===================================================================== *)

Module ModTls.
Import TlsCoreConfig.

Section Hooks.
Context {E N : Type} (X : TlsFilter.externals E N).

(** [tls_conf_conn_t], the fields the hook and [tls_filter_conn_init]
    read and write. *)
Record tls_conf_conn_t : Type := {
  flag_disabled : tls_flag;
  state : tls_conn_state_t;
  rustls_session : option E;
  filter_ctx : option (TlsFilter.tls_filter_ctx_t E N)
}.

(** [conn_rec]: whether [c->master] is set, [c->aborted], the connection
    context that [tls_conf_conn_get(c)] finds, the module configuration of
    [c->base_server], and the filter below the place where the filters of
    the module are added. *)
Record conn_rec : Type := {
  master : bool;
  aborted : bool;
  tls_conf_conn_get : option tls_conf_conn_t;
  base_server_conf : option TlsCore.tls_conf_server_t;
  below : N
}.

Definition set_filter_ctx (fctx : TlsFilter.tls_filter_ctx_t E N) (cc : tls_conf_conn_t)
  : tls_conf_conn_t :=
  {| flag_disabled := flag_disabled cc; state := state cc;
     rustls_session := rustls_session cc; filter_ctx := Some fctx |}.

Definition set_conn (cc : tls_conf_conn_t) (c : conn_rec) : conn_rec :=
  {| master := master c; aborted := aborted c; tls_conf_conn_get := Some cc;
     base_server_conf := base_server_conf c; below := below c |}.

(** [tls_filter_conn_init(c)] of tls_filter.c on a connection, with its two
    assertions. *)
Definition tls_filter_conn_init (c : conn_rec) : outcome (hook_status * conn_rec) :=
  match tls_conf_conn_get c with
  | None => Faults TlsFilter.FaultAssert                     (* ap_assert(cc) *)
  | Some cc =>
      match rustls_session cc with
      | None => Faults TlsFilter.FaultAssert                 (* ap_assert(cc->rustls_session) *)
      | Some session =>
          let fctx :=
            TlsFilter.tls_filter_conn_init X (aborted c) (state cc) session (below c) in
          Returns (OK, set_conn (set_filter_ctx fctx cc) c)
      end
  end.

(** [hook_pre_connection(c, csd)]. *)
Definition hook_pre_connection (c : conn_rec) : outcome (hook_status * conn_rec) :=
  if master c then Returns (DECLINED, c)
  else if match tls_conf_conn_get c with
          | Some cc => tls_flag_eqb (flag_disabled cc) TLS_FLAG_TRUE
          | None => false
          end
  then Returns (DECLINED, c)
  else
    match tls_core_conn_init (base_server_conf c) with
    | Faults f => Faults f
    | Returns OK => tls_filter_conn_init c
    | Returns rv => Returns (rv, c)
    end.

End Hooks.

Arguments tls_conf_conn_t : clear implicits.
Arguments conn_rec : clear implicits.

(** A primary connection before the handshake on an enabled base server,
    with its context and a session of the small engine. *)
Definition fresh_conn : conn_rec TlsFilter.toy_session TlsFilter.toy_next :=
  {| master := false;
     aborted := false;
     tls_conf_conn_get :=
       Some {| flag_disabled := TLS_FLAG_UNSET;
               state := TLS_CONN_ST_PRE_HANDSHAKE;
               rustls_session := Some (TlsFilter.toy_new 3 10);
               filter_ctx := None |};
     base_server_conf := Some {| TlsCore.enabled := TLS_FLAG_TRUE |};
     below := [] |}.

End ModTls.

(* ===================================================================== *)
(** * Properties *)
(* ===================================================================== *)

Lemma apr_status_eqb_spec (a b : apr_status_t) :
  reflect (a = b) (apr_status_eqb a b).
Proof.
  destruct a, b; simpl; try (constructor; congruence).
  destruct (Z.eqb_spec code code0); constructor; congruence.
Qed.

Lemma apr_status_eqb_refl (a : apr_status_t) : apr_status_eqb a a = true.
Proof. destruct (apr_status_eqb_spec a a); congruence. Qed.

Lemma apr_status_eqb_eq (a b : apr_status_t) : apr_status_eqb a b = true <-> a = b.
Proof. destruct (apr_status_eqb_spec a b); split; congruence. Qed.

Lemma tls_conn_state_eqb_spec (a b : tls_conn_state_t) :
  reflect (a = b) (tls_conn_state_eqb a b).
Proof. destruct a, b; simpl; constructor; congruence. Qed.

(** ** tls_core.c *)

Module TlsCoreFacts.
Import TlsCore.

Lemma memcmp_same (p : bytes) (n : nat) : memcmp p p n = 0.
Proof.
  revert p; induction n as [|n IH]; intros p; simpl; [reflexivity|].
  destruct p as [|a p]; [reflexivity|].
  destruct (Byte.eqb a a) eqn:Haa; [apply IH|].
  exfalso. pose proof (@Byte.byte_dec_lb a a eq_refl) as Hrefl. congruence.
Qed.

(** What [we_listen_on] compares in fact: the port and the length of the
    address, not its bytes. *)
Lemma listen_match_port_len (la sa : server_addr_rec) :
  listen_match la sa = true <->
  host_port la = host_port sa /\
  ipaddr_len (host_addr la) = ipaddr_len (host_addr sa).
Proof.
  unfold listen_match. rewrite memcmp_same. simpl.
  rewrite andb_true_r, andb_true_iff, !Z.eqb_eq. tauto.
Qed.

Lemma we_listen_on_sa_iff (la : server_addr_rec) (sas : list server_addr_rec) :
  we_listen_on_sa la sas = true <-> exists sa, In sa sas /\ listen_match la sa = true.
Proof.
  induction sas as [|sa sas IH]; simpl.
  - split; [discriminate|intros [? [[] _]]].
  - destruct (listen_match la sa) eqn:Hm.
    + split; [intros _; exists sa; auto|reflexivity].
    + rewrite IH. split.
      * intros [x [Hin Hx]]. exists x; auto.
      * intros [x [[->|Hin] Hx]]; [congruence|exists x; auto].
Qed.

Lemma we_listen_on_iff (tls_addresses : list server_addr_rec) (s : server_rec) :
  we_listen_on tls_addresses s = true <->
  exists la sa, In la tls_addresses /\ In sa (addrs s) /\
                host_port la = host_port sa /\
                ipaddr_len (host_addr la) = ipaddr_len (host_addr sa).
Proof.
  induction tls_addresses as [|la rest IH]; simpl.
  - split; [discriminate|intros [? [? [[] _]]]].
  - destruct (we_listen_on_sa la (addrs s)) eqn:Hsa.
    + split; [intros _|reflexivity].
      apply we_listen_on_sa_iff in Hsa. destruct Hsa as [sa [Hin Hm]].
      apply listen_match_port_len in Hm. exists la, sa. tauto.
    + rewrite IH. split.
      * intros [x [sa [Hx H]]]. exists x, sa. tauto.
      * intros [x [sa [[->|Hx] [Hin Hm]]]].
        -- assert (we_listen_on_sa x (addrs s) = true) as Hc.
           { apply we_listen_on_sa_iff. exists sa. split; [assumption|].
             apply listen_match_port_len. assumption. }
           congruence.
        -- exists x, sa. tauto.
Qed.

(** Whatever the configuration, the flag is decided after startup. *)
Lemma tls_core_init_enabled_decided
    (tls_addresses : list server_addr_rec) (s : server_rec) (sc : tls_conf_server_t) :
  enabled (tls_core_init_enabled tls_addresses s sc) <> TLS_FLAG_UNSET.
Proof.
  unfold tls_core_init_enabled.
  destruct tls_addresses as [|la rest].
  - destruct (tls_flag_eqb (enabled sc) TLS_FLAG_UNSET && _); simpl; [congruence|].
    destruct (enabled sc) eqn:He; simpl; rewrite ?He; congruence.
  - destruct (we_listen_on (la :: rest) s); simpl; congruence.
Qed.

(** Without TLS listen addresses a server whose flag was not set is enabled
    exactly when its protocol is "https". *)
Lemma tls_core_init_enabled_https (s : server_rec) (sc : tls_conf_server_t) :
  enabled sc = TLS_FLAG_UNSET ->
  (enabled (tls_core_init_enabled [] s sc) = TLS_FLAG_TRUE <->
   server_protocol s = Some "https"%string).
Proof.
  intros He. unfold tls_core_init_enabled. rewrite He.
  destruct (server_protocol s) as [p|];
    [destruct (String.eqb_spec "https" p) as [<-|Hne]|];
    cbn [andb enabled tls_flag_eqb]; rewrite ?He; cbn [tls_flag_eqb enabled];
    split; congruence.
Qed.

(** With TLS listen addresses the flag follows [we_listen_on]. *)
Lemma tls_core_init_enabled_listen
    (la : server_addr_rec) (rest : list server_addr_rec) (s : server_rec)
    (sc : tls_conf_server_t) :
  enabled (tls_core_init_enabled (la :: rest) s sc) = TLS_FLAG_TRUE <->
  we_listen_on (la :: rest) s = true.
Proof.
  unfold tls_core_init_enabled.
  destruct (we_listen_on (la :: rest) s); simpl; split; congruence.
Qed.

(** C2, at the input where the code leaves the claim.  A TLS listener is
    pinned to 10.0.0.2:443 and the server listens on 10.0.0.1:443 with the
    protocol "http": no address of the server has the bytes of a configured
    TLS address, so by the claim the server ends up disabled.
    [tls_core_init] enables it: [we_listen_on] compares the address of the
    listener with itself. *)
Theorem tls_core_init_enables_foreign_address :
  spec_enabled [listen_10_0_0_2_443] vhost_10_0_0_1 = false /\
  we_listen_on [listen_10_0_0_2_443] vhost_10_0_0_1 = true /\
  map (fun s => option_map enabled (tls_conf_server_get s))
      (tls_core_init_servers [listen_10_0_0_2_443] [vhost_10_0_0_1])
  = [Some TLS_FLAG_TRUE].
Proof. repeat split. Qed.


(** *** The enablement pass, run again *)

Lemma we_listen_on_addrs (tls_addresses : list server_addr_rec) (s s' : server_rec) :
  addrs s' = addrs s -> we_listen_on tls_addresses s' = we_listen_on tls_addresses s.
Proof.
  intros Ha. induction tls_addresses as [|la rest IH]; simpl; [reflexivity|].
  rewrite Ha, IH. reflexivity.
Qed.

Lemma tls_core_init_enabled_explicit (s : server_rec) (sc : tls_conf_server_t) :
  enabled sc <> TLS_FLAG_UNSET -> tls_core_init_enabled [] s sc = sc.
Proof.
  intros He. unfold tls_core_init_enabled.
  destruct sc as [e]. cbn [enabled] in *.
  destruct e; [contradiction| |]; reflexivity.
Qed.

Lemma tls_core_init_enabled_by_addresses (la : server_addr_rec)
    (rest : list server_addr_rec) (s s' : server_rec) (sc sc' : tls_conf_server_t) :
  addrs s' = addrs s ->
  tls_core_init_enabled (la :: rest) s' sc' = tls_core_init_enabled (la :: rest) s sc.
Proof.
  intros Ha. unfold tls_core_init_enabled.
  rewrite (we_listen_on_addrs (la :: rest) s s' Ha). reflexivity.
Qed.

Lemma tls_core_init_server_again (tls_addresses : list server_addr_rec) (s : server_rec) :
  tls_core_init_server tls_addresses (tls_core_init_server tls_addresses s)
  = tls_core_init_server tls_addresses s.
Proof.
  unfold tls_core_init_server.
  destruct (tls_conf_server_get s) as [sc|] eqn:Hsc; cbn [tls_conf_server_get];
    [|rewrite Hsc; reflexivity].
  cbn [addrs server_protocol]. f_equal. f_equal.
  destruct tls_addresses as [|la rest].
  - apply tls_core_init_enabled_explicit. apply tls_core_init_enabled_decided.
  - apply tls_core_init_enabled_by_addresses. reflexivity.
Qed.

(** X13.  The enablement pass of [tls_core_init] settles the flags.
    Run on its own result it changes nothing.  Without TLS listen
    addresses a flag that was set to [TLS_FLAG_TRUE] or [TLS_FLAG_FALSE]
    before is kept, whatever the protocol of the server; with TLS listen
    addresses the flag from before does not count: the pass decides by the
    addresses alone, also against a flag that was set. *)
Theorem tls_core_init_servers_settles (tls_addresses : list server_addr_rec)
    (servers : list server_rec) :
  tls_core_init_servers tls_addresses (tls_core_init_servers tls_addresses servers)
  = tls_core_init_servers tls_addresses servers
  /\ (forall s sc, enabled sc <> TLS_FLAG_UNSET -> tls_core_init_enabled [] s sc = sc)
  /\ (forall la rest s sc sc',
         tls_core_init_enabled (la :: rest) s sc = tls_core_init_enabled (la :: rest) s sc').
Proof.
  split; [|split].
  - unfold tls_core_init_servers. rewrite map_map. apply map_ext.
    intros s. apply tls_core_init_server_again.
  - apply tls_core_init_enabled_explicit.
  - reflexivity.
Qed.

End TlsCoreFacts.

(** ** tls_var.c *)

Module TlsVarFacts.
Import TlsVar.

(** On a connection that has a context in a handled phase the function
    returns and leaves the table of variables in the context. *)
Lemma tls_var_handshake_done_returns
    (lookups : apr_hash_t) (cc : tls_conf_conn_t) :
  state cc <> TLS_CONN_ST_IGNORED ->
  exists env,
    tls_var_handshake_done lookups {| tls_conf_conn_get := Some cc |}
    = Returns (APR_SUCCESS,
               {| tls_conf_conn_get := Some (set_subprocess_env (Some env) cc) |})
    /\ apr_table_get env "HTTPS" = Some "on"%string.
Proof.
  intros Hst. unfold tls_var_handshake_done. cbn [tls_conf_conn_get].
  destruct (tls_conn_state_eqb_spec TLS_CONN_ST_IGNORED (state cc)) as [He|_];
    [congruence|].
  cbn [apr_status_eqb]. eexists. split; [reflexivity|].
  assert (Hkeep : forall ctx env,
             apr_table_get env "HTTPS" = Some "on"%string ->
             In (ctx_name ctx) TlsAlwaysVars ->
             apr_table_get (set_var ctx lookups env) "HTTPS" = Some "on"%string).
  { intros ctx env Hget Hin. unfold set_var.
    destruct (apr_hash_get lookups (ctx_name ctx)); [|assumption].
    destruct (invoke v ctx) as [val|]; [|assumption].
    destruct (nonempty (Some val)); [|assumption].
    assert (Hne : String.eqb (ctx_name ctx) "HTTPS" = false).
    { simpl in Hin.
      destruct Hin as [<-|[<-|[<-|[<-|[]]]]]; reflexivity. }
    clear Hin. revert Hget Hne. generalize (ctx_name ctx) as key.
    intros key. induction env as [|[k v0] env IH]; simpl; [discriminate|].
    intros Hget Hne.
    destruct (String.eqb_spec k "HTTPS") as [->|Hk].
    - rewrite String.eqb_sym, Hne. simpl. assumption.
    - destruct (String.eqb k key); simpl.
      + destruct (String.eqb_spec k "HTTPS"); [congruence|].
        clear IH. induction env as [|[k1 v1] env IH1]; simpl in *; [discriminate|].
        destruct (String.eqb_spec k1 "HTTPS") as [->|Hk1].
        * rewrite String.eqb_sym, Hne. simpl. assumption.
        * destruct (String.eqb k1 key); simpl; auto.
          destruct (String.eqb_spec k1 "HTTPS"); [congruence|auto].
      + destruct (String.eqb_spec k "HTTPS"); [congruence|auto]. }
  unfold TlsAlwaysVars. simpl.
  repeat (apply Hkeep; [|simpl; tauto]). reflexivity.
Qed.

(** C10, at the input where the code leaves the claim.  On a connection
    without a context the test at the head of [tls_var_handshake_done] jumps
    to [cleanup], and the store behind that label goes through the NULL
    context.  On a context in the phase [IGNORED] the same store is made: it
    overwrites the table of the context with NULL. *)
Theorem tls_var_handshake_done_stores_through_null :
  (forall lookups, tls_var_handshake_done lookups conn_without_context = NullDeref) /\
  (forall lookups,
      exists cc',
        tls_var_handshake_done lookups conn_ignored
        = Returns (APR_SUCCESS, {| tls_conf_conn_get := Some cc' |})
        /\ subprocess_env cc' = None
        /\ option_map subprocess_env (tls_conf_conn_get conn_ignored)
           = Some (Some [("HTTPS", "on")]%string)).
Proof.
  split; intros lookups; [reflexivity|].
  eexists. repeat split.
Qed.


(** *** The table of lookup functions *)

Lemma apr_hash_get_set_same (h : apr_hash_t) (key : string) (d : var_def_t) :
  apr_hash_get (apr_hash_set h key d) key = Some d.
Proof.
  induction h as [|[k d0] h IH]; simpl.
  - rewrite String.eqb_refl. reflexivity.
  - destruct (String.eqb k key) eqn:Hk; simpl; rewrite Hk; [reflexivity|exact IH].
Qed.

Lemma apr_hash_get_set_other (h : apr_hash_t) (key key' : string) (d : var_def_t) :
  key <> key' ->
  apr_hash_get (apr_hash_set h key d) key' = apr_hash_get h key'.
Proof.
  intros Hne. induction h as [|[k d0] h IH]; simpl.
  - destruct (String.eqb_spec key key'); [contradiction|reflexivity].
  - destruct (String.eqb_spec k key) as [->|Hk]; simpl.
    + destruct (String.eqb_spec key key'); [contradiction|reflexivity].
    + destruct (String.eqb k key'); [reflexivity|exact IH].
Qed.

Lemma tls_var_init_lookup_hash_get (map : apr_hash_t) (def : var_def_t) :
  In def VAR_DEFS ->
  apr_hash_get (tls_var_init_lookup_hash map) (name def) = Some def.
Proof.
  unfold tls_var_init_lookup_hash, VAR_DEFS. cbn [fold_left name].
  intros [<-|[<-|[<-|[<-|[]]]]]; cbn [name];
    repeat first [ apply apr_hash_get_set_same
                 | rewrite apr_hash_get_set_other by discriminate ].
Qed.

(** X10.  [tls_var_init_lookup_hash] registers every variable under its
    own name.  Whatever the table held before, afterwards the lookup of
    the name of a definition of [VAR_DEFS] finds that definition, and the
    lookup of any other name finds what it found before. *)
Theorem tls_var_init_lookup_hash_registers (map : apr_hash_t) :
  (forall def, In def VAR_DEFS ->
               apr_hash_get (tls_var_init_lookup_hash map) (name def) = Some def)
  /\ (forall key, (forall def, In def VAR_DEFS -> name def <> key) ->
                  apr_hash_get (tls_var_init_lookup_hash map) key = apr_hash_get map key).
Proof.
  split; [apply tls_var_init_lookup_hash_get|].
  unfold tls_var_init_lookup_hash, VAR_DEFS. cbn [fold_left name].
  intros key Hkey.
  pose proof (Hkey {| name := "SSL_PROTOCOL"; fn := var_get_ssl_protocol |}) as H1.
  pose proof (Hkey {| name := "SSL_CIPHER"; fn := var_get_ssl_cipher |}) as H2.
  pose proof (Hkey {| name := "SSL_TLS_SNI"; fn := var_get_sni_hostname |}) as H3.
  pose proof (Hkey {| name := "SSL_CLIENT_S_DN_CN"; fn := var_get_client_s_dn_cn |}) as H4.
  cbn [name In] in H1, H2, H3, H4.
  rewrite !apr_hash_get_set_other; [reflexivity| | | |]; auto 10.
Qed.

(** *** What the handshake exports *)

Lemma set_var_value (cc : tls_conf_conn_t) (map : apr_hash_t) (def : var_def_t)
    (table : apr_table_t) :
  In def VAR_DEFS ->
  set_var {| ctx_cc := Some cc; ctx_name := name def |} (tls_var_init_lookup_hash map) table
  = match var_value cc def with
    | Some v => if nonempty (Some v) then apr_table_setn table (name def) v else table
    | None => table
    end.
Proof.
  intros Hin. unfold set_var. cbn [ctx_name].
  rewrite (tls_var_init_lookup_hash_get map def Hin). reflexivity.
Qed.

Lemma tls_var_handshake_done_env (map : apr_hash_t) (cc : tls_conf_conn_t) :
  fold_left
    (fun env nm => set_var {| ctx_cc := Some cc; ctx_name := nm |}
                     (tls_var_init_lookup_hash map) env)
    TlsAlwaysVars (apr_table_setn [] "HTTPS" "on")
  = exported_vars cc.
Proof.
  unfold TlsAlwaysVars. cbn [fold_left].
  rewrite (set_var_value cc map {| name := "SSL_TLS_SNI"; fn := var_get_sni_hostname |})
    by (cbn; tauto).
  rewrite (set_var_value cc map {| name := "SSL_PROTOCOL"; fn := var_get_ssl_protocol |})
    by (cbn; tauto).
  rewrite (set_var_value cc map {| name := "SSL_CIPHER"; fn := var_get_ssl_cipher |})
    by (cbn; tauto).
  rewrite (set_var_value cc map
             {| name := "SSL_CLIENT_S_DN_CN"; fn := var_get_client_s_dn_cn |})
    by (cbn; tauto).
  unfold exported_vars, TlsAlwaysVars. cbn [flat_map].
  change (var_def_of "SSL_TLS_SNI")
    with (Some {| name := "SSL_TLS_SNI"; fn := var_get_sni_hostname |}).
  change (var_def_of "SSL_PROTOCOL")
    with (Some {| name := "SSL_PROTOCOL"; fn := var_get_ssl_protocol |}).
  change (var_def_of "SSL_CIPHER")
    with (Some {| name := "SSL_CIPHER"; fn := var_get_ssl_cipher |}).
  change (var_def_of "SSL_CLIENT_S_DN_CN")
    with (Some {| name := "SSL_CLIENT_S_DN_CN"; fn := var_get_client_s_dn_cn |}).
  cbn [name].
  destruct (var_value cc {| name := "SSL_TLS_SNI"; fn := var_get_sni_hostname |})
    as [v1|]; [destruct (nonempty (Some v1))|];
  (destruct (var_value cc {| name := "SSL_PROTOCOL"; fn := var_get_ssl_protocol |})
     as [v2|]; [destruct (nonempty (Some v2))|]);
  (destruct (var_value cc {| name := "SSL_CIPHER"; fn := var_get_ssl_cipher |})
     as [v3|]; [destruct (nonempty (Some v3))|]);
  (destruct (var_value cc
               {| name := "SSL_CLIENT_S_DN_CN"; fn := var_get_client_s_dn_cn |})
     as [v4|]; [destruct (nonempty (Some v4))|]);
  reflexivity.
Qed.

(** X11.  What [tls_var_handshake_done] exports.  On a connection
    whose context is in a handled phase, with the lookup table as
    [tls_var_init_lookup_hash] fills it, the function returns
    [APR_SUCCESS] and leaves in [cc->subprocess_env] a table that holds
    HTTPS=on first and then, in the order of [TlsAlwaysVars], exactly the
    variables that have a non-empty value: no variable is exported with an
    empty value, and a variable without a value is left out. *)
Theorem tls_var_handshake_done_exports (map : apr_hash_t) (cc : tls_conf_conn_t) :
  state cc <> TLS_CONN_ST_IGNORED ->
  tls_var_handshake_done (tls_var_init_lookup_hash map) {| tls_conf_conn_get := Some cc |}
  = Returns (APR_SUCCESS,
             {| tls_conf_conn_get :=
                  Some (set_subprocess_env (Some (exported_vars cc)) cc) |}).
Proof.
  intros Hst. unfold tls_var_handshake_done. cbn [tls_conf_conn_get].
  destruct (tls_conn_state_eqb_spec TLS_CONN_ST_IGNORED (state cc)) as [He|_];
    [congruence|].
  cbn [apr_status_eqb]. rewrite tls_var_handshake_done_env. reflexivity.
Qed.

(** *** Looking a variable up *)



(** *** On a connection after its handshake *)

Lemma tls_var_handshake_done_exports_witness :
  state conn_handled <> TLS_CONN_ST_IGNORED
  /\ tls_var_handshake_done (tls_var_init_lookup_hash [])
       {| tls_conf_conn_get := Some conn_handled |}
     = Returns (APR_SUCCESS,
                {| tls_conf_conn_get :=
                     Some (set_subprocess_env (Some (exported_vars conn_handled))
                             conn_handled) |}).
Proof.
  assert (H : state conn_handled <> TLS_CONN_ST_IGNORED) by discriminate.
  split; [exact H|].
  exact (tls_var_handshake_done_exports [] conn_handled H).
Defined.


End TlsVarFacts.
(** ** tls_filter.c *)

Module TlsFilterFacts.
Import TlsFilter.

Lemma size_wrap_bounds (x : Z) : 0 <= size_wrap x < 2 ^ 64.
Proof. unfold size_wrap. apply Z.mod_pos_bound. reflexivity. Qed.

Lemma size_wrap_small (x : Z) : 0 <= x < 2 ^ 64 -> size_wrap x = x.
Proof. intros H. unfold size_wrap. apply Z.mod_small. exact H. Qed.

Lemma blen_nonneg (d : bytes) : 0 <= blen d.
Proof. unfold blen. lia. Qed.

Lemma blen_firstn (n : Z) (d : bytes) : blen (firstn (Z.to_nat n) d) <= Z.max 0 n.
Proof. unfold blen. rewrite length_firstn. lia. Qed.

Section Runs.
Context {E N : Type} (X : externals E N).
Local Abbreviation ctx := (tls_filter_ctx_t E N).
Local Abbreviation run := (outcome E N).

Lemma final_ctx_bind {A B : Type} (m : run A) (k : A -> ctx -> run B) :
  final_ctx (bind m k)
  = match m with
    | Returns a s => final_ctx (k a s)
    | _ => final_ctx m
    end.
Proof. destruct m; reflexivity. Qed.

(** A relation between the context a run starts in and the one it ends in
    that holds of every step holds of a sequence of them. *)
Lemma bind_rel (R : ctx -> ctx -> Prop) {A B : Type}
    (st : ctx) (m : run A) (k : A -> ctx -> run B) :
  (forall a b c, R a b -> R b c -> R a c) ->
  R st (final_ctx m) ->
  (forall a s, R s (final_ctx (k a s))) ->
  R st (final_ctx (bind m k)).
Proof.
  intros Htrans Hm Hk. rewrite final_ctx_bind.
  destruct m as [a s| |]; simpl in *; try assumption.
  eapply Htrans; [exact Hm|apply Hk].
Qed.

(** What a call of the engine gives. *)
Lemma session_write_inv (data : bytes) (st : ctx) :
  (cc_rustls_session st = None /\ session_write X data st = Faults FaultNull st)
  \/ exists rr wlen s',
       0 <= wlen < 2 ^ 64
       /\ session_write X data st
          = Returns (rr, wlen)
              (log (EvSessionWrite data rr wlen) (set_cc_rustls_session (Some s') st)).
Proof.
  unfold session_write, with_session.
  destruct (cc_rustls_session st) as [s|]; [right|left; auto].
  destruct (rustls_server_session_write X s data) as [[rr n] s'].
  exists rr, (size_wrap n), s'. split; [apply size_wrap_bounds|reflexivity].
Qed.

(** *** The bound on the plaintext buffer *)

Lemma keeps_buf_trans (a b c : ctx) : keeps_buf a b -> keeps_buf b c -> keeps_buf a c.
Proof.
  unfold keeps_buf. intros H1 H2 Hok.
  destruct (H1 Hok) as [Ha Hb]. destruct (H2 Hb) as [Hc Hd].
  split; [congruence|assumption].
Qed.

Lemma same_buf_trans (a b c : ctx) : same_buf a b -> same_buf b c -> same_buf a c.
Proof. unfold same_buf. intros [H1 [H2 H3]] [H4 [H5 H6]]. repeat split; congruence. Qed.

Lemma same_buf_keeps (a b : ctx) : same_buf a b -> keeps_buf a b.
Proof.
  unfold same_buf, keeps_buf, buf_ok. intros [H1 [H2 H3]] Hok.
  split; [assumption|]. rewrite H1, H2. tauto.
Qed.

Lemma extends_trans (a b c : ctx) : extends a b -> extends b c -> extends a c.
Proof.
  intros [e1 H1] [e2 H2]. exists (e1 ++ e2). rewrite H2, H1, app_assoc. reflexivity.
Qed.

Lemma calm_refl (a : ctx) : calm a a.
Proof.
  unfold calm, same_buf. repeat split. exists []. rewrite app_nil_r. auto.
Qed.

Lemma calm_trans (a b c : ctx) : calm a b -> calm b c -> calm a c.
Proof.
  intros (Hb1 & Hf1 & Hs1 & e1 & Ht1 & Hc1) (Hb2 & Hf2 & Hs2 & e2 & Ht2 & Hc2).
  split; [eapply same_buf_trans; eassumption|].
  split; [congruence|]. split; [congruence|].
  exists (e1 ++ e2). split.
  - rewrite Ht2, Ht1, app_assoc. reflexivity.
  - unfold close_notifies in *. rewrite filter_app, Hc1, Hc2. reflexivity.
Qed.

Lemma calm_same_buf (a b : ctx) : calm a b -> same_buf a b.
Proof. intros H. apply H. Qed.

Lemma calm_keeps (a b : ctx) : calm a b -> keeps_buf a b.
Proof. intros H. apply same_buf_keeps, H. Qed.

Lemma calm_extends (a b : ctx) : calm a b -> extends a b.
Proof. intros (_ & _ & _ & ev & Ht & _). exists ev. exact Ht. Qed.

(** An event other than a close-notify is logged, and fields other than
    those [calm] speaks of are assigned. *)
Lemma calm_log (e : event) (a b : ctx) :
  is_close_notify e = false -> calm a b -> calm a (log e b).
Proof.
  intros He (Hb & Hf & Hs & ev & Ht & Hc).
  split; [exact Hb|]. split; [exact Hf|]. split; [exact Hs|].
  exists (ev ++ [e]). split.
  - cbn. rewrite Ht, app_assoc. reflexivity.
  - unfold close_notifies in *. rewrite filter_app, Hc. cbn. rewrite He. reflexivity.
Qed.

Lemma next_pass_brigade_calm (bb : apr_bucket_brigade) (st : ctx)
    (rv : apr_status_t) (remains : apr_bucket_brigade) (st' : ctx) :
  next_pass_brigade X bb st = (rv, remains, st') -> calm st st'.
Proof.
  unfold next_pass_brigade.
  destruct (ap_pass_brigade X (next st) bb) as [[[rv0 ab] rem] n'].
  intros H. injection H as _ _ <-.
  unfold calm, same_buf, close_notifies. cbn. repeat split.
  eexists. split; reflexivity.
Qed.

Lemma next_get_brigade_calm (mode : ap_input_mode_t) (block : apr_read_type_e) (len : Z)
    (st : ctx) (rv : apr_status_t) (got : apr_bucket_brigade) (st' : ctx) :
  next_get_brigade X mode block len st = (rv, got, st') -> calm st st'.
Proof.
  unfold next_get_brigade.
  destruct (ap_get_brigade X (next st) mode block len) as [[rv0 got0] n'].
  intros H. injection H as _ _ <-.
  unfold calm, same_buf, close_notifies. cbn. repeat split.
  eexists. split; reflexivity.
Qed.

End Runs.

(** One step of a proof that a run keeps a relation: a sequence is split, a
    case distinction of the code is followed, the end of a run is handed to
    [leaf]. *)
Ltac run_step trans leaf :=
  lazymatch goal with
  | |- _ _ (final_ctx ?o) =>
      lazymatch o with
      | bind _ _ => apply bind_rel; [exact trans| |intros]
      | Returns _ _ => cbn [final_ctx]; leaf
      | Faults _ _ => cbn [final_ctx]; leaf
      | Spins _ => cbn [final_ctx]; leaf
      | match ?x with _ => _ end => destruct x eqn:?
      | (match ?x with _ => _ end) _ => destruct x; cbv beta
      | ?f ?st' => refine (trans _ st' _ _ _); [leaf|solve [eauto]]
      end
  end.

(** The end of a run differs from the context [s] of the goal by
    assignments to fields and by logged events. *)
Ltac calm_fields :=
  repeat match goal with
         | |- context [match ?x with _ => _ end] => destruct x
         end;
  unfold calm, same_buf, close_notifies; cbn;
  repeat split;
  (eexists; split;
   [ rewrite <- ?app_assoc; first [reflexivity | symmetry; apply app_nil_r]
   | reflexivity ]).

Ltac calm_leaf :=
  first
    [ match goal with
      | H : next_pass_brigade _ _ ?s' = (_, _, ?t) |- calm _ ?g =>
          lazymatch g with context [t] => idtac end;
          apply calm_trans with (b := s'); [calm_fields|];
          apply calm_trans with (b := t);
          [exact (next_pass_brigade_calm _ _ _ _ _ _ H)|calm_fields]
      | H : next_get_brigade _ _ _ _ ?s' = (_, _, ?t) |- calm _ ?g =>
          lazymatch g with context [t] => idtac end;
          apply calm_trans with (b := s'); [calm_fields|];
          apply calm_trans with (b := t);
          [exact (next_get_brigade_calm _ _ _ _ _ _ _ _ H)|calm_fields]
      end
    | calm_fields ].

Ltac same_buf_leaf := unfold same_buf; cbn; repeat split; reflexivity.

Section Bounds.
Context {E N : Type} (X : externals E N).
Local Abbreviation ctx := (tls_filter_ctx_t E N).

Ltac frame := repeat run_step (@calm_trans E N) calm_leaf.

Lemma session_is_handshaking_calm (st : ctx) :
  calm st (final_ctx (session_is_handshaking X st)).
Proof. unfold session_is_handshaking, with_session. frame. Qed.

Lemma session_wants_read_calm (st : ctx) : calm st (final_ctx (session_wants_read X st)).
Proof. unfold session_wants_read, with_session. frame. Qed.

Lemma session_wants_write_calm (st : ctx) : calm st (final_ctx (session_wants_write X st)).
Proof. unfold session_wants_write, with_session. frame. Qed.

Lemma session_read_tls_calm (data : bytes) (st : ctx) :
  calm st (final_ctx (session_read_tls X data st)).
Proof. unfold session_read_tls, with_session. frame. Qed.

Lemma session_process_new_packets_calm (st : ctx) :
  calm st (final_ctx (session_process_new_packets X st)).
Proof. unfold session_process_new_packets, with_session. frame. Qed.

Lemma session_read_calm (n : Z) (st : ctx) : calm st (final_ctx (session_read X n st)).
Proof. unfold session_read, with_session. frame. Qed.

Lemma session_write_calm (data : bytes) (st : ctx) :
  calm st (final_ctx (session_write X data st)).
Proof. unfold session_write, with_session. frame. Qed.

Lemma session_write_tls_calm (n : Z) (st : ctx) :
  calm st (final_ctx (session_write_tls X n st)).
Proof. unfold session_write_tls, with_session. frame. Qed.

Lemma core_conn_init_server_calm (st : ctx) :
  calm st (final_ctx (core_conn_init_server X st)).
Proof. unfold core_conn_init_server, with_session. frame. Qed.

Lemma core_conn_post_handshake_calm (st : ctx) :
  calm st (final_ctx (core_conn_post_handshake X st)).
Proof. unfold core_conn_post_handshake, with_session. frame. Qed.

Hint Resolve session_is_handshaking_calm session_wants_read_calm session_wants_write_calm
  session_read_tls_calm session_process_new_packets_calm session_read_calm
  session_write_calm session_write_tls_calm core_conn_init_server_calm
  core_conn_post_handshake_calm : core.

Lemma session_send_close_notify_same (st : ctx) :
  same_buf st (final_ctx (session_send_close_notify X st)).
Proof.
  unfold session_send_close_notify, with_session.
  destruct (cc_rustls_session st); cbn [final_ctx]; same_buf_leaf.
Qed.

Lemma brigade_tls_loop_calm (fuel : nat) (st : ctx) :
  calm st (final_ctx (brigade_tls_loop X fuel st)).
Proof.
  revert st. induction fuel as [|fuel IH]; intros st; cbn [brigade_tls_loop]; frame.
Qed.

Hint Resolve brigade_tls_loop_calm : core.

Lemma brigade_tls_from_rustls_calm (fuel : nat) (st : ctx) :
  calm st (final_ctx (brigade_tls_from_rustls X fuel st)).
Proof. unfold brigade_tls_from_rustls. frame. Qed.

Hint Resolve brigade_tls_from_rustls_calm : core.

Lemma write_all_tls_from_rustls_calm (fuel : nat) (st : ctx) :
  calm st (final_ctx (write_all_tls_from_rustls X fuel st)).
Proof. unfold write_all_tls_from_rustls. frame. Qed.

Lemma flush_tls_from_rustls_calm (fuel : nat) (st : ctx) :
  calm st (final_ctx (flush_tls_from_rustls X fuel st)).
Proof. unfold flush_tls_from_rustls. frame. Qed.

Hint Resolve write_all_tls_from_rustls_calm flush_tls_from_rustls_calm : core.

Lemma read_tls_loop_calm (fuel : nat) (len : Z) (rv : apr_status_t)
    (block : apr_read_type_e) (passed : Z) (st : ctx) :
  calm st (final_ctx (read_tls_loop X fuel len rv block passed st)).
Proof.
  revert rv block passed st.
  induction fuel as [|fuel IH]; intros rv block passed st; cbn [read_tls_loop]; frame.
Qed.

Hint Resolve read_tls_loop_calm : core.

Lemma read_tls_body_calm (fuel : nat) (len : Z) (st : ctx) :
  calm st (final_ctx (read_tls_body X fuel len st)).
Proof. unfold read_tls_body. frame. Qed.

Hint Resolve read_tls_body_calm : core.

Lemma read_tls_to_rustls_calm (fuel : nat) (len : Z) (st : ctx) :
  calm st (final_ctx (read_tls_to_rustls X fuel len st)).
Proof. unfold read_tls_to_rustls. frame. Qed.

Hint Resolve read_tls_to_rustls_calm : core.

Lemma pre_handshake_loop_calm (fuel loops : nat) (st : ctx) :
  calm st (final_ctx (pre_handshake_loop X fuel loops st)).
Proof.
  revert st. induction loops as [|loops IH]; intros st; cbn [pre_handshake_loop]; frame.
Qed.

Lemma handshake_loop_calm (fuel loops : nat) (st : ctx) :
  calm st (final_ctx (handshake_loop X fuel loops st)).
Proof.
  revert st. induction loops as [|loops IH]; intros st; cbn [handshake_loop]; frame.
Qed.

Lemma input_fill_loop_calm (fuel loops : nat) (rv : apr_status_t) (st : ctx) :
  calm st (final_ctx (input_fill_loop X fuel loops rv st)).
Proof.
  revert rv st. induction loops as [|loops IH]; intros rv st; cbn [input_fill_loop]; frame.
Qed.

(** Comparisons of the code, as propositions. *)
Ltac zbool :=
  repeat match goal with
         | H : negb _ = true |- _ => apply negb_true_iff in H
         | H : negb _ = false |- _ => apply negb_false_iff in H
         | H : andb _ _ = true |- _ => apply andb_true_iff in H; destruct H
         end;
  rewrite ?Z.geb_leb, ?Z.gtb_ltb in *;
  rewrite ?Z.ltb_lt, ?Z.ltb_ge, ?Z.leb_le, ?Z.leb_gt, ?Z.eqb_eq, ?Z.eqb_neq in *.

Ltac keeps_fields :=
  repeat match goal with
         | |- context [match ?x with _ => _ end] => destruct x
         end;
  unfold keeps_buf, buf_ok in *; cbn; intros;
  repeat split; try reflexivity; try tauto; try lia.

Ltac keeps_leaf :=
  first
    [ match goal with
      | H : next_pass_brigade _ _ ?s' = (_, _, ?t) |- keeps_buf _ ?g =>
          lazymatch g with context [t] => idtac end;
          apply keeps_buf_trans with (b := s'); [keeps_fields|];
          apply keeps_buf_trans with (b := t);
          [exact (calm_keeps _ _ (next_pass_brigade_calm _ _ _ _ _ _ H))|keeps_fields]
      end
    | keeps_fields ].

Lemma fout_plain_buf_to_rustls_keeps (st : ctx) :
  keeps_buf st (final_ctx (fout_plain_buf_to_rustls X st)).
Proof.
  unfold fout_plain_buf_to_rustls.
  destruct (0 <? fout_buf_plain_len st) eqn:Hlen; [|keeps_leaf].
  destruct (session_write_inv X
              (firstn (Z.to_nat (fout_buf_plain_len st)) (fout_buf_plain st)) st)
    as [[_ ->]|(rr & wlen & s' & Hw & ->)]; cbn [bind final_ctx]; [keeps_leaf|].
  destruct (negb (rustls_ok rr)); cbn [final_ctx]; [keeps_leaf|].
  cbn [fout_buf_plain_len set_fout_bytes_in_rustls log set_trace set_cc_rustls_session].
  destruct (wlen >=? fout_buf_plain_len st) eqn:Hge; cbn [final_ctx]; [keeps_leaf|].
  destruct (wlen =? 0) eqn:Hz; cbn [final_ctx]; [keeps_leaf|].
  zbool. unfold keeps_buf, buf_ok; cbn. intros Hok. split; [reflexivity|].
  rewrite size_wrap_small by lia. lia.
Qed.

(** Behind lines 554-560 there is space in the buffer, and [buf_remain] is
    that space. *)
Lemma fout_plain_buf_room_spec (st : ctx) :
  buf_ok st ->
  match fout_plain_buf_room X st with
  | Returns (fl, _, r) st1 =>
      fout_buf_plain_size st1 = fout_buf_plain_size st /\ buf_ok st1
      /\ (fl = Fallthrough ->
          r = fout_buf_plain_size st1 - fout_buf_plain_len st1 /\ 0 < r)
  | o => fout_buf_plain_size (final_ctx o) = fout_buf_plain_size st /\ buf_ok (final_ctx o)
  end.
Proof.
  intros Hok. unfold fout_plain_buf_room.
  assert (Hrem : size_wrap (fout_buf_plain_size st - fout_buf_plain_len st)
                 = fout_buf_plain_size st - fout_buf_plain_len st).
  { apply size_wrap_small. unfold buf_ok in Hok. lia. }
  rewrite Hrem.
  destruct (fout_buf_plain_size st - fout_buf_plain_len st =? 0) eqn:Hz.
  - pose proof (fout_plain_buf_to_rustls_keeps st Hok) as Hk.
    destruct (fout_plain_buf_to_rustls X st) as [rv st1| |]; cbn [bind final_ctx] in *;
      try assumption.
    destruct Hk as [Hsz Hok1].
    destruct (negb (apr_status_eqb APR_SUCCESS rv)).
    + split; [assumption|split; [assumption|discriminate]].
    + rewrite size_wrap_small by (unfold buf_ok in Hok1; lia).
      destruct (0 <? fout_buf_plain_size st1 - fout_buf_plain_len st1) eqn:Hpos;
        cbn [final_ctx]; [|split; assumption].
      zbool. split; [assumption|split; [assumption|]].
      intros _. split; [reflexivity|assumption].
  - zbool. split; [reflexivity|split; [assumption|]].
    intros _. unfold buf_ok in Hok. split; [reflexivity|lia].
Qed.

Lemma fout_plain_buf_take_keeps (b : apr_bucket) (dlen r : Z) (st : ctx) :
  r = fout_buf_plain_size st - fout_buf_plain_len st ->
  keeps_buf st (final_ctx (fout_plain_buf_take X b dlen r st)).
Proof.
  intros Hr. unfold fout_plain_buf_take.
  destruct (if dlen >? r then apr_bucket_split b r else (b, [])) as [b1 behind].
  destruct b1 as [| | |d|fd d|reads].
  1-4, 6:
    destruct (apr_bucket_read _ APR_BLOCK_READ) as [[[rv data] b2] behind2];
    (destruct (negb (apr_status_eqb APR_SUCCESS rv)); [cbn [final_ctx]; keeps_leaf|]);
    cbn [fout_buf_plain_len fout_buf_plain_size fout_buf_plain log set_trace];
    (destruct ((fout_buf_plain_len st =? 0) && _) eqn:Hdirect;
     [ destruct (session_write_inv X data (log (EvBucketRead APR_BLOCK_READ) st))
         as [[_ ->]|(rr & wlen & s' & Hw & ->)]; cbn [bind final_ctx]; [keeps_leaf|];
       destruct (negb (rustls_ok rr)); [|destruct (wlen >=? blen data)];
       cbn [final_ctx]; keeps_leaf
     | destruct (negb (blen data <=? r)) eqn:Hfit; cbn [final_ctx]; [keeps_leaf|];
       zbool; unfold keeps_buf, buf_ok in *; cbn; intros Hok; split; [reflexivity|];
       pose proof (blen_nonneg data);
       rewrite size_wrap_small by lia; lia ]).
  (* a file bucket *)
  destruct (negb (bucket_length (BUCKET_FILE fd d) <=? r)) eqn:Hfit; cbn [final_ctx];
    [keeps_leaf|].
  destruct (negb (apr_status_eqb APR_SUCCESS (seek_rv fd))); cbn [final_ctx];
    [keeps_leaf|].
  destruct (negb (apr_status_eqb APR_SUCCESS (read_rv fd)) && _); cbn [final_ctx].
  - keeps_leaf.
  - zbool. unfold keeps_buf, buf_ok in *; cbn. intros Hok. split; [reflexivity|].
    pose proof (blen_nonneg d). cbn [bucket_length] in Hfit.
    rewrite size_wrap_small by lia. lia.
Qed.

Lemma fout_plain_buf_append_keeps (b : apr_bucket) (st : ctx) :
  keeps_buf st (final_ctx (fout_plain_buf_append X b st)).
Proof.
  unfold fout_plain_buf_append.
  destruct (bucket_length b =? SIZE_UNKNOWN); cbn [final_ctx]; [keeps_leaf|].
  intros Hok. pose proof (fout_plain_buf_room_spec st Hok) as Hroom.
  destruct (fout_plain_buf_room X st) as [[[fl rv0] r] st1| |]; cbn [bind final_ctx] in *;
    try assumption.
  destruct Hroom as [Hsz [Hok1 Hfl]].
  destruct fl; cbn [final_ctx]; [|split; assumption].
  destruct (Hfl eq_refl) as [Hr _].
  destruct (fout_plain_buf_take_keeps b (bucket_length b) r st1 Hr Hok1) as [Hsz2 Hok2].
  split; [congruence|assumption].
Qed.

Lemma session_send_close_notify_keeps (st : ctx) :
  keeps_buf st (final_ctx (session_send_close_notify X st)).
Proof. apply same_buf_keeps, session_send_close_notify_same. Qed.

Lemma brigade_tls_from_rustls_keeps (fuel : nat) (st : ctx) :
  keeps_buf st (final_ctx (brigade_tls_from_rustls X fuel st)).
Proof. apply calm_keeps, brigade_tls_from_rustls_calm. Qed.

Lemma write_all_tls_from_rustls_keeps (fuel : nat) (st : ctx) :
  keeps_buf st (final_ctx (write_all_tls_from_rustls X fuel st)).
Proof. apply calm_keeps, write_all_tls_from_rustls_calm. Qed.

Hint Resolve session_send_close_notify_keeps brigade_tls_from_rustls_keeps
  write_all_tls_from_rustls_keeps fout_plain_buf_to_rustls_keeps
  fout_plain_buf_append_keeps : core.

Ltac keeps := repeat run_step (@keeps_buf_trans E N) keeps_leaf.

Lemma conn_output_bucket_keeps (fuel : nat) (b : apr_bucket) (rest : apr_bucket_brigade)
    (passed : Z) (st : ctx) :
  keeps_buf st (final_ctx (conn_output_bucket X fuel b rest passed st)).
Proof. unfold conn_output_bucket. keeps. Qed.

Hint Resolve conn_output_bucket_keeps : core.

Lemma conn_output_loop_keeps (fuel loops : nat) (rv : apr_status_t)
    (bb : apr_bucket_brigade) (passed : Z) (st : ctx) :
  keeps_buf st (final_ctx (conn_output_loop X fuel loops rv bb passed st)).
Proof.
  revert rv bb passed st.
  induction loops as [|loops IH]; intros rv bb passed st; cbn [conn_output_loop]; keeps.
Qed.

Hint Resolve conn_output_loop_keeps : core.

Lemma filter_conn_output_keeps (fuel : nat) (bb : apr_bucket_brigade) (st : ctx) :
  keeps_buf st (final_ctx (filter_conn_output X fuel bb st)).
Proof. unfold filter_conn_output. keeps. Qed.

(** The context of a fresh connection is within the bound when the
    capacity is a size. *)
Lemma tls_filter_conn_init_buf_ok (aborted : bool) (state : tls_conn_state_t)
    (s : E) (below : N) :
  0 <= 2 * TLS_PREF_WRITE_SIZE X < 2 ^ 64 ->
  buf_ok (tls_filter_conn_init X aborted state s below).
Proof. unfold buf_ok. cbn. lia. Qed.

(** *** A full buffer goes to the engine before a bucket is taken in *)

Lemma fout_plain_buf_take_extends (b : apr_bucket) (dlen r : Z) (st : ctx) :
  extends st (final_ctx (fout_plain_buf_take X b dlen r st)).
Proof.
  assert (Hcalm : forall s s' : ctx, calm s s' -> extends s s')
    by (intros; apply calm_extends; assumption).
  unfold fout_plain_buf_take.
  destruct (if dlen >? r then apr_bucket_split b r else (b, [])) as [b1 behind].
  destruct b1; repeat run_step (@extends_trans E N)
    ltac:(first [ apply Hcalm; calm_fields
                | unfold extends; cbn; eexists;
                  rewrite <- ?app_assoc; first [reflexivity|symmetry; apply app_nil_r] ]).
  all: apply Hcalm; apply calm_trans with (b := log (EvBucketRead APR_BLOCK_READ) s);
    [calm_fields|apply session_write_calm].
Qed.

Lemma fout_plain_buf_append_flushes_first (b : apr_bucket) (st : ctx) (s : E) :
  buf_ok st ->
  0 < fout_buf_plain_len st ->
  fout_buf_plain_len st = fout_buf_plain_size st ->
  cc_rustls_session st = Some s ->
  bucket_length b <> SIZE_UNKNOWN ->
  exists rr wlen ev,
    trace (final_ctx (fout_plain_buf_append X b st))
    = trace st
      ++ EvSessionWrite (firstn (Z.to_nat (fout_buf_plain_len st)) (fout_buf_plain st))
                        rr wlen :: ev.
Proof.
  intros Hok Hpos Hfull Hs Hlen.
  unfold fout_plain_buf_append.
  destruct (bucket_length b =? SIZE_UNKNOWN) eqn:Hu; [zbool; contradiction|].
  unfold fout_plain_buf_room.
  replace (fout_buf_plain_size st - fout_buf_plain_len st) with 0 by lia.
  change (size_wrap 0 =? 0) with true. cbv iota.
  unfold fout_plain_buf_to_rustls.
  destruct (0 <? fout_buf_plain_len st) eqn:Hp; [|zbool; lia].
  destruct (session_write_inv X
              (firstn (Z.to_nat (fout_buf_plain_len st)) (fout_buf_plain st)) st)
    as [[Hnone _]|(rr & wlen & s' & Hw & ->)]; [congruence|].
  exists rr, wlen. cbn [bind].
  set (st1 := log _ _).
  assert (Ht1 : trace st1 = trace st ++ [EvSessionWrite
             (firstn (Z.to_nat (fout_buf_plain_len st)) (fout_buf_plain st)) rr wlen])
    by reflexivity.
  assert (Hgoal : forall (o : outcome E N (apr_status_t * Z * apr_bucket_brigade)),
             extends st1 (final_ctx o) ->
             exists ev, trace (final_ctx o)
                        = trace st ++ EvSessionWrite
                            (firstn (Z.to_nat (fout_buf_plain_len st)) (fout_buf_plain st))
                            rr wlen :: ev).
  { intros o [ev Hev]. exists ev. rewrite Hev, Ht1, <- app_assoc. reflexivity. }
  apply Hgoal.
  assert (Hcalm : forall s1 s2 : ctx, calm s1 s2 -> extends s1 s2)
    by (intros; apply calm_extends; assumption).
  pose proof fout_plain_buf_take_extends as Htake.
  repeat run_step (@extends_trans E N)
    ltac:(unfold extends; cbn; eexists; rewrite <- ?app_assoc;
          first [reflexivity|symmetry; apply app_nil_r]).
Qed.

(** *** The blocking mode of the pulls of one fill attempt *)

Lemma apr_read_type_eqb_refl (b : apr_read_type_e) : apr_read_type_eqb b b = true.
Proof. destruct b; reflexivity. Qed.

Lemma pulls_follow_snoc (cur : apr_read_type_e) (ev : list event) (e : event) :
  pull_mode e = None ->
  pulls_follow cur (ev ++ [e]) = pulls_follow cur ev.
Proof.
  intros He. revert cur. induction ev as [|x ev IH]; intros cur; cbn.
  - destruct e; try reflexivity; discriminate.
  - destruct x; rewrite ?IH; reflexivity.
Qed.

Lemma session_read_tls_inv (data : bytes) (st : ctx) :
  session_read_tls X data st = Faults FaultNull st
  \/ exists rr rlen s',
       session_read_tls X data st
       = Returns (rr, rlen)
           (log (EvReadTls data rr rlen) (set_cc_rustls_session (Some s') st)).
Proof.
  unfold session_read_tls, with_session.
  destruct (cc_rustls_session st) as [s|]; [right|left; reflexivity].
  destruct (rustls_server_session_read_tls X s data) as [[rr n] s'].
  exists rr, (size_wrap n), s'. reflexivity.
Qed.

(** The events of a run, split where the run has come to. *)
Lemma pulls_chain {A : Type} (st st' : ctx) (o : outcome E N A)
    (ev0 : list event) (cur cur' : apr_read_type_e) :
  trace st' = trace st ++ ev0 ->
  (forall ev, pulls_follow cur' ev = true -> pulls_follow cur (ev0 ++ ev) = true) ->
  (exists ev, trace (final_ctx o) = trace st' ++ ev /\ pulls_follow cur' ev = true) ->
  exists ev, trace (final_ctx o) = trace st ++ ev /\ pulls_follow cur ev = true.
Proof.
  intros Ht Hp [ev [He Hf]]. exists (ev0 ++ ev). split.
  - rewrite He, Ht, app_assoc. reflexivity.
  - apply Hp. exact Hf.
Qed.

Lemma pulls_done (st st' : ctx) (ev0 : list event) (cur : apr_read_type_e) :
  trace st' = trace st ++ ev0 ->
  pulls_follow cur ev0 = true ->
  exists ev, trace st' = trace st ++ ev /\ pulls_follow cur ev = true.
Proof. intros Ht Hp. exists ev0. auto. Qed.

Ltac pulls_now :=
  cbn [final_ctx];
  eapply pulls_done;
  [ cbn; rewrite <- ?app_assoc; first [reflexivity|symmetry; apply app_nil_r]
  | cbn; rewrite ?apr_read_type_eqb_refl; reflexivity ].

Ltac pulls_then IH :=
  eapply pulls_chain; cycle 2;
  [ apply IH
  | cbn; rewrite <- ?app_assoc; first [reflexivity|symmetry; apply app_nil_r]
  | intros ev Hev; cbn; rewrite ?apr_read_type_eqb_refl; exact Hev ].

Lemma read_tls_loop_pulls (fuel : nat) (len : Z) (rv : apr_status_t)
    (block : apr_read_type_e) (passed : Z) (st : ctx) :
  exists ev,
    trace (final_ctx (read_tls_loop X fuel len rv block passed st)) = trace st ++ ev
    /\ pulls_follow block ev = true.
Proof.
  revert rv block passed st.
  induction fuel as [|fuel IH]; intros rv block passed st; cbn [read_tls_loop];
    [pulls_now|].
  destruct (fin_tls_bb st) as [|b rest]; [pulls_now|].
  destruct (negb (passed <? len)); [pulls_now|].
  destruct (APR_BUCKET_IS_EOS b).
  { cbv zeta. cbn [fin_tls_buffer_bb log set_trace].
    destruct (fin_tls_buffer_bb st); pulls_now. }
  destruct (apr_bucket_read b block) as [[[rv1 data] b1] behind].
  destruct (APR_STATUS_IS_EOF rv1); [pulls_then IH|].
  destruct (negb (apr_status_eqb APR_SUCCESS rv1)); [pulls_now|].
  destruct (0 <? blen data); [|pulls_then IH].
  destruct (session_read_tls_inv data
              (log (EvBucketRead block) (set_fin_tls_bb (b1 :: behind ++ rest) st)))
    as [->|(rr & rlen & s' & ->)]; cbn [bind]; [pulls_now|].
  destruct (negb (rustls_ok rr)); [pulls_now|].
  cbn [fin_tls_buffer_bb log set_trace set_cc_rustls_session set_fin_tls_bb].
  destruct (fin_tls_buffer_bb st); destruct (rlen >=? blen data); pulls_then IH.
Qed.

Lemma read_tls_body_pulls (fuel : nat) (len : Z) (st : ctx) :
  exists ev,
    trace (final_ctx (read_tls_body X fuel len st)) = trace st ++ ev
    /\ pulls_follow (fin_block st) ev = true.
Proof.
  unfold read_tls_body.
  assert (Htail : forall (st0 : ctx)
                    (o : outcome E N (flow * apr_status_t * rustls_result * Z)),
             (exists ev, trace (final_ctx o) = trace st0 ++ ev
                         /\ pulls_follow (fin_block st) ev = true) ->
             exists ev,
               trace (final_ctx
                        (call ((fl, rv, rr, passed), st2) <- o;
                         match fl with
                         | GotoCleanup => Returns (rv, rr, passed) st2
                         | Fallthrough =>
                             if 0 <? passed then
                               call (rr', st3) <- session_process_new_packets X st2;
                               Returns (rv, rr', passed) st3
                             else Returns (rv, rr, passed) st2
                         end)) = trace st0 ++ ev
               /\ pulls_follow (fin_block st) ev = true).
  { intros st0 o [ev [Ht Hp]].
    destruct o as [[[[fl rv] rr] passed] st2| |]; cbn [bind final_ctx] in *;
      try (exists ev; auto; fail).
    destruct fl; [|exists ev; auto].
    destruct (0 <? passed); [|exists ev; auto].
    unfold session_process_new_packets, with_session.
    destruct (cc_rustls_session st2) as [s|]; [|exists ev; auto].
    destruct (rustls_server_session_process_new_packets X s) as [rr' s'].
    cbn. exists (ev ++ [EvProcessNewPackets]). split.
    - rewrite Ht, app_assoc. reflexivity.
    - rewrite pulls_follow_snoc by reflexivity. exact Hp. }
  destruct (fin_tls_bb st) as [|b rest] eqn:Hbb.
  - unfold next_get_brigade.
    destruct (ap_get_brigade X (next st) AP_MODE_READBYTES (fin_block st) len)
      as [[rv got] n'].
    destruct (negb (apr_status_eqb APR_SUCCESS rv)).
    + cbn [bind]. pulls_now.
    + apply Htail.
      eapply pulls_chain; cycle 2.
      * apply (read_tls_loop_pulls fuel len rv (fin_block st) 0).
      * cbn. reflexivity.
      * intros ev Hev. cbn. rewrite apr_read_type_eqb_refl. exact Hev.
  - apply Htail. apply read_tls_loop_pulls.
Qed.

Lemma read_tls_to_rustls_pulls (fuel : nat) (len : Z) (st : ctx) :
  exists ev,
    trace (final_ctx (read_tls_to_rustls X fuel len st)) = trace st ++ ev
    /\ pulls_follow (fin_block st) ev = true.
Proof.
  destruct (read_tls_body_pulls fuel len st) as [ev [Ht Hp]].
  exists ev. split; [|exact Hp].
  unfold read_tls_to_rustls. rewrite final_ctx_bind.
  destruct (read_tls_body X fuel len st) as [[[rv rr] passed] st1| |];
    cbn [final_ctx] in *; exact Ht.
Qed.

(** *** End of stream in [read_tls_to_rustls] *)

Lemma read_tls_loop_at_eos (fuel : nat) (len : Z) (rv : apr_status_t)
    (block : apr_read_type_e) (passed : Z) (st : ctx) (rest : apr_bucket_brigade) :
  fin_tls_bb st = BUCKET_EOS :: rest ->
  passed < len ->
  read_tls_loop X (Datatypes.S fuel) len rv block passed st
  = match fin_tls_buffer_bb st with
    | None => Faults FaultNull (log EvEndOfStream st)
    | Some _ =>
        Returns (GotoCleanup, APR_EOF, RUSTLS_RESULT_OK, passed)
                (set_fin_tls_buffer_bb (Some []) (log EvEndOfStream st))
    end.
Proof.
  intros Hbb Hlt. cbn [read_tls_loop]. rewrite Hbb.
  assert (Hc : (passed <? len) = true) by (apply Z.ltb_lt; exact Hlt).
  rewrite Hc. reflexivity.
Qed.

(** Behind the label [cleanup], end of stream without an error of the
    engine is a success when bytes were passed and stays end of stream when
    none were. *)
Lemma read_tls_cleanup_eof (fb : apr_read_type_e) (passed : Z) :
  read_tls_cleanup fb APR_EOF RUSTLS_RESULT_OK passed
  = if 0 <? passed then APR_SUCCESS else APR_EOF.
Proof. unfold read_tls_cleanup. cbn. destruct (0 <? passed); reflexivity. Qed.

(** End of stream reported by the filters below as a status, with nothing
    buffered: it is handed on. *)
Lemma read_tls_to_rustls_eof_status (fuel : nat) (len : Z) (st : ctx)
    (got : apr_bucket_brigade) (n' : N) :
  fin_tls_bb st = [] ->
  ap_get_brigade X (next st) AP_MODE_READBYTES (fin_block st) len = (APR_EOF, got, n') ->
  returned (read_tls_to_rustls X fuel len st) = Some APR_EOF.
Proof.
  intros Hbb Hget. unfold read_tls_to_rustls, read_tls_body, next_get_brigade.
  rewrite Hbb, Hget. reflexivity.
Qed.

(** *** The terminal phase *)

Lemma filter_abort_done (fuel : nat) (st : ctx) :
  cc_state st = TLS_CONN_ST_DONE ->
  filter_abort X fuel st = Returns APR_ECONNABORTED st.
Proof. intros Hs. unfold filter_abort. rewrite Hs. reflexivity. Qed.

Lemma filter_abort_returns (fuel : nat) (st st' : ctx) (rv : apr_status_t) :
  filter_abort X fuel st = Returns rv st' ->
  rv = APR_ECONNABORTED /\ cc_state st' = TLS_CONN_ST_DONE
  /\ (cc_state st <> TLS_CONN_ST_DONE -> c_aborted st' = true).
Proof.
  unfold filter_abort.
  destruct (tls_conn_state_eqb_spec (cc_state st) TLS_CONN_ST_DONE) as [Hd|Hd];
    cbn [negb].
  - intros H. injection H as <- <-. auto.
  - destruct (session_send_close_notify X st) as [u st1| |]; cbn [bind];
      try discriminate.
    destruct (flush_tls_from_rustls X fuel st1) as [rv2 st2| |]; cbn [bind];
      try discriminate.
    intros H. injection H as <- <-. cbn. auto.
Qed.

(** *** Runs that return *)

Lemma bind_returns_inv {A B : Type} (m : outcome E N A)
    (k : A -> ctx -> outcome E N B) (b : B) (st' : ctx) :
  bind m k = Returns b st' ->
  exists a s, m = Returns a s /\ k a s = Returns b st'.
Proof.
  destruct m as [a s| |]; cbn; try discriminate.
  intros H. exists a, s. auto.
Qed.

Lemma returns_final {A : Type} (R : ctx -> ctx -> Prop) (st : ctx)
    (o : outcome E N A) (a : A) (st' : ctx) :
  R st (final_ctx o) -> o = Returns a st' -> R st st'.
Proof. intros H ->. exact H. Qed.









(** *** Which data segments go to the engine without a copy *)



(** On a fresh connection a segment of one byte more than
    [TLS_PREF_WRITE_SIZE] is below the capacity of the buffer, which is
    twice that size, and passes the test of the code all the same. *)
Lemma zero_copy_below_capacity (aborted : bool) (state : tls_conn_state_t)
    (s : E) (below : N) (d : bytes) :
  2 <= TLS_PREF_WRITE_SIZE X ->
  blen d = TLS_PREF_WRITE_SIZE X + 1 ->
  let st := tls_filter_conn_init X aborted state s below in
  spec_zero_copy st (BUCKET_HEAP d) = false /\ code_zero_copy X st d = true.
Proof.
  intros HP Hd st. unfold spec_zero_copy, code_zero_copy, st, tls_filter_conn_init.
  cbn [fout_buf_plain_len fout_buf_plain_size bucket_length].
  rewrite Hd. change (0 =? 0) with true. cbn [andb]. split.
  - rewrite Z.geb_leb. apply Z.leb_gt. lia.
  - apply orb_true_iff. right. rewrite Z.gtb_ltb. apply Z.ltb_lt. lia.
Qed.

(** [fout_plain_buf_append] takes the bucket in with the space there is,
    and when there is none, with the space that the write of the buffer to
    the engine has made. *)
Lemma fout_plain_buf_append_takes (b : apr_bucket) (st : ctx) :
  buf_ok st ->
  bucket_length b <> SIZE_UNKNOWN ->
  (fout_buf_plain_len st < fout_buf_plain_size st ->
   fout_plain_buf_append X b st
   = fout_plain_buf_take X b (bucket_length b)
       (fout_buf_plain_size st - fout_buf_plain_len st) st)
  /\ (fout_buf_plain_len st = fout_buf_plain_size st ->
      forall st1,
        fout_plain_buf_to_rustls X st = Returns APR_SUCCESS st1 ->
        0 < fout_buf_plain_size st1 - fout_buf_plain_len st1 ->
        fout_plain_buf_append X b st
        = fout_plain_buf_take X b (bucket_length b)
            (fout_buf_plain_size st1 - fout_buf_plain_len st1) st1).
Proof.
  intros Hok Hlen.
  assert (Hu : (bucket_length b =? SIZE_UNKNOWN) = false) by (apply Z.eqb_neq; exact Hlen).
  split.
  - intros Hspace. unfold fout_plain_buf_append, fout_plain_buf_room. rewrite Hu.
    rewrite size_wrap_small by (unfold buf_ok in Hok; lia).
    assert (Hz : (fout_buf_plain_size st - fout_buf_plain_len st =? 0) = false)
      by (apply Z.eqb_neq; lia).
    rewrite Hz. reflexivity.
  - intros Hfull st1 Hflush Hpos.
    unfold fout_plain_buf_append, fout_plain_buf_room. rewrite Hu.
    replace (fout_buf_plain_size st - fout_buf_plain_len st) with 0 by lia.
    change (size_wrap 0 =? 0) with true. cbv iota. rewrite Hflush. cbn [bind].
    pose proof (fout_plain_buf_to_rustls_keeps st Hok) as Hk.
    rewrite Hflush in Hk. cbn [final_ctx] in Hk. destruct Hk as [_ Hok1].
    rewrite size_wrap_small by (unfold buf_ok in Hok1; lia).
    assert (Hp : (0 <? fout_buf_plain_size st1 - fout_buf_plain_len st1) = true)
      by (apply Z.ltb_lt; exact Hpos).
    rewrite Hp. reflexivity.
Qed.

(** *** A marker behind buffered plaintext *)

Lemma fout_plain_buf_to_rustls_drains (st st' : ctx) (rv : apr_status_t) :
  engine_accepts_all X ->
  buf_ok st ->
  fout_buf_plain_len st <= blen (fout_buf_plain st) ->
  fout_plain_buf_to_rustls X st = Returns rv st' ->
  rv = APR_SUCCESS /\ fout_buf_plain_len st' = 0
  /\ fout_tls_bb st' = fout_tls_bb st /\ cc_state st' = cc_state st.
Proof.
  intros Hacc Hok Hmem H. unfold fout_plain_buf_to_rustls in H.
  destruct (0 <? fout_buf_plain_len st) eqn:Hpos.
  2: { injection H as <- <-. zbool. unfold buf_ok in Hok. repeat split. lia. }
  unfold session_write, with_session in H.
  destruct (cc_rustls_session st) as [s|]; [|discriminate].
  destruct (Hacc s (firstn (Z.to_nat (fout_buf_plain_len st)) (fout_buf_plain st)))
    as (n & s' & Hw & Hn).
  rewrite Hw in H. cbn [bind rustls_ok negb] in H.
  cbn [fout_buf_plain_len set_fout_bytes_in_rustls log set_trace set_cc_rustls_session] in H.
  assert (Hge : (size_wrap n >=? fout_buf_plain_len st) = true).
  { rewrite Z.geb_leb. apply Z.leb_le.
    unfold blen in Hn, Hmem. rewrite length_firstn in Hn. zbool. lia. }
  rewrite Hge in H. injection H as <- <-. cbn. auto.
Qed.

(** With such an engine the claim about markers holds of one turn of the
    loop: when the marker [b] is taken, the plaintext buffer is empty and
    [b] is the last bucket of the queue to the network. *)
Lemma conn_output_bucket_marker_in_order (fuel : nat) (b : apr_bucket)
    (rest : apr_bucket_brigade) (passed : Z) (st st' : ctx)
    (rv : apr_status_t) (bb' : apr_bucket_brigade) (passed' : Z) :
  engine_accepts_all X ->
  buf_ok st ->
  fout_buf_plain_len st <= blen (fout_buf_plain st) ->
  APR_BUCKET_IS_METADATA b = true ->
  conn_output_bucket X fuel b rest passed st = Returns (StepNext, rv, bb', passed') st' ->
  fout_buf_plain_len st' = 0
  /\ bb' = rest
  /\ (exists queue, fout_tls_bb st' = fout_tls_bb st ++ queue ++ [b])
  /\ (AP_BUCKET_IS_EOC b = true -> cc_state st' = TLS_CONN_ST_NOTIFIED).
Proof.
  intros Hacc Hok Hmem Hmeta H. unfold conn_output_bucket in H. rewrite Hmeta in H.
  apply bind_returns_inv in H. destruct H as (u & st1 & H1 & H).
  assert (Hst1 : (buf_ok st1 /\ fout_buf_plain_len st1 <= blen (fout_buf_plain st1))
                 /\ fout_tls_bb st1 = fout_tls_bb st
                 /\ (AP_BUCKET_IS_EOC b = true -> cc_state st1 = TLS_CONN_ST_NOTIFIED)).
  { destruct (AP_BUCKET_IS_EOC b).
    - apply bind_returns_inv in H1. destruct H1 as (u1 & s1 & Hcn & H1).
      injection H1 as _ <-.
      unfold session_send_close_notify, with_session in Hcn.
      destruct (cc_rustls_session st); [|discriminate].
      injection Hcn as _ <-. unfold buf_ok in *. cbn. auto.
    - injection H1 as _ <-. split; [auto|]. split; [reflexivity|discriminate]. }
  destruct Hst1 as ((Hok1 & Hmem1) & Hbb1 & Hst1).
  apply bind_returns_inv in H. destruct H as (rv2 & st2 & H2 & H).
  destruct (fout_plain_buf_to_rustls_drains _ _ _ Hacc Hok1 Hmem1 H2)
    as (-> & Hlen2 & Hbb2 & Hs2).
  cbn [apr_status_eqb negb] in H.
  apply bind_returns_inv in H. destruct H as (rv3 & st3 & H3 & H).
  pose proof (returns_final calm st2 _ _ _ (brigade_tls_from_rustls_calm fuel st2) H3)
    as (Hb & _ & Hs3 & _).
  assert (Hq : exists queue, fout_tls_bb st3 = fout_tls_bb st2 ++ queue).
  { clear - H3. unfold brigade_tls_from_rustls in H3.
    apply bind_returns_inv in H3. destruct H3 as (ww & s0 & Hww & H3).
    unfold session_wants_write, with_session in Hww.
    destruct (cc_rustls_session st2); [|discriminate]. injection Hww as _ <-.
    destruct ww.
    2: { injection H3 as _ <-. exists []. symmetry. apply app_nil_r. }
    apply bind_returns_inv in H3. destruct H3 as (rr & s1 & Hloop & H3).
    assert (Hl : exists queue, fout_tls_bb s1 = fout_tls_bb st2 ++ queue).
    { clear H3. revert rr s1 Hloop. generalize st2 as s2.
      induction fuel as [|fuel IH]; intros s2 rr s1 Hloop; cbn [brigade_tls_loop] in Hloop;
        [discriminate|].
      apply bind_returns_inv in Hloop. destruct Hloop as ([rr1 got] & s3 & Hw & Hloop).
      unfold session_write_tls, with_session in Hw.
      destruct (cc_rustls_session s2) as [e2|]; [|discriminate].
      destruct (rustls_server_session_write_tls X e2 _) as [[rr2 got2] e'].
      injection Hw as <- <- <-.
      destruct (negb (rustls_ok rr2)).
      - injection Hloop as _ <-. exists []. cbn. symmetry. apply app_nil_r.
      - apply bind_returns_inv in Hloop. destruct Hloop as (again & s4 & Hag & Hloop).
        unfold session_wants_write, with_session in Hag. cbn in Hag.
        injection Hag as _ <-.
        destruct again.
        + apply IH in Hloop. destruct Hloop as [q Hq]. cbn in Hq.
          exists ([BUCKET_HEAP got2] ++ q). rewrite Hq, app_assoc. reflexivity.
        + injection Hloop as _ <-. cbn. eexists. reflexivity. }
    destruct Hl as [q Hq]. exists q.
    revert H3. destruct (negb (rustls_ok rr)); intros H3; injection H3 as _ <-; cbn;
      exact Hq. }
  destruct rv3; cbn [negb] in H; try discriminate H.
  injection H as _ <- _ <-. cbn.
  destruct Hb as (_ & Hlen3 & _). destruct Hq as [q Hq].
  split; [congruence|]. split; [reflexivity|]. split.
  - exists q. rewrite Hq, Hbb2, Hbb1, app_assoc. reflexivity.
  - intros He. rewrite Hs3, Hs2. auto.
Qed.

(** With the replay buffer in place, as in the sniffing phase, an
    end-of-stream bucket at the head of the queue ends the call with
    [APR_EOF]; behind a data bucket that the engine took, with
    [APR_SUCCESS]. *)
Lemma read_tls_to_rustls_eos_with_buffer (fuel : nat) (len : Z) (st : ctx)
    (rest buf : apr_bucket_brigade) :
  fin_tls_bb st = BUCKET_EOS :: rest ->
  fin_tls_buffer_bb st = Some buf ->
  0 < len ->
  read_tls_to_rustls X (Datatypes.S fuel) len st
  = Returns APR_EOF (set_fin_tls_buffer_bb (Some []) (log EvEndOfStream st)).
Proof.
  intros Hbb Hbuf Hlen. unfold read_tls_to_rustls, read_tls_body. rewrite Hbb.
  rewrite (read_tls_loop_at_eos fuel len APR_SUCCESS (fin_block st) 0 st rest Hbb Hlen).
  rewrite Hbuf. cbn [bind]. rewrite read_tls_cleanup_eof. reflexivity.
Qed.

Lemma read_tls_to_rustls_eos_after_data (fuel : nat) (len : Z) (st : ctx)
    (d : bytes) (rest buf : apr_bucket_brigade) (s s' : E) (n : Z) :
  fin_tls_bb st = BUCKET_HEAP d :: BUCKET_EOS :: rest ->
  fin_tls_buffer_bb st = Some buf ->
  cc_rustls_session st = Some s ->
  rustls_server_session_read_tls X s d = (RUSTLS_RESULT_OK, n, s') ->
  0 < blen d <= size_wrap n ->
  size_wrap n < len ->
  returned (read_tls_to_rustls X (Datatypes.S (Datatypes.S fuel)) len st) = Some APR_SUCCESS.
Proof.
  intros Hbb Hbuf Hs Hread Hd Hlen.
  unfold read_tls_to_rustls, read_tls_body. rewrite Hbb.
  remember (Datatypes.S fuel) as fuel1 eqn:Hfuel.
  cbn [read_tls_loop]. rewrite Hbb.
  assert (H0 : (0 <? len) = true) by (apply Z.ltb_lt; lia).
  rewrite H0. cbn [negb APR_BUCKET_IS_EOS apr_bucket_read APR_STATUS_IS_EOF apr_status_eqb].
  assert (Hpos : (0 <? blen d) = true) by (apply Z.ltb_lt; lia).
  rewrite Hpos. unfold session_read_tls, with_session.
  cbn -[read_tls_loop size_wrap blen Z.ltb Z.geb Z.add]. rewrite Hs, Hread.
  cbn -[read_tls_loop size_wrap blen Z.ltb Z.geb Z.add]. rewrite Hbuf.
  assert (Hge : (size_wrap n >=? blen d) = true) by (rewrite Z.geb_leb; apply Z.leb_le; lia).
  rewrite Hge. subst fuel1.
  match goal with
  | |- context [read_tls_loop X (Datatypes.S fuel) len ?rv ?bl ?p ?st'] =>
      rewrite (read_tls_loop_at_eos fuel len rv bl p st' rest eq_refl) by lia
  end.
  cbn -[size_wrap blen Z.ltb Z.geb Z.add read_tls_cleanup].
  rewrite read_tls_cleanup_eof.
  assert (Hp : (0 <? 0 + size_wrap n) = true) by (apply Z.ltb_lt; lia).
  rewrite Hp. reflexivity.
Qed.

(** Without the replay buffer, as in every phase behind the sniffing, the
    end-of-stream bucket is a fault. *)
Lemma read_tls_to_rustls_eos_without_buffer (fuel : nat) (len : Z) (st : ctx)
    (rest : apr_bucket_brigade) :
  fin_tls_bb st = BUCKET_EOS :: rest ->
  fin_tls_buffer_bb st = None ->
  0 < len ->
  read_tls_to_rustls X (Datatypes.S fuel) len st = Faults FaultNull (log EvEndOfStream st).
Proof.
  intros Hbb Hbuf Hlen. unfold read_tls_to_rustls, read_tls_body. rewrite Hbb.
  rewrite (read_tls_loop_at_eos fuel len APR_SUCCESS (fin_block st) 0 st rest Hbb Hlen).
  rewrite Hbuf. reflexivity.
Qed.

(** *** The replay buffer of the sniffing phase *)

Lemma brigade_bytes_app (a b : apr_bucket_brigade) :
  brigade_bytes (a ++ b) = brigade_bytes a ++ brigade_bytes b.
Proof. unfold brigade_bytes. apply flat_map_app. Qed.

Lemma no_eos_app (a b : list event) : no_eos (a ++ b) = no_eos a && no_eos b.
Proof. unfold no_eos. apply forallb_app. Qed.

Lemma records_chain {A : Type} (st st' : ctx) (o : outcome E N A)
    (ev0 : list event) (bytes0 : bytes) (buf1 : apr_bucket_brigade) :
  trace st' = trace st ++ ev0 ->
  fin_tls_buffer_bb st' = Some buf1 ->
  brigade_bytes buf1 = bytes0 ++ flat_map tls_fed ev0 ->
  (exists ev, trace (final_ctx o) = trace st' ++ ev
              /\ records_fed (brigade_bytes buf1) (final_ctx o) ev) ->
  exists ev, trace (final_ctx o) = trace st ++ ev /\ records_fed bytes0 (final_ctx o) ev.
Proof.
  intros Ht Hbuf Hbytes [ev [He Hrec]]. exists (ev0 ++ ev). split.
  - rewrite He, Ht, app_assoc. reflexivity.
  - intros Hno. rewrite no_eos_app in Hno. apply andb_true_iff in Hno.
    destruct Hno as [_ Hno]. destruct (Hrec Hno) as [buf' [Hb' Hbb]].
    exists buf'. split; [exact Hb'|].
    rewrite Hbb, Hbytes, flat_map_app, app_assoc. reflexivity.
Qed.

Lemma records_done (st st' : ctx) (ev0 : list event) (bytes0 : bytes) :
  trace st' = trace st ++ ev0 ->
  records_fed bytes0 st' ev0 ->
  exists ev, trace st' = trace st ++ ev /\ records_fed bytes0 st' ev.
Proof. intros Ht Hr. exists ev0. auto. Qed.

Ltac trace_eq :=
  cbn; rewrite <- ?app_assoc; first [reflexivity|symmetry; apply app_nil_r].

(** The run ends here, with the buffer [buf] as it was. *)
Ltac records_now Hbuf :=
  cbn [final_ctx];
  eapply records_done;
  [ trace_eq
  | intros Hno; first
      [ discriminate Hno
      | eexists; split; [cbn; exact Hbuf|cbn; rewrite ?app_nil_r; reflexivity] ] ].

(** The run goes on from a context with the buffer as it was. *)
Ltac records_then IH Hbuf :=
  eapply records_chain; cycle 3;
  [ eapply IH; cbn; exact Hbuf
  | trace_eq
  | cbn; exact Hbuf
  | cbn; rewrite ?app_nil_r; reflexivity ].

Lemma read_tls_loop_records (fuel : nat) (len : Z) (rv : apr_status_t)
    (block : apr_read_type_e) (passed : Z) (st : ctx) (buf : apr_bucket_brigade) :
  fin_tls_buffer_bb st = Some buf ->
  exists ev,
    trace (final_ctx (read_tls_loop X fuel len rv block passed st)) = trace st ++ ev
    /\ records_fed (brigade_bytes buf)
         (final_ctx (read_tls_loop X fuel len rv block passed st)) ev.
Proof.
  revert rv block passed st buf.
  induction fuel as [|fuel IH]; intros rv block passed st buf Hbuf; cbn [read_tls_loop];
    [records_now Hbuf|].
  destruct (fin_tls_bb st) as [|b rest]; [records_now Hbuf|].
  destruct (negb (passed <? len)); [records_now Hbuf|].
  destruct (APR_BUCKET_IS_EOS b).
  { cbv zeta. cbn [fin_tls_buffer_bb log set_trace]. rewrite Hbuf. records_now Hbuf. }
  destruct (apr_bucket_read b block) as [[[rv1 data] b1] behind].
  destruct (APR_STATUS_IS_EOF rv1); [records_then IH Hbuf|].
  destruct (negb (apr_status_eqb APR_SUCCESS rv1)); [records_now Hbuf|].
  destruct (0 <? blen data); [|records_then IH Hbuf].
  destruct (session_read_tls_inv data
              (log (EvBucketRead block) (set_fin_tls_bb (b1 :: behind ++ rest) st)))
    as [->|(rr & rlen & s' & ->)]; cbn [bind]; [records_now Hbuf|].
  destruct rr as [|code]; cbn [rustls_ok negb]; [|records_now Hbuf].
  cbn [fin_tls_buffer_bb log set_trace set_cc_rustls_session set_fin_tls_bb].
  rewrite Hbuf.
  destruct (rlen >=? blen data);
    (eapply records_chain; cycle 3;
     [ eapply IH; cbn; reflexivity
     | trace_eq
     | cbn; reflexivity
     | rewrite brigade_bytes_app; cbn; rewrite ?app_nil_r; reflexivity ]).
Qed.

Lemma read_tls_to_rustls_records (fuel : nat) (len : Z) (st : ctx)
    (buf : apr_bucket_brigade) :
  fin_tls_buffer_bb st = Some buf ->
  exists ev,
    trace (final_ctx (read_tls_to_rustls X fuel len st)) = trace st ++ ev
    /\ records_fed (brigade_bytes buf) (final_ctx (read_tls_to_rustls X fuel len st)) ev.
Proof.
  intros Hbuf.
  assert (Hbody : exists ev,
             trace (final_ctx (read_tls_body X fuel len st)) = trace st ++ ev
             /\ records_fed (brigade_bytes buf) (final_ctx (read_tls_body X fuel len st)) ev).
  { unfold read_tls_body.
    assert (Htail : forall (st0 : ctx) (bytes0 : bytes)
                      (o : outcome E N (flow * apr_status_t * rustls_result * Z)),
               (exists ev, trace (final_ctx o) = trace st0 ++ ev
                           /\ records_fed bytes0 (final_ctx o) ev) ->
               exists ev,
                 trace (final_ctx
                          (call ((fl, rv, rr, passed), st2) <- o;
                           match fl with
                           | GotoCleanup => Returns (rv, rr, passed) st2
                           | Fallthrough =>
                               if 0 <? passed then
                                 call (rr', st3) <- session_process_new_packets X st2;
                                 Returns (rv, rr', passed) st3
                               else Returns (rv, rr, passed) st2
                           end)) = trace st0 ++ ev
                 /\ records_fed bytes0
                      (final_ctx
                         (call ((fl, rv, rr, passed), st2) <- o;
                          match fl with
                          | GotoCleanup => Returns (rv, rr, passed) st2
                          | Fallthrough =>
                              if 0 <? passed then
                                call (rr', st3) <- session_process_new_packets X st2;
                                Returns (rv, rr', passed) st3
                              else Returns (rv, rr, passed) st2
                          end)) ev).
    { intros st0 bytes0 o [ev [Ht Hp]].
      destruct o as [[[[fl rv] rr] passed] st2| |]; cbn [bind final_ctx] in *;
        try (exists ev; auto; fail).
      destruct fl; [|exists ev; auto].
      destruct (0 <? passed); [|exists ev; auto].
      unfold session_process_new_packets, with_session.
      destruct (cc_rustls_session st2) as [s|]; [|exists ev; auto].
      destruct (rustls_server_session_process_new_packets X s) as [rr' s'].
      cbn. exists (ev ++ [EvProcessNewPackets]). split.
      - rewrite Ht, app_assoc. reflexivity.
      - intros Hno. rewrite no_eos_app in Hno. apply andb_true_iff in Hno.
        destruct (Hp (proj1 Hno)) as [buf' [Hb Hbb]]. exists buf'.
        split; [exact Hb|]. rewrite flat_map_app. cbn. rewrite app_nil_r. exact Hbb. }
    destruct (fin_tls_bb st) as [|b rest] eqn:Hbb.
    - unfold next_get_brigade.
      destruct (ap_get_brigade X (next st) AP_MODE_READBYTES (fin_block st) len)
        as [[rv got] n'].
      destruct (negb (apr_status_eqb APR_SUCCESS rv)).
      + cbn [bind]. records_now Hbuf.
      + apply Htail. records_then read_tls_loop_records Hbuf.
    - apply Htail. apply read_tls_loop_records. exact Hbuf. }
  destruct Hbody as [ev [Ht Hp]]. exists ev.
  unfold read_tls_to_rustls. rewrite final_ctx_bind.
  destruct (read_tls_body X fuel len st) as [[[rv rr] passed] st1| |];
    cbn [final_ctx] in *; auto.
Qed.

Lemma pre_handshake_loop_records (fuel loops : nat) (st : ctx) (buf : apr_bucket_brigade) :
  fin_tls_buffer_bb st = Some buf ->
  exists ev,
    trace (final_ctx (pre_handshake_loop X fuel loops st)) = trace st ++ ev
    /\ records_fed (brigade_bytes buf) (final_ctx (pre_handshake_loop X fuel loops st)) ev.
Proof.
  revert st buf. induction loops as [|loops IH]; intros st buf Hbuf;
    cbn [pre_handshake_loop]; [records_now Hbuf|].
  unfold session_wants_read, with_session.
  destruct (cc_rustls_session st) as [s|]; [|records_now Hbuf].
  cbn [bind].
  destruct (rustls_server_session_wants_read X s).
  - destruct (read_tls_to_rustls_records fuel (fin_max_in_rustls st) st buf Hbuf)
      as [ev [Ht Hrec]].
    destruct (read_tls_to_rustls X fuel (fin_max_in_rustls st) st) as [rv st1| |];
      cbn [bind final_ctx] in *; try (exists ev; auto; fail).
    assert (Hend : forall fl rv',
               exists ev',
                 trace (final_ctx (Returns (A := flow * apr_status_t) (fl, rv') st1))
                 = trace st ++ ev'
                 /\ records_fed (brigade_bytes buf)
                      (final_ctx (Returns (A := flow * apr_status_t) (fl, rv') st1)) ev').
    { intros fl rv'. exists ev. auto. }
    assert (Hgo : exists ev',
               trace (final_ctx (pre_handshake_loop X fuel loops st1)) = trace st ++ ev'
               /\ records_fed (brigade_bytes buf)
                    (final_ctx (pre_handshake_loop X fuel loops st1)) ev').
    { destruct (no_eos ev) eqn:Hno.
      - destruct (Hrec Hno) as [buf1 [Hb1 Hbb1]].
        destruct (IH st1 buf1 Hb1) as [ev1 [Ht1 Hrec1]].
        exists (ev ++ ev1). split; [rewrite Ht1, Ht, app_assoc; reflexivity|].
        intros Hno2. rewrite no_eos_app in Hno2. apply andb_true_iff in Hno2.
        destruct (Hrec1 (proj2 Hno2)) as [buf2 [Hb2 Hbb2]].
        exists buf2. split; [exact Hb2|].
        rewrite Hbb2, Hbb1, flat_map_app, app_assoc. reflexivity.
      - destruct (calm_extends _ _ (pre_handshake_loop_calm fuel loops st1)) as [ev1 Ht1].
        exists (ev ++ ev1). split; [rewrite Ht1, Ht, app_assoc; reflexivity|].
        intros Hno2. rewrite no_eos_app, Hno in Hno2. discriminate. }
    destruct (negb (apr_status_eqb APR_SUCCESS rv)).
    + destruct (cc_client_hello_seen X st1); cbn [bind]; apply Hend.
    + cbn [bind]. destruct (negb (cc_client_hello_seen X st1)); [exact Hgo|apply Hend].
  - cbn [bind].
    destruct (negb (cc_client_hello_seen X st)); [apply IH; exact Hbuf|records_now Hbuf].
Qed.

(** Within one call, the sniffing replays what it fed: when
    [filter_do_pre_handshake] has put the final session in place, the queue
    for the engine starts with the bytes that this call fed to the
    provisional engine, unless an end-of-stream bucket was met, and goes on
    with the buckets that were not yet consumed. *)
Lemma filter_do_pre_handshake_replays (fuel : nat) (st st' : ctx) (s : E) :
  cc_rustls_session st = Some s ->
  rustls_server_session_is_handshaking X s = true ->
  filter_do_pre_handshake X fuel st = Returns APR_SUCCESS st' ->
  exists ev replay unconsumed,
    trace st' = trace st ++ ev ++ [EvInitServer]
    /\ fin_tls_bb st' = replay ++ unconsumed
    /\ fin_tls_buffer_bb st' = None
    /\ (no_eos ev = true -> brigade_bytes replay = flat_map tls_fed ev).
Proof.
  intros Hs Hhs H. unfold filter_do_pre_handshake in H.
  unfold session_is_handshaking, with_session in H. rewrite Hs, Hhs in H.
  cbn [bind] in H.
  apply bind_returns_inv in H. destruct H as (rv9 & st9 & H9 & H).
  assert (Hrv9 : rv9 = APR_SUCCESS /\ st9 = st').
  { revert H.
    destruct (negb (apr_status_eqb APR_SUCCESS rv9) && negb (APR_STATUS_IS_EAGAIN rv9))
      eqn:Hc; intros H.
    - apply filter_abort_returns in H. destruct H as [H _]. discriminate H.
    - injection H as -> ->. auto. }
  destruct Hrv9 as [-> ->]. clear H.
  apply bind_returns_inv in H9. destruct H9 as ([fl rv] & st2 & Hloop & H9).
  destruct (pre_handshake_loop_records fuel fuel (set_fin_tls_buffer_bb (Some []) st) []
              eq_refl) as [ev [Ht Hrec]].
  rewrite Hloop in Ht, Hrec. cbn [final_ctx] in Ht, Hrec.
  destruct fl.
  2: { injection H9 as -> ->.
       (* the loop left for [cleanup] with a success: it cannot *)
       exfalso. clear - Hloop.
       assert (Hno : forall loops st0 st1,
                  pre_handshake_loop X fuel loops st0
                  <> Returns (GotoCleanup, APR_SUCCESS) st1).
       { induction loops as [|loops IH]; intros st0 st1; cbn [pre_handshake_loop];
           [discriminate|].
         intros H. apply bind_returns_inv in H. destruct H as (wr & s0 & _ & H).
         apply bind_returns_inv in H. destruct H as ([step rv] & s1 & Hstep & H).
         destruct wr.
         - apply bind_returns_inv in Hstep. destruct Hstep as (rv1 & s2 & _ & Hstep).
           destruct (apr_status_eqb_spec APR_SUCCESS rv1) as [<-|Hne]; cbn [negb] in Hstep.
           + injection Hstep as <- <- <-.
             destruct (negb (cc_client_hello_seen X s2)); [eapply IH; exact H|discriminate].
           + destruct (cc_client_hello_seen X s2); injection Hstep as <- <- <-.
             * discriminate.
             * injection H as H _. congruence.
         - injection Hstep as <- <- <-.
           destruct (negb (cc_client_hello_seen X s0)); [eapply IH; exact H|discriminate]. }
       eapply Hno; exact Hloop. }
  apply bind_returns_inv in H9. destruct H9 as (rv2 & st3 & Hinit & H9).
  unfold core_conn_init_server, with_session in Hinit.
  destruct (cc_rustls_session st2) as [s2|]; [|discriminate].
  destruct (tls_core_conn_init_server X s2) as [rv3 s3].
  injection Hinit as Hst3 Hrv3. subst rv2 st3.
  destruct (apr_status_eqb_spec APR_SUCCESS rv3) as [<-|Hne]; cbn [negb] in H9;
    [|injection H9 as Hrv _; congruence].
  cbn [fin_tls_buffer_bb fin_tls_bb log set_trace set_cc_rustls_session] in H9.
  destruct (fin_tls_buffer_bb st2) as [buf|] eqn:Hb2; [|discriminate].
  injection H9 as <-.
  exists ev, buf, (fin_tls_bb st2). cbn.
  split; [rewrite Ht; cbn; rewrite <- app_assoc; reflexivity|].
  split; [reflexivity|]. split; [reflexivity|].
  intros Hno. destruct (Hrec Hno) as [buf' [Hb' Hbb]].
  rewrite Hb2 in Hb'. injection Hb' as <-. exact Hbb.
Qed.

(** *** The claims on general contexts *)


(** C4.  The length of the plaintext buffer never exceeds its capacity: a
    context within the bound stays within it, with the capacity unchanged,
    through every run of the output filter, of [fout_plain_buf_append] and
    of [fout_plain_buf_to_rustls], wherever the run ends; and when no space
    remains, the first thing [fout_plain_buf_append] does is to write the
    buffered bytes to the engine. *)
Theorem fout_buf_plain_len_within_capacity (fuel : nat) (st : ctx) :
  buf_ok st ->
  (forall bb,
      buf_ok (final_ctx (filter_conn_output X fuel bb st))
      /\ fout_buf_plain_size (final_ctx (filter_conn_output X fuel bb st))
         = fout_buf_plain_size st)
  /\ (forall b, buf_ok (final_ctx (fout_plain_buf_append X b st)))
  /\ buf_ok (final_ctx (fout_plain_buf_to_rustls X st))
  /\ (forall b s,
        0 < fout_buf_plain_len st ->
        fout_buf_plain_len st = fout_buf_plain_size st ->
        cc_rustls_session st = Some s ->
        bucket_length b <> SIZE_UNKNOWN ->
        exists rr wlen ev,
          trace (final_ctx (fout_plain_buf_append X b st))
          = trace st
            ++ EvSessionWrite
                 (firstn (Z.to_nat (fout_buf_plain_len st)) (fout_buf_plain st))
                 rr wlen :: ev).
Proof.
  intros Hok. split; [|split; [|split]].
  - intros bb. destruct (filter_conn_output_keeps fuel bb st Hok) as [Hsz Hb]. auto.
  - intros b. apply (fout_plain_buf_append_keeps b st Hok).
  - apply (fout_plain_buf_to_rustls_keeps st Hok).
  - intros b s Hpos Hfull Hs Hlen.
    eapply fout_plain_buf_append_flushes_first; eassumption.
Qed.

(** C5, as amended.  Within one fill attempt, that is one call of
    [read_tls_to_rustls], the brigade is fetched from the filters below with
    the blocking preference of the caller ([fin_block], which
    [filter_conn_input] sets to its argument), the buckets are read with
    that preference until one of them has given data to the engine, and
    every read of a bucket behind that is non-blocking.  The call leaves
    [fin_block] as it is, so that a later fill attempt of the same
    invocation starts with the preference of the caller again. *)
Theorem read_tls_to_rustls_pull_modes (fuel : nat) (len : Z) (st : ctx) :
  (exists ev,
      trace (final_ctx (read_tls_to_rustls X fuel len st)) = trace st ++ ev
      /\ pulls_follow (fin_block st) ev = true)
  /\ fin_block (final_ctx (read_tls_to_rustls X fuel len st)) = fin_block st.
Proof.
  split; [apply read_tls_to_rustls_pulls|].
  apply (read_tls_to_rustls_calm fuel len st).
Qed.

(** C7, as amended.  On a connection in the phase [DONE] a repeated abort
    sends no close-notify and flushes nothing.  When the connection is
    marked aborted, as [filter_abort] leaves it, a write call drops its data
    and returns [APR_ECONNABORTED] without passing anything to the next
    filter, and a read call returns [APR_ECONNABORTED] with the brigade of
    the caller untouched; neither calls the engine nor changes a field of
    the context but the blocking preference that the read call records.  A
    write call passes its data through to the next filter only when the
    connection is in the phase [DONE] without being marked aborted; the
    engine is not called then either. *)
Theorem done_connection_is_left_alone (fuel : nat) (st : ctx) :
  cc_state st = TLS_CONN_ST_DONE ->
  filter_abort X fuel st = Returns APR_ECONNABORTED st
  /\ (c_aborted st = true ->
      (forall bb, filter_conn_output X fuel bb st = Returns (APR_ECONNABORTED, []) st)
      /\ (forall bb mode block readbytes,
             filter_conn_input X fuel bb mode block readbytes st
             = Returns (APR_ECONNABORTED, bb) (set_fin_block block st)))
  /\ (c_aborted st = false ->
      forall bb,
      exists rv aborted remains n',
        ap_pass_brigade X (next st) bb = (rv, aborted, remains, n')
        /\ filter_conn_output X fuel bb st
           = Returns (rv, remains)
               (log (EvPassBrigade bb) (set_c_aborted aborted (set_next n' st)))).
Proof.
  intros Hdone. split; [apply filter_abort_done; exact Hdone|]. split.
  - intros Hab. split.
    + intros bb. unfold filter_conn_output. rewrite Hab. reflexivity.
    + intros bb mode block readbytes. unfold filter_conn_input.
      cbn [c_aborted set_fin_block]. rewrite Hab.
      rewrite filter_abort_done by exact Hdone. reflexivity.
  - intros Hab bb. unfold filter_conn_output, next_pass_brigade. rewrite Hab, Hdone.
    rewrite orb_true_r.
    destruct (ap_pass_brigade X (next st) bb) as [[[rv aborted] remains] n'].
    exists rv, aborted, remains, n'. split; reflexivity.
Qed.


(** *** The events of a run *)

Lemma adds_refl (P : event -> bool) (a : ctx) : adds P a a.
Proof. exists []. rewrite app_nil_r. split; reflexivity. Qed.

Lemma adds_trans (P : event -> bool) (a b c : ctx) :
  adds P a b -> adds P b c -> adds P a c.
Proof.
  intros (e1 & H1 & P1) (e2 & H2 & P2). exists (e1 ++ e2). split.
  - rewrite H2, H1, app_assoc. reflexivity.
  - rewrite forallb_app, P1, P2. reflexivity.
Qed.

Lemma adds_weaken (P Q : event -> bool) (a b : ctx) :
  (forall e, P e = true -> Q e = true) -> adds P a b -> adds Q a b.
Proof.
  intros HPQ (ev & Ht & HP). exists ev. split; [exact Ht|].
  rewrite forallb_forall in *. auto.
Qed.

Lemma drain_is_output (e : event) : is_drain_event e = true -> is_output_event e = true.
Proof. destruct e; cbn; congruence. Qed.

Lemma drain_is_input (e : event) : is_drain_event e = true -> is_input_event e = true.
Proof. destruct e; cbn; congruence. Qed.

Lemma next_pass_brigade_adds (P : event -> bool) (bb : apr_bucket_brigade) (st : ctx)
    (rv : apr_status_t) (remains : apr_bucket_brigade) (st' : ctx) :
  P (EvPassBrigade bb) = true ->
  next_pass_brigade X bb st = (rv, remains, st') -> adds P st st'.
Proof.
  unfold next_pass_brigade.
  destruct (ap_pass_brigade X (next st) bb) as [[[rv0 ab] rem] n'].
  intros HP H. injection H as _ _ <-.
  exists [EvPassBrigade bb]. cbn. rewrite HP. split; reflexivity.
Qed.

Lemma next_get_brigade_adds (P : event -> bool) (mode : ap_input_mode_t)
    (block : apr_read_type_e) (len : Z) (st : ctx)
    (rv : apr_status_t) (got : apr_bucket_brigade) (st' : ctx) :
  P (EvGetBrigade mode block len) = true ->
  next_get_brigade X mode block len st = (rv, got, st') -> adds P st st'.
Proof.
  unfold next_get_brigade.
  destruct (ap_get_brigade X (next st) mode block len) as [[rv0 got0] n'].
  intros HP H. injection H as _ _ <-.
  exists [EvGetBrigade mode block len]. cbn. rewrite HP. split; reflexivity.
Qed.

(** The end of a run differs from the context of the goal by assignments to
    fields and by logged events of the kind asked for. *)
Ltac adds_fields :=
  repeat match goal with
         | |- context [match ?x with _ => _ end] => destruct x
         end;
  unfold adds; cbn;
  (eexists; split;
   [ rewrite <- ?app_assoc; first [reflexivity | symmetry; apply app_nil_r]
   | reflexivity ]).

Ltac adds_leaf :=
  first
    [ match goal with
      | H : next_pass_brigade _ _ ?s' = (_, _, ?t) |- adds _ _ ?g =>
          lazymatch g with context [t] => idtac end;
          apply adds_trans with (b := s'); [adds_fields|];
          apply adds_trans with (b := t);
          [exact (next_pass_brigade_adds _ _ _ _ _ _ eq_refl H)|adds_fields]
      | H : next_get_brigade _ _ _ _ ?s' = (_, _, ?t) |- adds _ _ ?g =>
          lazymatch g with context [t] => idtac end;
          apply adds_trans with (b := s'); [adds_fields|];
          apply adds_trans with (b := t);
          [exact (next_get_brigade_adds _ _ _ _ _ _ _ _ eq_refl H)|adds_fields]
      end
    | adds_fields ].

Ltac drains := repeat run_step (@adds_trans is_drain_event) adds_leaf.

Lemma session_wants_write_drains (st : ctx) :
  adds is_drain_event st (final_ctx (session_wants_write X st)).
Proof. unfold session_wants_write, with_session. drains. Qed.

Lemma session_write_tls_drains (n : Z) (st : ctx) :
  adds is_drain_event st (final_ctx (session_write_tls X n st)).
Proof. unfold session_write_tls, with_session. drains. Qed.

Lemma session_send_close_notify_drains (st : ctx) :
  adds is_drain_event st (final_ctx (session_send_close_notify X st)).
Proof. unfold session_send_close_notify, with_session. drains. Qed.

Hint Resolve session_wants_write_drains session_write_tls_drains
  session_send_close_notify_drains : core.

Lemma brigade_tls_loop_drains (fuel : nat) (st : ctx) :
  adds is_drain_event st (final_ctx (brigade_tls_loop X fuel st)).
Proof.
  revert st. induction fuel as [|fuel IH]; intros st; cbn [brigade_tls_loop]; drains.
Qed.

Hint Resolve brigade_tls_loop_drains : core.

Lemma brigade_tls_from_rustls_drains (fuel : nat) (st : ctx) :
  adds is_drain_event st (final_ctx (brigade_tls_from_rustls X fuel st)).
Proof. unfold brigade_tls_from_rustls. drains. Qed.

Hint Resolve brigade_tls_from_rustls_drains : core.

Lemma write_all_tls_from_rustls_drains (fuel : nat) (st : ctx) :
  adds is_drain_event st (final_ctx (write_all_tls_from_rustls X fuel st)).
Proof. unfold write_all_tls_from_rustls. drains. Qed.

Lemma flush_tls_from_rustls_drains (fuel : nat) (st : ctx) :
  adds is_drain_event st (final_ctx (flush_tls_from_rustls X fuel st)).
Proof. unfold flush_tls_from_rustls. drains. Qed.

Hint Resolve write_all_tls_from_rustls_drains flush_tls_from_rustls_drains : core.

Lemma filter_abort_drains (fuel : nat) (st : ctx) :
  adds is_drain_event st (final_ctx (filter_abort X fuel st)).
Proof. unfold filter_abort. drains. Qed.

(** The output side *)

Ltac outputs := repeat run_step (@adds_trans is_output_event) adds_leaf.

Lemma drains_outputs (a b : ctx) : adds is_drain_event a b -> adds is_output_event a b.
Proof. apply adds_weaken, drain_is_output. Qed.

Lemma session_write_outputs (data : bytes) (st : ctx) :
  adds is_output_event st (final_ctx (session_write X data st)).
Proof. unfold session_write, with_session. outputs. Qed.

Lemma session_send_close_notify_outputs (st : ctx) :
  adds is_output_event st (final_ctx (session_send_close_notify X st)).
Proof. apply drains_outputs, session_send_close_notify_drains. Qed.

Lemma brigade_tls_from_rustls_outputs (fuel : nat) (st : ctx) :
  adds is_output_event st (final_ctx (brigade_tls_from_rustls X fuel st)).
Proof. apply drains_outputs, brigade_tls_from_rustls_drains. Qed.

Lemma write_all_tls_from_rustls_outputs (fuel : nat) (st : ctx) :
  adds is_output_event st (final_ctx (write_all_tls_from_rustls X fuel st)).
Proof. apply drains_outputs, write_all_tls_from_rustls_drains. Qed.

Hint Resolve session_write_outputs session_send_close_notify_outputs
  brigade_tls_from_rustls_outputs write_all_tls_from_rustls_outputs : core.

Lemma fout_plain_buf_to_rustls_outputs (st : ctx) :
  adds is_output_event st (final_ctx (fout_plain_buf_to_rustls X st)).
Proof. unfold fout_plain_buf_to_rustls. outputs. Qed.

Hint Resolve fout_plain_buf_to_rustls_outputs : core.

Lemma fout_plain_buf_room_outputs (st : ctx) :
  adds is_output_event st (final_ctx (fout_plain_buf_room X st)).
Proof. unfold fout_plain_buf_room. outputs. Qed.

Lemma fout_plain_buf_take_outputs (b : apr_bucket) (dlen r : Z) (st : ctx) :
  adds is_output_event st (final_ctx (fout_plain_buf_take X b dlen r st)).
Proof.
  unfold fout_plain_buf_take.
  destruct (if dlen >? r then apr_bucket_split b r else (b, [])) as [b1 behind].
  destruct b1; outputs.
Qed.

Hint Resolve fout_plain_buf_room_outputs fout_plain_buf_take_outputs : core.

Lemma fout_plain_buf_append_outputs (b : apr_bucket) (st : ctx) :
  adds is_output_event st (final_ctx (fout_plain_buf_append X b st)).
Proof. unfold fout_plain_buf_append. outputs. Qed.

Hint Resolve fout_plain_buf_append_outputs : core.

Lemma conn_output_bucket_outputs (fuel : nat) (b : apr_bucket) (rest : apr_bucket_brigade)
    (passed : Z) (st : ctx) :
  adds is_output_event st (final_ctx (conn_output_bucket X fuel b rest passed st)).
Proof. unfold conn_output_bucket. outputs. Qed.

Hint Resolve conn_output_bucket_outputs : core.

Lemma conn_output_loop_outputs (fuel loops : nat) (rv : apr_status_t)
    (bb : apr_bucket_brigade) (passed : Z) (st : ctx) :
  adds is_output_event st (final_ctx (conn_output_loop X fuel loops rv bb passed st)).
Proof.
  revert rv bb passed st.
  induction loops as [|loops IH]; intros rv bb passed st; cbn [conn_output_loop]; outputs.
Qed.

Hint Resolve conn_output_loop_outputs : core.

(** The input side *)

Ltac inputs := repeat run_step (@adds_trans is_input_event) adds_leaf.

Lemma drains_inputs (a b : ctx) : adds is_drain_event a b -> adds is_input_event a b.
Proof. apply adds_weaken, drain_is_input. Qed.

Lemma session_is_handshaking_inputs (st : ctx) :
  adds is_input_event st (final_ctx (session_is_handshaking X st)).
Proof. unfold session_is_handshaking, with_session. inputs. Qed.

Lemma session_wants_read_inputs (st : ctx) :
  adds is_input_event st (final_ctx (session_wants_read X st)).
Proof. unfold session_wants_read, with_session. inputs. Qed.

Lemma session_wants_write_inputs (st : ctx) :
  adds is_input_event st (final_ctx (session_wants_write X st)).
Proof. apply drains_inputs, session_wants_write_drains. Qed.

Lemma session_read_tls_inputs (data : bytes) (st : ctx) :
  adds is_input_event st (final_ctx (session_read_tls X data st)).
Proof. unfold session_read_tls, with_session. inputs. Qed.

Lemma session_process_new_packets_inputs (st : ctx) :
  adds is_input_event st (final_ctx (session_process_new_packets X st)).
Proof. unfold session_process_new_packets, with_session. inputs. Qed.

Lemma session_read_inputs (n : Z) (st : ctx) :
  adds is_input_event st (final_ctx (session_read X n st)).
Proof. unfold session_read, with_session. inputs. Qed.

Lemma core_conn_init_server_inputs (st : ctx) :
  adds is_input_event st (final_ctx (core_conn_init_server X st)).
Proof. unfold core_conn_init_server, with_session. inputs. Qed.

Lemma core_conn_post_handshake_inputs (st : ctx) :
  adds is_input_event st (final_ctx (core_conn_post_handshake X st)).
Proof. unfold core_conn_post_handshake, with_session. inputs. Qed.

Lemma write_all_tls_from_rustls_inputs (fuel : nat) (st : ctx) :
  adds is_input_event st (final_ctx (write_all_tls_from_rustls X fuel st)).
Proof. apply drains_inputs, write_all_tls_from_rustls_drains. Qed.

Lemma flush_tls_from_rustls_inputs (fuel : nat) (st : ctx) :
  adds is_input_event st (final_ctx (flush_tls_from_rustls X fuel st)).
Proof. apply drains_inputs, flush_tls_from_rustls_drains. Qed.

Lemma filter_abort_inputs (fuel : nat) (st : ctx) :
  adds is_input_event st (final_ctx (filter_abort X fuel st)).
Proof. apply drains_inputs, filter_abort_drains. Qed.

Hint Resolve session_is_handshaking_inputs session_wants_read_inputs
  session_wants_write_inputs session_read_tls_inputs session_process_new_packets_inputs
  session_read_inputs core_conn_init_server_inputs core_conn_post_handshake_inputs
  write_all_tls_from_rustls_inputs flush_tls_from_rustls_inputs filter_abort_inputs : core.

Lemma read_tls_loop_inputs (fuel : nat) (len : Z) (rv : apr_status_t)
    (block : apr_read_type_e) (passed : Z) (st : ctx) :
  adds is_input_event st (final_ctx (read_tls_loop X fuel len rv block passed st)).
Proof.
  revert rv block passed st.
  induction fuel as [|fuel IH]; intros rv block passed st; cbn [read_tls_loop]; inputs.
Qed.

Hint Resolve read_tls_loop_inputs : core.

Lemma read_tls_body_inputs (fuel : nat) (len : Z) (st : ctx) :
  adds is_input_event st (final_ctx (read_tls_body X fuel len st)).
Proof. unfold read_tls_body. inputs. Qed.

Hint Resolve read_tls_body_inputs : core.

Lemma read_tls_to_rustls_inputs (fuel : nat) (len : Z) (st : ctx) :
  adds is_input_event st (final_ctx (read_tls_to_rustls X fuel len st)).
Proof. unfold read_tls_to_rustls. inputs. Qed.

Hint Resolve read_tls_to_rustls_inputs : core.

Lemma pre_handshake_loop_inputs (fuel loops : nat) (st : ctx) :
  adds is_input_event st (final_ctx (pre_handshake_loop X fuel loops st)).
Proof.
  revert st. induction loops as [|loops IH]; intros st; cbn [pre_handshake_loop]; inputs.
Qed.

Lemma handshake_loop_inputs (fuel loops : nat) (st : ctx) :
  adds is_input_event st (final_ctx (handshake_loop X fuel loops st)).
Proof.
  revert st. induction loops as [|loops IH]; intros st; cbn [handshake_loop]; inputs.
Qed.

Lemma input_fill_loop_inputs (fuel loops : nat) (rv : apr_status_t) (st : ctx) :
  adds is_input_event st (final_ctx (input_fill_loop X fuel loops rv st)).
Proof.
  revert rv st. induction loops as [|loops IH]; intros rv st; cbn [input_fill_loop]; inputs.
Qed.

Hint Resolve pre_handshake_loop_inputs handshake_loop_inputs input_fill_loop_inputs : core.

Lemma filter_do_pre_handshake_inputs (fuel : nat) (st : ctx) :
  adds is_input_event st (final_ctx (filter_do_pre_handshake X fuel st)).
Proof. unfold filter_do_pre_handshake. inputs. Qed.

Lemma filter_do_handshake_inputs (fuel : nat) (st : ctx) :
  adds is_input_event st (final_ctx (filter_do_handshake X fuel st)).
Proof. unfold filter_do_handshake. inputs. Qed.

Hint Resolve filter_do_pre_handshake_inputs filter_do_handshake_inputs : core.

Lemma filter_conn_input_handshake_inputs (fuel : nat) (st : ctx) :
  adds is_input_event st (final_ctx (filter_conn_input_handshake X fuel st)).
Proof. unfold filter_conn_input_handshake. inputs. Qed.

Hint Resolve filter_conn_input_handshake_inputs : core.

Lemma filter_conn_input_refill_inputs (fuel : nat) (mode : ap_input_mode_t) (st : ctx) :
  adds is_input_event st (final_ctx (filter_conn_input_refill X fuel mode st)).
Proof. unfold filter_conn_input_refill. inputs. Qed.

Lemma filter_conn_input_modes_inputs (bb : apr_bucket_brigade) (mode : ap_input_mode_t)
    (block : apr_read_type_e) (readbytes : Z) (st : ctx) :
  adds is_input_event st
    (final_ctx (filter_conn_input_modes X bb mode block readbytes st)).
Proof. unfold filter_conn_input_modes. inputs. Qed.

Hint Resolve filter_conn_input_refill_inputs filter_conn_input_modes_inputs : core.

Lemma filter_conn_input_inputs (fuel : nat) (bb : apr_bucket_brigade)
    (mode : ap_input_mode_t) (block : apr_read_type_e) (readbytes : Z) (st : ctx) :
  adds is_input_event st (final_ctx (filter_conn_input X fuel bb mode block readbytes st)).
Proof.
  unfold filter_conn_input. cbv zeta.
  apply adds_trans with (b := set_fin_block block st); [adds_fields|].
  inputs.
Qed.

(** *** The phase of the connection *)

Lemma moves_to_trans (phases : list tls_conn_state_t) (a b c : ctx) :
  moves_to phases a b -> moves_to phases b c -> moves_to phases a c.
Proof.
  unfold moves_to.
  intros [H1|H1] [H2|H2];
    [left; congruence|right; exact H2|right; rewrite H2; exact H1|right; exact H2].
Qed.

Lemma calm_moves_to (phases : list tls_conn_state_t) (a b : ctx) :
  calm a b -> moves_to phases a b.
Proof. intros (_ & _ & Hs & _). left. exact Hs. Qed.

Ltac moves_fields :=
  repeat match goal with
         | |- context [match ?x with _ => _ end] => destruct x
         end;
  unfold moves_to; cbn; auto.

Ltac moves_leaf :=
  first
    [ match goal with
      | H : next_pass_brigade _ _ ?s' = (_, _, ?t) |- moves_to _ _ ?g =>
          lazymatch g with context [t] => idtac end;
          apply moves_to_trans with (b := s'); [moves_fields|];
          apply moves_to_trans with (b := t);
          [exact (calm_moves_to _ _ _ (next_pass_brigade_calm _ _ _ _ _ _ H))|moves_fields]
      | H : next_get_brigade _ _ _ _ ?s' = (_, _, ?t) |- moves_to _ _ ?g =>
          lazymatch g with context [t] => idtac end;
          apply moves_to_trans with (b := s'); [moves_fields|];
          apply moves_to_trans with (b := t);
          [exact (calm_moves_to _ _ _ (next_get_brigade_calm _ _ _ _ _ _ _ _ H))|moves_fields]
      end
    | moves_fields ].

Ltac moves phases := repeat run_step (@moves_to_trans phases) moves_leaf.

Hint Resolve calm_moves_to : core.

Lemma session_send_close_notify_moves (phases : list tls_conn_state_t) (st : ctx) :
  moves_to phases st (final_ctx (session_send_close_notify X st)).
Proof. unfold session_send_close_notify, with_session. moves phases. Qed.

Hint Resolve session_send_close_notify_moves : core.

Lemma filter_abort_moves (fuel : nat) (st : ctx) :
  moves_to [TLS_CONN_ST_DONE] st (final_ctx (filter_abort X fuel st)).
Proof. unfold filter_abort. moves [TLS_CONN_ST_DONE]. Qed.

Hint Resolve filter_abort_moves : core.

Lemma filter_do_pre_handshake_moves (fuel : nat) (st : ctx) :
  moves_to [TLS_CONN_ST_DONE] st (final_ctx (filter_do_pre_handshake X fuel st)).
Proof.
  pose proof pre_handshake_loop_calm as Hloop.
  unfold filter_do_pre_handshake. moves [TLS_CONN_ST_DONE].
Qed.

Lemma filter_do_handshake_moves (fuel : nat) (st : ctx) :
  moves_to [TLS_CONN_ST_DONE] st (final_ctx (filter_do_handshake X fuel st)).
Proof.
  pose proof handshake_loop_calm as Hloop.
  unfold filter_do_handshake. moves [TLS_CONN_ST_DONE].
Qed.

Lemma moves_to_done_advances (a b : ctx) :
  moves_to [TLS_CONN_ST_DONE] a b -> advances a b.
Proof.
  unfold moves_to, advances. intros [->|[<-|[]]]; [apply Nat.le_refl|].
  destruct (cc_state a); cbn; lia.
Qed.

Lemma advances_trans (a b c : ctx) : advances a b -> advances b c -> advances a c.
Proof. unfold advances. apply Nat.le_trans. Qed.

Lemma calm_advances (a b : ctx) : calm a b -> advances a b.
Proof. intros (_ & _ & Hs & _). unfold advances. rewrite Hs. apply Nat.le_refl. Qed.

(** The two handshake phases of a read call: the phase goes forward, or to
    [DONE] by an abort. *)
Lemma filter_conn_input_handshake_advances (fuel : nat) (st : ctx) :
  advances st (final_ctx (filter_conn_input_handshake X fuel st)).
Proof.
  unfold filter_conn_input_handshake.
  apply bind_rel; [exact advances_trans| |].
  - destruct (tls_conn_state_eqb_spec TLS_CONN_ST_PRE_HANDSHAKE (cc_state st)) as [Hp|_];
      [|apply calm_advances, calm_refl].
    pose proof (filter_do_pre_handshake_moves fuel st) as Hm.
    rewrite final_ctx_bind.
    destruct (filter_do_pre_handshake X fuel st) as [rv st1| |] eqn:Hrun;
      cbn [final_ctx] in *; try (apply moves_to_done_advances; exact Hm).
    destruct (apr_status_eqb_spec APR_SUCCESS rv) as [<-|Hne]; cbn [negb final_ctx];
      [|apply moves_to_done_advances; exact Hm].
    unfold advances. cbn. rewrite <- Hp. cbn. lia.
  - intros [fl rv] st1. destruct fl; [|apply calm_advances, calm_refl].
    destruct (tls_conn_state_eqb_spec TLS_CONN_ST_HANDSHAKE (cc_state st1)) as [Hp|_];
      [|apply calm_advances, calm_refl].
    pose proof (filter_do_handshake_moves fuel st1) as Hm.
    rewrite final_ctx_bind.
    destruct (filter_do_handshake X fuel st1) as [rv2 st2| |] eqn:Hrun;
      cbn [final_ctx] in *; try (apply moves_to_done_advances; exact Hm).
    destruct (apr_status_eqb_spec APR_SUCCESS rv2) as [<-|Hne]; cbn [negb final_ctx];
      [|apply moves_to_done_advances; exact Hm].
    unfold advances. cbn. rewrite <- Hp. cbn. lia.
Qed.

Ltac advances_leaf :=
  first
    [ apply calm_advances; calm_leaf
    | repeat match goal with
             | |- context [match ?x with _ => _ end] => destruct x
             end;
      unfold advances; cbn; apply Nat.le_refl ].

Hint Resolve calm_advances filter_conn_input_handshake_advances : core.

Lemma filter_conn_input_advances (fuel : nat) (bb : apr_bucket_brigade)
    (mode : ap_input_mode_t) (block : apr_read_type_e) (readbytes : Z) (st : ctx) :
  advances st (final_ctx (filter_conn_input X fuel bb mode block readbytes st)).
Proof.
  pose proof input_fill_loop_calm as Hfill.
  pose proof (fun f s => moves_to_done_advances s _ (filter_abort_moves f s)) as Habort.
  unfold filter_conn_input, filter_conn_input_refill, filter_conn_input_modes. cbv zeta.
  apply advances_trans with (b := set_fin_block block st); [advances_leaf|].
  repeat run_step advances_trans advances_leaf.
Qed.

(** The output side: the phase stays, or becomes [NOTIFIED] at an
    end-of-connection marker. *)
Lemma fout_plain_buf_to_rustls_moves (phases : list tls_conn_state_t) (st : ctx) :
  moves_to phases st (final_ctx (fout_plain_buf_to_rustls X st)).
Proof. unfold fout_plain_buf_to_rustls. moves phases. Qed.

Hint Resolve fout_plain_buf_to_rustls_moves : core.

Lemma fout_plain_buf_append_moves (phases : list tls_conn_state_t) (b : apr_bucket)
    (st : ctx) :
  moves_to phases st (final_ctx (fout_plain_buf_append X b st)).
Proof.
  unfold fout_plain_buf_append, fout_plain_buf_room, fout_plain_buf_take.
  destruct (bucket_length b =? SIZE_UNKNOWN); [cbn [final_ctx]; moves_leaf|].
  apply bind_rel; [apply moves_to_trans| |].
  - moves phases.
  - intros [[fl rv0] r] st1. destruct fl; [|cbn [final_ctx]; moves_leaf].
    destruct (if bucket_length b >? r then apr_bucket_split b r else (b, []))
      as [b1 behind].
    destruct b1; moves phases.
Qed.

Hint Resolve fout_plain_buf_append_moves : core.

Lemma conn_output_bucket_moves (fuel : nat) (b : apr_bucket) (rest : apr_bucket_brigade)
    (passed : Z) (st : ctx) :
  moves_to [TLS_CONN_ST_NOTIFIED] st
    (final_ctx (conn_output_bucket X fuel b rest passed st)).
Proof. unfold conn_output_bucket. moves [TLS_CONN_ST_NOTIFIED]. Qed.

Hint Resolve conn_output_bucket_moves : core.

Lemma conn_output_loop_moves (fuel loops : nat) (rv : apr_status_t)
    (bb : apr_bucket_brigade) (passed : Z) (st : ctx) :
  moves_to [TLS_CONN_ST_NOTIFIED] st
    (final_ctx (conn_output_loop X fuel loops rv bb passed st)).
Proof.
  revert rv bb passed st.
  induction loops as [|loops IH]; intros rv bb passed st; cbn [conn_output_loop];
    moves [TLS_CONN_ST_NOTIFIED].
Qed.

Hint Resolve conn_output_loop_moves : core.

Lemma filter_conn_output_advances (fuel : nat) (bb : apr_bucket_brigade) (st : ctx) :
  advances st (final_ctx (filter_conn_output X fuel bb st)).
Proof.
  unfold filter_conn_output.
  destruct (c_aborted st); [apply calm_advances, calm_refl|].
  destruct (tls_conn_state_eqb_spec (cc_state st) TLS_CONN_ST_DONE) as [Hd|Hd].
  - rewrite orb_true_r.
    destruct (next_pass_brigade X bb st) as [[rv remains] st1] eqn:Hp.
    cbn [final_ctx]. apply calm_advances. eapply next_pass_brigade_calm. exact Hp.
  - rewrite orb_false_r.
    destruct (cc_rustls_session st) as [s|].
    + assert (Hm : moves_to [TLS_CONN_ST_NOTIFIED] st
                     (final_ctx
                        (call ((fl, rv, bb1, _), st1) <-
                           conn_output_loop X fuel fuel APR_SUCCESS bb 0 st;
                         match fl with
                         | GotoCleanup => Returns (rv, bb1) st1
                         | Fallthrough =>
                             call (rv2, st2) <- write_all_tls_from_rustls X fuel st1;
                             Returns (rv2, bb1) st2
                         end)))
        by moves [TLS_CONN_ST_NOTIFIED].
      revert Hm. generalize (final_ctx
                        (call ((fl, rv, bb1, _), st1) <-
                           conn_output_loop X fuel fuel APR_SUCCESS bb 0 st;
                         match fl with
                         | GotoCleanup => Returns (rv, bb1) st1
                         | Fallthrough =>
                             call (rv2, st2) <- write_all_tls_from_rustls X fuel st1;
                             Returns (rv2, bb1) st2
                         end)).
      intros st' [Hs|[Hs|[]]]; unfold advances.
      * rewrite Hs. apply Nat.le_refl.
      * rewrite <- Hs. destruct (cc_state st); cbn; try lia. congruence.
    + destruct (next_pass_brigade X bb st) as [[rv remains] st1] eqn:Hp.
      cbn [final_ctx]. apply calm_advances. eapply next_pass_brigade_calm. exact Hp.
Qed.

(** *** What the handshake steps return *)

Lemma handshake_cleanup_status (fuel : nat) (st st9 st' : ctx) (rv9 rv : apr_status_t) :
  calm st st9 ->
  (if negb (apr_status_eqb APR_SUCCESS rv9) && negb (APR_STATUS_IS_EAGAIN rv9)
   then filter_abort X fuel st9 else Returns rv9 st9) = Returns rv st' ->
  ((rv = APR_SUCCESS \/ APR_STATUS_IS_EAGAIN rv = true) /\ calm st st')
  \/ (rv = APR_ECONNABORTED /\ cc_state st' = TLS_CONN_ST_DONE
      /\ (cc_state st <> TLS_CONN_ST_DONE -> c_aborted st' = true)).
Proof.
  intros C9 H.
  destruct (apr_status_eqb_spec APR_SUCCESS rv9) as [<-|Hne]; cbn [negb andb] in H.
  - injection H as <- <-. left. auto.
  - destruct (APR_STATUS_IS_EAGAIN rv9) eqn:Hag; cbn [negb] in H.
    + injection H as <- <-. left. auto.
    + apply filter_abort_returns in H. destruct H as (-> & Hd & Hab).
      right. split; [reflexivity|]. split; [exact Hd|].
      destruct C9 as (_ & _ & Hs & _). rewrite <- Hs. exact Hab.
Qed.

Lemma filter_do_pre_handshake_status (fuel : nat) (st st' : ctx) (rv : apr_status_t) :
  filter_do_pre_handshake X fuel st = Returns rv st' ->
  ((rv = APR_SUCCESS \/ APR_STATUS_IS_EAGAIN rv = true) /\ calm st st')
  \/ (rv = APR_ECONNABORTED /\ cc_state st' = TLS_CONN_ST_DONE
      /\ (cc_state st <> TLS_CONN_ST_DONE -> c_aborted st' = true)).
Proof.
  unfold filter_do_pre_handshake. intros H.
  apply bind_returns_inv in H. destruct H as (hs & st0 & H0 & H).
  apply bind_returns_inv in H. destruct H as (rv9 & st9 & H9 & H).
  pose proof (returns_final calm st _ _ _ (session_is_handshaking_calm st) H0) as C0.
  assert (C9 : calm st0 st9).
  { eapply returns_final; [|exact H9].
    pose proof pre_handshake_loop_calm as Hloop. destruct hs; frame. }
  eapply handshake_cleanup_status; [|exact H]. eapply calm_trans; eassumption.
Qed.

Lemma filter_do_handshake_status (fuel : nat) (st st' : ctx) (rv : apr_status_t) :
  filter_do_handshake X fuel st = Returns rv st' ->
  ((rv = APR_SUCCESS \/ APR_STATUS_IS_EAGAIN rv = true) /\ calm st st')
  \/ (rv = APR_ECONNABORTED /\ cc_state st' = TLS_CONN_ST_DONE
      /\ (cc_state st <> TLS_CONN_ST_DONE -> c_aborted st' = true)).
Proof.
  unfold filter_do_handshake. intros H.
  apply bind_returns_inv in H. destruct H as (hs & st0 & H0 & H).
  apply bind_returns_inv in H. destruct H as (rv9 & st9 & H9 & H).
  pose proof (returns_final calm st _ _ _ (session_is_handshaking_calm st) H0) as C0.
  assert (C9 : calm st0 st9).
  { eapply returns_final; [|exact H9].
    pose proof handshake_loop_calm as Hloop. destruct hs; frame. }
  eapply handshake_cleanup_status; [|exact H]. eapply calm_trans; eassumption.
Qed.

(** *** A read call gets behind the handshake phases only when they are over *)

Lemma filter_conn_input_handshake_past (fuel : nat) (st st' : ctx) (rv : apr_status_t) :
  filter_conn_input_handshake X fuel st = Returns (Fallthrough, rv) st' ->
  past_handshake st'.
Proof.
  unfold filter_conn_input_handshake, past_handshake. intros H.
  apply bind_returns_inv in H. destruct H as ([fl1 rv1] & st1 & H1 & H).
  destruct fl1; [|discriminate].
  assert (Hpre : cc_state st1 <> TLS_CONN_ST_PRE_HANDSHAKE).
  { destruct (tls_conn_state_eqb_spec TLS_CONN_ST_PRE_HANDSHAKE (cc_state st)) as [Hp|Hp].
    - apply bind_returns_inv in H1. destruct H1 as (r & s & _ & H1).
      destruct (negb (apr_status_eqb APR_SUCCESS r)); [discriminate|].
      injection H1 as _ <-. cbn. discriminate.
    - injection H1 as _ <-. congruence. }
  destruct (tls_conn_state_eqb_spec TLS_CONN_ST_HANDSHAKE (cc_state st1)) as [Hh|Hh].
  - apply bind_returns_inv in H. destruct H as (r & s & _ & H).
    destruct (negb (apr_status_eqb APR_SUCCESS r)); [discriminate|].
    injection H as _ <-. cbn. split; discriminate.
  - injection H as _ <-. split; congruence.
Qed.

Lemma filter_conn_input_modes_calm (bb : apr_bucket_brigade) (mode : ap_input_mode_t)
    (block : apr_read_type_e) (readbytes : Z) (st : ctx) :
  calm st (final_ctx (filter_conn_input_modes X bb mode block readbytes st)).
Proof. unfold filter_conn_input_modes. frame. Qed.

(** X5.  A read call hands out data only behind the handshake.  On a
    connection that has a session and is not marked aborted, a call of
    [filter_conn_input] that returns [APR_SUCCESS], or that returns with
    the brigade of the caller changed, ends in a phase other than
    [PRE_HANDSHAKE] and [HANDSHAKE]: the two handshake steps ran to their
    end before the plaintext queue was touched.  In the mode
    [AP_MODE_INIT] the brigade comes back as it was given. *)
Theorem plaintext_only_behind_the_handshake (fuel : nat) (bb : apr_bucket_brigade)
    (mode : ap_input_mode_t) (block : apr_read_type_e) (readbytes : Z)
    (st st' : ctx) (s : E) (rv : apr_status_t) (bb' : apr_bucket_brigade) :
  c_aborted st = false ->
  cc_rustls_session st = Some s ->
  filter_conn_input X fuel bb mode block readbytes st = Returns (rv, bb') st' ->
  (mode = AP_MODE_INIT -> bb' = bb)
  /\ (rv = APR_SUCCESS \/ bb' <> bb -> past_handshake st').
Proof.
  intros Hab Hs. unfold filter_conn_input. cbv zeta.
  change (c_aborted (set_fin_block block st)) with (c_aborted st).
  change (cc_rustls_session (set_fin_block block st)) with (cc_rustls_session st).
  rewrite Hab, Hs. intros H.
  apply bind_returns_inv in H. destruct H as ([[fl rv1] rr] & st1 & Hrefill & H).
  apply bind_returns_inv in H. destruct H as ([rv2 bb2] & st2 & Htail & H).
  assert (Hbb : bb' = bb2 /\ st' = st2).
  { destruct (negb (rustls_ok rr)); injection H as _ <- <-; auto. }
  destruct Hbb as [-> ->].
  unfold filter_conn_input_refill in Hrefill.
  apply bind_returns_inv in Hrefill. destruct Hrefill as ([fl0 rv0] & st0 & Hhs & Hrefill).
  destruct fl0.
  - (* the handshake phases are over *)
    pose proof (filter_conn_input_handshake_past _ _ _ _ Hhs) as Hpast.
    assert (Hcalm1 : calm st0 st1).
    { eapply returns_final; [|exact Hrefill].
      pose proof input_fill_loop_calm as Hfill. destruct mode; frame. }
    assert (Hcalm2 : calm st1 st2).
    { eapply returns_final; [|exact Htail].
      pose proof filter_conn_input_modes_calm as Hmodes. frame. }
    split.
    + intros ->. injection Hrefill as <- _ _ _. injection Htail as _ <- _. reflexivity.
    + intros _. unfold past_handshake in *.
      destruct Hcalm1 as (_ & _ & Hs1 & _). destruct Hcalm2 as (_ & _ & Hs2 & _).
      rewrite Hs2, Hs1. exact Hpast.
  - (* a handshake phase stopped the call *)
    injection Hrefill as <- <- <- <-. injection Htail as <- <- <-.
    cbn [rustls_ok negb] in H. injection H as <-.
    split; [reflexivity|].
    intros [->|Hne]; [|contradiction].
    exfalso. unfold filter_conn_input_handshake in Hhs.
    apply bind_returns_inv in Hhs. destruct Hhs as ([fl1 r1] & s1 & H1 & Hhs).
    destruct fl1.
    + destruct (tls_conn_state_eqb TLS_CONN_ST_HANDSHAKE (cc_state s1)); [|discriminate].
      apply bind_returns_inv in Hhs. destruct Hhs as (r & s2 & _ & Hhs).
      destruct (apr_status_eqb_spec APR_SUCCESS r) as [<-|Hne]; cbn [negb] in Hhs;
        [discriminate|].
      injection Hhs; intros; congruence.
    + injection Hhs; intros; subst.
      destruct (tls_conn_state_eqb TLS_CONN_ST_PRE_HANDSHAKE (cc_state (set_fin_block block st)));
        [|discriminate].
      apply bind_returns_inv in H1. destruct H1 as (r & s2 & _ & H1).
      destruct (apr_status_eqb_spec APR_SUCCESS r) as [<-|Hne]; cbn [negb] in H1;
        [discriminate|].
      injection H1; intros; congruence.
Qed.

(** *** The plaintext on its way through the output filter *)

Lemma conserves_refl (st : ctx) (bb : apr_bucket_brigade) : conserves st bb st bb.
Proof. exists []. rewrite app_nil_r. split; reflexivity. Qed.

Lemma conserves_trans (a b c : ctx) (ba bb bc : apr_bucket_brigade) :
  conserves a ba b bb -> conserves b bb c bc -> conserves a ba c bc.
Proof.
  intros (e1 & H1 & C1) (e2 & H2 & C2). exists (e1 ++ e2). split.
  - rewrite H2, H1, app_assoc. reflexivity.
  - rewrite C1, C2, flat_map_app, !app_assoc. reflexivity.
Qed.

Lemma drain_accepts_nothing (ev : list event) :
  forallb is_drain_event ev = true -> flat_map plain_accepted ev = [].
Proof.
  induction ev as [|e ev IH]; [reflexivity|]. cbn [forallb flat_map].
  intros H. apply andb_true_iff in H. destruct H as [He Hev].
  rewrite (IH Hev). destruct e; cbn in *; try reflexivity; discriminate.
Qed.

(** A step that leaves the buffer alone and only drains the engine. *)
Lemma idle_conserves (a b : ctx) (bb : apr_bucket_brigade) :
  same_buf a b -> adds is_drain_event a b -> conserves a bb b bb.
Proof.
  intros (Hsz & Hlen & Hbuf) (ev & Ht & Hev). exists ev. split; [exact Ht|].
  rewrite (drain_accepts_nothing ev Hev). unfold buf_content. rewrite Hlen, Hbuf.
  reflexivity.
Qed.

Lemma same_buf_mem_ok (a b : ctx) : same_buf a b -> buf_mem_ok a -> buf_mem_ok b.
Proof.
  unfold buf_mem_ok, buf_ok. intros (Hsz & Hlen & Hbuf). rewrite Hsz, Hlen, Hbuf. tauto.
Qed.

Lemma firstn_split_at (A : Type) (l : list A) (w n : nat) :
  (w <= n)%nat -> firstn n l = firstn w l ++ firstn (n - w) (skipn w l).
Proof.
  intros Hwn. rewrite <- (firstn_skipn w (firstn n l)) at 1.
  rewrite firstn_firstn, Nat.min_l by exact Hwn.
  rewrite skipn_firstn_comm. reflexivity.
Qed.

Lemma fout_plain_buf_to_rustls_conserves (bb : apr_bucket_brigade) (st st' : ctx)
    (rv : apr_status_t) :
  buf_mem_ok st ->
  fout_plain_buf_to_rustls X st = Returns rv st' ->
  conserves st bb st' bb /\ buf_mem_ok st'.
Proof.
  intros [Hok Hmem]. unfold fout_plain_buf_to_rustls.
  destruct (0 <? fout_buf_plain_len st) eqn:Hlen.
  2: { intros H. injection H as _ <-. split; [apply conserves_refl|split; assumption]. }
  destruct (session_write_inv X
              (firstn (Z.to_nat (fout_buf_plain_len st)) (fout_buf_plain st)) st)
    as [[_ ->]|(rr & wlen & s' & Hw & ->)]; cbn [bind]; [discriminate|].
  unfold buf_ok in Hok. unfold blen in Hmem. apply Z.ltb_lt in Hlen.
  destruct rr as [|code]; cbn [rustls_ok negb].
  - cbn [fout_buf_plain_len set_fout_bytes_in_rustls log set_trace set_cc_rustls_session].
    destruct (wlen >=? fout_buf_plain_len st) eqn:Hge; [|destruct (wlen =? 0) eqn:Hz];
      intros H; injection H as _ <-; zbool.
    + split.
      * eexists. split; [reflexivity|]. cbn [flat_map plain_accepted].
        unfold buf_content. cbn. rewrite firstn_firstn, Nat.min_r by lia.
        rewrite app_nil_r. reflexivity.
      * unfold buf_mem_ok, buf_ok, blen. cbn. lia.
    + split.
      * eexists. split; [reflexivity|]. cbn [flat_map plain_accepted].
        unfold buf_content. cbn. subst wlen. reflexivity.
      * unfold buf_mem_ok, buf_ok, blen. cbn. lia.
    + rewrite size_wrap_small by lia. split.
      * eexists. split; [reflexivity|]. cbn [flat_map plain_accepted].
        unfold buf_content, buf_move. cbn. rewrite app_nil_r.
        rewrite firstn_firstn, Nat.min_l by lia.
        rewrite firstn_app.
        rewrite length_firstn, length_skipn.
        replace (Z.to_nat (fout_buf_plain_len st - wlen)
                 - Nat.min (Z.to_nat (fout_buf_plain_len st - wlen))
                     (List.length (fout_buf_plain st) - Z.to_nat wlen))%nat
          with 0%nat by lia.
        cbn [firstn]. rewrite app_nil_r, firstn_firstn, Nat.min_id.
        rewrite (firstn_split_at _ (fout_buf_plain st) (Z.to_nat wlen)
                   (Z.to_nat (fout_buf_plain_len st))) by lia.
        rewrite <- app_assoc. do 3 f_equal. lia.
      * unfold buf_mem_ok, buf_ok, blen, buf_move. cbn.
        rewrite length_app, length_firstn, !length_skipn. lia.
  - intros H. injection H as _ <-. split.
    + eexists. split; [reflexivity|]. reflexivity.
    + unfold buf_mem_ok, buf_ok, blen. cbn. lia.
Qed.

Lemma fout_plain_buf_room_conserves (bb : apr_bucket_brigade) (st st1 : ctx)
    (fl : flow) (rv : apr_status_t) (r : Z) :
  buf_mem_ok st ->
  fout_plain_buf_room X st = Returns (fl, rv, r) st1 ->
  conserves st bb st1 bb /\ buf_mem_ok st1
  /\ (fl = Fallthrough -> r = fout_buf_plain_size st1 - fout_buf_plain_len st1 /\ 0 < r).
Proof.
  intros Hmem H.
  assert (Hspec := fout_plain_buf_room_spec st (proj1 Hmem)). rewrite H in Hspec.
  destruct Hspec as (_ & _ & Hr).
  revert H. unfold fout_plain_buf_room.
  destruct (size_wrap (fout_buf_plain_size st - fout_buf_plain_len st) =? 0).
  - intros H. apply bind_returns_inv in H. destruct H as (rv1 & s1 & Hto & H).
    destruct (fout_plain_buf_to_rustls_conserves bb _ _ _ Hmem Hto) as [Hc Hm].
    destruct (negb (apr_status_eqb APR_SUCCESS rv1)).
    + injection H; intros; subst. auto.
    + destruct (0 <? size_wrap (fout_buf_plain_size s1 - fout_buf_plain_len s1));
        [|discriminate].
      injection H; intros; subst. auto.
  - intros H. injection H; intros; subst. split; [apply conserves_refl|auto].
Qed.

Lemma buf_write_content (buf : bytes) (at_ : Z) (data : bytes) :
  0 <= at_ -> at_ + blen data <= blen buf ->
  firstn (Z.to_nat (at_ + blen data)) (buf_write buf at_ data)
  = firstn (Z.to_nat at_) buf ++ data
  /\ blen (buf_write buf at_ data) = blen buf.
Proof.
  unfold blen, buf_write. intros H0 Hfit. split.
  - rewrite firstn_app, length_firstn.
    rewrite firstn_firstn.
    replace (Nat.min (Z.to_nat (at_ + Z.of_nat (List.length data))) (Z.to_nat at_))
      with (Z.to_nat at_) by lia.
    f_equal.
    replace (Z.to_nat (at_ + Z.of_nat (List.length data))
             - Nat.min (Z.to_nat at_) (List.length buf))%nat
      with (List.length data + 0)%nat by lia.
    rewrite firstn_app_2. cbn [firstn]. apply app_nil_r.
  - rewrite !length_app, length_firstn, length_skipn. lia.
Qed.

(** A data segment in memory is taken in: its first bytes go to the engine
    or to the buffer, the others stay in the brigade of the caller. *)
Lemma fout_plain_buf_take_conserves (d : bytes) (r : Z) (st st' : ctx)
    (rv : apr_status_t) (wlen : Z) (repl : apr_bucket_brigade) :
  buf_mem_ok st ->
  r = fout_buf_plain_size st - fout_buf_plain_len st ->
  0 < r ->
  fout_plain_buf_take X (BUCKET_HEAP d) (blen d) r st = Returns (rv, wlen, repl) st' ->
  conserves st [BUCKET_HEAP d] st' repl /\ buf_mem_ok st'
  /\ forallb in_memory repl = true.
Proof.
  intros [Hok Hmem] Hr Hpos. unfold fout_plain_buf_take.
  assert (Hsplit : exists behind,
             (if blen d >? r then apr_bucket_split (BUCKET_HEAP d) r
              else (BUCKET_HEAP d, []))
             = (BUCKET_HEAP (firstn (Z.to_nat r) d), behind)
             /\ brigade_bytes behind = skipn (Z.to_nat r) d
             /\ forallb in_memory behind = true).
  { destruct (blen d >? r) eqn:Hc.
    - eexists. split; [reflexivity|]. cbn. rewrite app_nil_r. auto.
    - exists []. zbool. unfold blen in Hc.
      rewrite firstn_all2, skipn_all2 by lia. auto. }
  destruct Hsplit as (behind & -> & Hbehind & Hmemb).
  set (data := firstn (Z.to_nat r) d).
  assert (Hd : brigade_bytes [BUCKET_HEAP d] = data ++ brigade_bytes behind).
  { cbn. rewrite app_nil_r, Hbehind. subst data. symmetry. apply firstn_skipn. }
  assert (Hfit : blen data <= r).
  { subst data. pose proof (blen_firstn r d). lia. }
  clearbody data. clear Hbehind.
  cbn [apr_bucket_read apr_status_eqb negb bucket_length].
  cbn [fout_buf_plain_len fout_buf_plain_size fout_buf_plain log set_trace].
  destruct ((fout_buf_plain_len st =? 0)
            && ((blen data >=? fout_buf_plain_size st) || (blen data >? TLS_PREF_WRITE_SIZE X)))
    eqn:Htest.
  - (* the segment goes to the engine *)
    apply andb_true_iff in Htest. destruct Htest as [Hzero _]. apply Z.eqb_eq in Hzero.
    assert (Hempty : buf_content st = []) by (unfold buf_content; rewrite Hzero; reflexivity).
    destruct (session_write_inv X data (log (EvBucketRead APR_BLOCK_READ) st))
      as [[_ ->]|(rr & w & s' & Hw & ->)]; cbn [bind]; [discriminate|].
    assert (Hsame : forall v : Z,
               buf_content (set_fout_bytes_in_rustls v
                              (log (EvSessionWrite data rr w)
                                 (set_cc_rustls_session (Some s')
                                    (log (EvBucketRead APR_BLOCK_READ) st)))) = [])
      by (intros; exact Hempty).
    destruct rr as [|code]; cbn [rustls_ok negb].
    + destruct (w >=? blen data) eqn:Hge; intros H; injection H; intros; subst repl st'.
      * split; [|split; [split; assumption|exact Hmemb]].
        exists [EvBucketRead APR_BLOCK_READ; EvSessionWrite data RUSTLS_RESULT_OK w].
        split; [cbn; rewrite <- app_assoc; reflexivity|].
        rewrite Hsame, Hempty, Hd. cbn [flat_map plain_accepted app].
        zbool. unfold blen in Hge. rewrite firstn_all2 by lia.
        rewrite app_nil_r. reflexivity.
      * split; [|split; [split; assumption|exact Hmemb]].
        exists [EvBucketRead APR_BLOCK_READ; EvSessionWrite data RUSTLS_RESULT_OK w].
        split; [cbn; rewrite <- app_assoc; reflexivity|].
        rewrite Hsame, Hempty, Hd. cbn [flat_map plain_accepted app bucket_advance].
        cbn [brigade_bytes flat_map bucket_bytes]. rewrite app_nil_r, app_assoc.
        rewrite firstn_skipn. reflexivity.
    + intros H; injection H; intros; subst repl st'.
      split; [|split; [split; assumption|exact Hmemb]].
      exists [EvBucketRead APR_BLOCK_READ; EvSessionWrite data (RUSTLS_RESULT_ERROR code) w].
      split; [cbn; rewrite <- app_assoc; reflexivity|].
      change (buf_content (log (EvSessionWrite data (RUSTLS_RESULT_ERROR code) w)
                (set_cc_rustls_session (Some s') (log (EvBucketRead APR_BLOCK_READ) st))))
        with (buf_content st).
      rewrite Hempty, Hd. reflexivity.
  - (* the segment is copied behind the bytes of the buffer *)
    assert (Hle : (blen data <=? r) = true) by (apply Z.leb_le; exact Hfit).
    rewrite Hle. cbn [negb].
    intros H; injection H; intros; subst repl st'.
    unfold buf_ok in Hok. pose proof (blen_nonneg data) as Hnn.
    destruct (buf_write_content (fout_buf_plain st) (fout_buf_plain_len st) data)
      as [Hcontent Hlen]; [lia|lia|].
    split; [|split; [|exact Hmemb]].
    + exists [EvBucketRead APR_BLOCK_READ]. split; [reflexivity|].
      unfold buf_content at 2. cbn [fout_buf_plain_len fout_buf_plain set_fout_buf_plain_len
                                      set_fout_buf_plain log set_trace].
      rewrite size_wrap_small by lia. rewrite Hcontent, Hd.
      cbn [flat_map plain_accepted app]. rewrite <- app_assoc. reflexivity.
    + unfold buf_mem_ok, buf_ok.
      cbn [fout_buf_plain_len fout_buf_plain fout_buf_plain_size set_fout_buf_plain_len
             set_fout_buf_plain log set_trace].
      rewrite size_wrap_small by lia. rewrite Hlen. lia.
Qed.

(** [fout_plain_buf_append] on a data segment in memory. *)
Lemma fout_plain_buf_append_conserves (d : bytes) (st st' : ctx)
    (rv : apr_status_t) (wlen : Z) (repl : apr_bucket_brigade) :
  buf_mem_ok st ->
  fout_plain_buf_append X (BUCKET_HEAP d) st = Returns (rv, wlen, repl) st' ->
  conserves st [BUCKET_HEAP d] st' repl /\ buf_mem_ok st'
  /\ forallb in_memory repl = true.
Proof.
  intros Hmem. unfold fout_plain_buf_append. cbn [bucket_length].
  destruct (blen d =? SIZE_UNKNOWN); [discriminate|].
  intros H. apply bind_returns_inv in H. destruct H as ([[fl rv0] r] & st1 & Hroom & H).
  destruct (fout_plain_buf_room_conserves [BUCKET_HEAP d] _ _ _ _ _ Hmem Hroom)
    as (Hc & Hm & Hr).
  destruct fl.
  - destruct (Hr eq_refl) as [Hr1 Hr2].
    destruct (fout_plain_buf_take_conserves _ _ _ _ _ _ _ Hm Hr1 Hr2 H) as (Hc2 & Hm2 & Hi).
    split; [eapply conserves_trans; eassumption|auto].
  - injection H; intros; subst. auto.
Qed.

Lemma conserves_frame (st st' : ctx) (bb bb' rest : apr_bucket_brigade) :
  conserves st bb st' bb' -> conserves st (bb ++ rest) st' (bb' ++ rest).
Proof.
  intros (ev & Ht & Hc). exists ev. split; [exact Ht|].
  unfold brigade_bytes in *. rewrite !flat_map_app, !app_assoc, Hc, !app_assoc.
  reflexivity.
Qed.

(** A step that returns, leaves the buffer alone and only drains the
    engine. *)
Lemma idle_step {A : Type} (o : outcome E N A) (st st' : ctx) (a : A)
    (bb : apr_bucket_brigade) :
  same_buf st (final_ctx o) ->
  adds is_drain_event st (final_ctx o) ->
  o = Returns a st' ->
  conserves st bb st' bb /\ (buf_mem_ok st -> buf_mem_ok st').
Proof.
  intros Hsame Hadds ->. cbn [final_ctx] in *.
  split; [apply idle_conserves; assumption|apply same_buf_mem_ok; assumption].
Qed.

Lemma conn_output_bucket_conserves (fuel : nat) (b : apr_bucket)
    (rest : apr_bucket_brigade) (passed : Z) (st st' : ctx)
    (step : loop_step) (rv : apr_status_t) (bb1 : apr_bucket_brigade) (passed1 : Z) :
  buf_mem_ok st ->
  in_memory b = true ->
  conn_output_bucket X fuel b rest passed st = Returns (step, rv, bb1, passed1) st' ->
  conserves st (b :: rest) st' bb1 /\ buf_mem_ok st'
  /\ (forallb in_memory rest = true -> forallb in_memory bb1 = true).
Proof.
  intros Hmem Hb. unfold conn_output_bucket.
  destruct (APR_BUCKET_IS_METADATA b) eqn:Hmeta.
  - (* a marker *)
    assert (Hbytes : forall bb, brigade_bytes (b :: bb) = brigade_bytes bb)
      by (intros; destruct b; try discriminate Hmeta; reflexivity).
    intros H. apply bind_returns_inv in H. destruct H as (u & st1 & H1 & H).
    assert (C1 : conserves st (b :: rest) st1 (b :: rest) /\ buf_mem_ok st1).
    { destruct (AP_BUCKET_IS_EOC b).
      - apply bind_returns_inv in H1. destruct H1 as (u1 & s1 & Hcn & H1).
        destruct (idle_step _ _ _ _ (b :: rest) (session_send_close_notify_same st)
                    (session_send_close_notify_drains st) Hcn) as [Hc Hm].
        injection H1; intros; subst. split.
        + destruct Hc as (ev & Ht & Hc). exists ev. split; [exact Ht|exact Hc].
        + exact (Hm Hmem).
      - injection H1; intros; subst. split; [apply conserves_refl|exact Hmem]. }
    destruct C1 as [C1 M1].
    apply bind_returns_inv in H. destruct H as (rv2 & st2 & H2 & H).
    destruct (fout_plain_buf_to_rustls_conserves (b :: rest) _ _ _ M1 H2) as [C2 M2].
    pose proof (conserves_trans _ _ _ _ _ _ C1 C2) as C12.
    destruct (negb (apr_status_eqb APR_SUCCESS rv2)).
    { injection H; intros; subst. split; [exact C12|split; [exact M2|]].
      intros Hrest. cbn. rewrite Hb, Hrest. reflexivity. }
    apply bind_returns_inv in H. destruct H as (rv3 & st3 & H3 & H).
    destruct (idle_step _ _ _ _ (b :: rest)
                (calm_same_buf _ _ (brigade_tls_from_rustls_calm fuel st2))
                (brigade_tls_from_rustls_drains fuel st2) H3) as [C3 M3].
    pose proof (conserves_trans _ _ _ _ _ _ C12 C3) as C123.
    destruct (negb (apr_status_eqb APR_SUCCESS rv3)).
    { injection H; intros; subst. split; [exact C123|split; [exact (M3 M2)|]].
      intros Hrest. cbn. rewrite Hb, Hrest. reflexivity. }
    injection H; intros; subst. split; [|split; [exact (M3 M2)|auto]].
    destruct C123 as (ev & Ht & Hc). exists ev. split; [exact Ht|].
    rewrite !Hbytes in Hc. rewrite Hbytes. exact Hc.
  - (* a data segment in memory *)
    destruct b as [| | |d|fd d|reads]; try discriminate.
    cbn [bucket_length apr_bucket_read APR_STATUS_IS_EOF apr_status_eqb negb].
    intros H. apply bind_returns_inv in H. destruct H as ([[step0 rv0] head] & st1 & H1 & H).
    assert (Hhead : step0 = StepNext /\ head = [BUCKET_HEAP d]
                    /\ conserves st [BUCKET_HEAP d] st1 [BUCKET_HEAP d]
                    /\ buf_mem_ok st1).
    { destruct (blen d =? SIZE_UNKNOWN); injection H1; intros; subst.
      - repeat split; try apply Hmem.
        exists [EvBucketRead APR_BLOCK_READ]. split; reflexivity.
      - repeat split; try apply Hmem. apply conserves_refl. }
    destruct Hhead as (-> & -> & C1 & M1).
    apply bind_returns_inv in H. destruct H as ([[rv2 wlen] repl] & st2 & H2 & H).
    destruct (fout_plain_buf_append_conserves _ _ _ _ _ _ M1 H2) as (C2 & M2 & I2).
    pose proof (conserves_frame _ _ _ _ rest (conserves_trans _ _ _ _ _ _ C1 C2)) as C.
    assert (Hin : forallb in_memory rest = true ->
                  forallb in_memory (repl ++ [] ++ rest) = true).
    { intros Hrest. rewrite forallb_app, I2. exact Hrest. }
    match type of H with (if ?c then _ else _) = _ => destruct c end;
      injection H; intros; subst;
      (split; [exact C|split; [exact M2|exact Hin]]).
Qed.

Lemma conn_output_loop_conserves (fuel loops : nat) (rv : apr_status_t)
    (bb : apr_bucket_brigade) (passed : Z) (st st' : ctx)
    (fl : flow) (rv' : apr_status_t) (bb' : apr_bucket_brigade) (passed' : Z) :
  buf_mem_ok st ->
  forallb in_memory bb = true ->
  conn_output_loop X fuel loops rv bb passed st = Returns (fl, rv', bb', passed') st' ->
  conserves st bb st' bb' /\ buf_mem_ok st'.
Proof.
  revert rv bb passed st.
  induction loops as [|loops IH]; intros rv bb passed st Hmem Hbb; cbn [conn_output_loop];
    [discriminate|].
  destruct bb as [|b rest].
  { intros H. injection H; intros; subst. split; [apply conserves_refl|exact Hmem]. }
  cbn [forallb] in Hbb. apply andb_true_iff in Hbb. destruct Hbb as [Hb Hrest].
  intros H. apply bind_returns_inv in H.
  destruct H as ([[[step rv1] bb1] passed1] & st1 & H1 & H).
  destruct (conn_output_bucket_conserves _ _ _ _ _ _ _ _ _ _ Hmem Hb H1) as (C1 & M1 & I1).
  specialize (I1 Hrest).
  assert (Hnext :
            (call (rv2, st2) <-
               (if fout_bytes_in_rustls st1 >=? fout_max_in_rustls st1
                then brigade_tls_from_rustls X fuel st1 else Returns rv1 st1);
             if negb (apr_status_eqb APR_SUCCESS rv2)
             then Returns (GotoCleanup, rv2, bb1, passed1) st2
             else
               call (rv3, st3) <-
                 (if fout_bytes_in_tls_bb st2 >=? fout_max_in_rustls st2
                  then write_all_tls_from_rustls X fuel st2 else Returns rv2 st2);
               if negb (apr_status_eqb APR_SUCCESS rv3)
               then Returns (GotoCleanup, rv3, bb1, passed1) st3
               else conn_output_loop X fuel loops rv3 bb1 passed1 st3)
            = Returns (fl, rv', bb', passed') st' ->
            conserves st (b :: rest) st' bb' /\ buf_mem_ok st').
  { clear H. intros H.
    apply bind_returns_inv in H. destruct H as (rv2 & st2 & H2 & H).
    assert (C2 : conserves st1 bb1 st2 bb1 /\ buf_mem_ok st2).
    { destruct (fout_bytes_in_rustls st1 >=? fout_max_in_rustls st1).
      - destruct (idle_step _ _ _ _ bb1
                    (calm_same_buf _ _ (brigade_tls_from_rustls_calm fuel st1))
                    (brigade_tls_from_rustls_drains fuel st1) H2) as [C M]. auto.
      - injection H2; intros; subst. split; [apply conserves_refl|exact M1]. }
    destruct C2 as [C2 M2].
    pose proof (conserves_trans _ _ _ _ _ _ C1 C2) as C12.
    destruct (negb (apr_status_eqb APR_SUCCESS rv2)).
    { injection H; intros; subst. auto. }
    apply bind_returns_inv in H. destruct H as (rv3 & st3 & H3 & H).
    assert (C3 : conserves st2 bb1 st3 bb1 /\ buf_mem_ok st3).
    { destruct (fout_bytes_in_tls_bb st2 >=? fout_max_in_rustls st2).
      - destruct (idle_step _ _ _ _ bb1
                    (calm_same_buf _ _ (write_all_tls_from_rustls_calm fuel st2))
                    (write_all_tls_from_rustls_drains fuel st2) H3) as [C M]. auto.
      - injection H3; intros; subst. split; [apply conserves_refl|exact M2]. }
    destruct C3 as [C3 M3].
    pose proof (conserves_trans _ _ _ _ _ _ C12 C3) as C123.
    destruct (negb (apr_status_eqb APR_SUCCESS rv3)).
    { injection H; intros; subst. auto. }
    destruct (IH _ _ _ _ M3 I1 H) as [C4 M4].
    split; [eapply conserves_trans; eassumption|exact M4]. }
  destruct step.
  - exact (Hnext H).
  - destruct (IH _ _ _ _ M1 I1 H) as [C4 M4].
    split; [eapply conserves_trans; eassumption|exact M4].
  - exact (Hnext H).
  - injection H; intros; subst. auto.
Qed.

(** X6.  The output filter neither loses plaintext nor puts it out of
    order.  The connection has a session, is not marked aborted and is not
    in the phase [DONE]; the buffer is within its bound and its memory has
    the size of the capacity, as [tls_filter_conn_init] sets it up; the
    brigade holds markers and data segments in memory.  When
    [filter_conn_output] returns, even with an error and even when the
    engine took only parts of what it was offered, the bytes that waited in
    the buffer followed by the bytes of the brigade are the bytes the
    engine accepted during the call, in the order of the calls, followed
    by the bytes that wait in the buffer now and the bytes left in the
    brigade.  The buffer is as well-formed as before. *)
Theorem output_filter_conserves_plaintext (fuel : nat) (bb : apr_bucket_brigade)
    (st st' : ctx) (s : E) (rv : apr_status_t) (bb' : apr_bucket_brigade) :
  buf_mem_ok st ->
  forallb in_memory bb = true ->
  c_aborted st = false ->
  cc_rustls_session st = Some s ->
  cc_state st <> TLS_CONN_ST_DONE ->
  filter_conn_output X fuel bb st = Returns (rv, bb') st' ->
  conserves st bb st' bb' /\ buf_mem_ok st'.
Proof.
  intros Hmem Hbb Hab Hs Hd. unfold filter_conn_output. rewrite Hab, Hs.
  destruct (tls_conn_state_eqb_spec (cc_state st) TLS_CONN_ST_DONE) as [|_];
    [contradiction|].
  cbn [orb]. intros H.
  apply bind_returns_inv in H. destruct H as ([[[fl rv1] bb1] passed1] & st1 & H1 & H).
  destruct (conn_output_loop_conserves _ _ _ _ _ _ _ _ _ _ _ Hmem Hbb H1) as [C1 M1].
  destruct fl.
  - apply bind_returns_inv in H. destruct H as (rv2 & st2 & H2 & H).
    destruct (idle_step _ _ _ _ bb1
                (calm_same_buf _ _ (write_all_tls_from_rustls_calm fuel st1))
                (write_all_tls_from_rustls_drains fuel st1) H2) as [C2 M2].
    injection H; intros; subst.
    split; [eapply conserves_trans; eassumption|exact (M2 M1)].
  - injection H; intros; subst. auto.
Qed.

(** *** What a write call that succeeds has done *)

Lemma session_wants_write_inv (st st' : ctx) (ww : bool) :
  session_wants_write X st = Returns ww st' ->
  st' = st /\ exists s, cc_rustls_session st = Some s
                        /\ rustls_server_session_wants_write X s = ww.
Proof.
  unfold session_wants_write, with_session.
  destruct (cc_rustls_session st) as [s|]; [|discriminate].
  intros H. injection H; intros; subst. split; [reflexivity|]. exists s. auto.
Qed.

Lemma brigade_tls_loop_drained (fuel : nat) (st st' : ctx) (rr : rustls_result) :
  brigade_tls_loop X fuel st = Returns rr st' ->
  rustls_ok rr = true -> engine_drained X st'.
Proof.
  revert st. induction fuel as [|fuel IH]; intros st; cbn [brigade_tls_loop];
    [discriminate|].
  intros H Hok. apply bind_returns_inv in H. destruct H as ([rr1 got] & st1 & _ & H).
  destruct (negb (rustls_ok rr1)) eqn:Hrr.
  - injection H; intros; subst. rewrite Hok in Hrr. discriminate.
  - apply bind_returns_inv in H. destruct H as (again & st4 & Hww & H).
    apply session_wants_write_inv in Hww. destruct Hww as (-> & s & Hs & Hw).
    destruct again.
    + eapply IH; eassumption.
    + injection H; intros; subst. exists s. auto.
Qed.

Lemma brigade_tls_from_rustls_drained (fuel : nat) (st st' : ctx) :
  (forall rr, rustls_ok rr = false -> tls_util_rustls_error X rr <> APR_SUCCESS) ->
  brigade_tls_from_rustls X fuel st = Returns APR_SUCCESS st' ->
  engine_drained X st'.
Proof.
  intros Herr. unfold brigade_tls_from_rustls. intros H.
  apply bind_returns_inv in H. destruct H as (ww & st0 & Hww & H).
  apply session_wants_write_inv in Hww. destruct Hww as (-> & s & Hs & Hw).
  destruct ww.
  - apply bind_returns_inv in H. destruct H as (rr & st1 & Hloop & H).
    destruct (rustls_ok rr) eqn:Hok; cbn [negb] in H.
    + injection H; intros; subst.
      destruct (brigade_tls_loop_drained _ _ _ _ Hloop Hok) as (s1 & Hs1 & Hw1).
      exists s1. auto.
    + injection H; intros. exfalso. eapply Herr; eassumption.
  - injection H; intros; subst. exists s. auto.
Qed.

Lemma write_all_tls_from_rustls_success (fuel : nat) (st st' : ctx) :
  (forall rr, rustls_ok rr = false -> tls_util_rustls_error X rr <> APR_SUCCESS) ->
  write_all_tls_from_rustls X fuel st = Returns APR_SUCCESS st' ->
  fout_tls_bb st' = [] /\ engine_drained X st'.
Proof.
  intros Herr. unfold write_all_tls_from_rustls. intros H.
  apply bind_returns_inv in H. destruct H as (rv & st1 & Hb & H).
  destruct (apr_status_eqb_spec APR_SUCCESS rv) as [<-|Hne]; cbn [negb] in H.
  2: { injection H; intros; subst. congruence. }
  pose proof (brigade_tls_from_rustls_drained _ _ _ Herr Hb) as (s & Hs & Hw).
  destruct (fout_tls_bb st1) as [|b bb] eqn:Hbb.
  - injection H; intros; subst. split; [exact Hbb|]. exists s. auto.
  - unfold next_pass_brigade in H.
    destruct (ap_pass_brigade X (next st1) (b :: bb)) as [[[rv2 ab] remains] n'].
    injection H; intros; subst. split; [reflexivity|]. exists s. auto.
Qed.

Lemma conn_output_bucket_cleanup (fuel : nat) (b : apr_bucket) (rest : apr_bucket_brigade)
    (passed : Z) (st st' : ctx) (rv : apr_status_t) (bb1 : apr_bucket_brigade)
    (passed1 : Z) :
  conn_output_bucket X fuel b rest passed st = Returns (StepCleanup, rv, bb1, passed1) st' ->
  rv <> APR_SUCCESS.
Proof.
  unfold conn_output_bucket. destruct (APR_BUCKET_IS_METADATA b).
  - intros H. apply bind_returns_inv in H. destruct H as (u & st1 & _ & H).
    apply bind_returns_inv in H. destruct H as (rv2 & st2 & _ & H).
    destruct (apr_status_eqb_spec APR_SUCCESS rv2) as [<-|Hne]; cbn [negb] in H.
    2: { injection H; intros; subst. congruence. }
    apply bind_returns_inv in H. destruct H as (rv3 & st3 & _ & H).
    destruct (apr_status_eqb_spec APR_SUCCESS rv3) as [<-|Hne]; cbn [negb] in H.
    2: { injection H; intros; subst. congruence. }
    discriminate.
  - intros H. apply bind_returns_inv in H.
    destruct H as ([[step0 rv0] head] & st1 & H1 & H).
    assert (Hstep : step0 = StepCleanup -> rv0 <> APR_SUCCESS).
    { destruct (bucket_length b =? SIZE_UNKNOWN).
      - destruct (apr_bucket_read b APR_BLOCK_READ) as [[[rv1 data] b1] behind].
        destruct (APR_STATUS_IS_EOF rv1); [injection H1; intros; subst; discriminate|].
        destruct (apr_status_eqb_spec APR_SUCCESS rv1) as [<-|Hne]; cbn [negb] in H1;
          injection H1; intros; subst; [discriminate|congruence].
      - injection H1; intros; subst. discriminate. }
    destruct step0; destruct head as [|b1 behind];
      try (injection H; intros; subst; try discriminate; auto; fail).
    apply bind_returns_inv in H. destruct H as ([[rv2 wlen] repl] & st2 & _ & H).
    destruct (apr_status_eqb_spec APR_SUCCESS rv2) as [<-|Hne]; cbn [negb] in H;
      injection H; intros; subst; [discriminate|congruence].
Qed.

Lemma conn_output_loop_ends (fuel loops : nat) (rv : apr_status_t)
    (bb : apr_bucket_brigade) (passed : Z) (st st' : ctx)
    (fl : flow) (rv' : apr_status_t) (bb' : apr_bucket_brigade) (passed' : Z) :
  conn_output_loop X fuel loops rv bb passed st = Returns (fl, rv', bb', passed') st' ->
  match fl with
  | Fallthrough => bb' = []
  | GotoCleanup => rv' <> APR_SUCCESS
  end.
Proof.
  revert rv bb passed st.
  induction loops as [|loops IH]; intros rv bb passed st; cbn [conn_output_loop];
    [discriminate|].
  destruct bb as [|b rest].
  { intros H. injection H; intros; subst. reflexivity. }
  intros H. apply bind_returns_inv in H.
  destruct H as ([[[step rv1] bb1] passed1] & st1 & H1 & H).
  assert (Hnext :
            (call (rv2, st2) <-
               (if fout_bytes_in_rustls st1 >=? fout_max_in_rustls st1
                then brigade_tls_from_rustls X fuel st1 else Returns rv1 st1);
             if negb (apr_status_eqb APR_SUCCESS rv2)
             then Returns (GotoCleanup, rv2, bb1, passed1) st2
             else
               call (rv3, st3) <-
                 (if fout_bytes_in_tls_bb st2 >=? fout_max_in_rustls st2
                  then write_all_tls_from_rustls X fuel st2 else Returns rv2 st2);
               if negb (apr_status_eqb APR_SUCCESS rv3)
               then Returns (GotoCleanup, rv3, bb1, passed1) st3
               else conn_output_loop X fuel loops rv3 bb1 passed1 st3)
            = Returns (fl, rv', bb', passed') st' ->
            match fl with
            | Fallthrough => bb' = []
            | GotoCleanup => rv' <> APR_SUCCESS
            end).
  { clear H. intros H.
    apply bind_returns_inv in H. destruct H as (rv2 & st2 & _ & H).
    destruct (apr_status_eqb_spec APR_SUCCESS rv2) as [<-|Hne]; cbn [negb] in H.
    2: { injection H; intros; subst. congruence. }
    apply bind_returns_inv in H. destruct H as (rv3 & st3 & _ & H).
    destruct (apr_status_eqb_spec APR_SUCCESS rv3) as [<-|Hne]; cbn [negb] in H.
    2: { injection H; intros; subst. congruence. }
    eapply IH; exact H. }
  destruct step.
  - exact (Hnext H).
  - eapply IH; exact H.
  - exact (Hnext H).
  - injection H; intros; subst.
    eapply conn_output_bucket_cleanup; exact H1.
Qed.

(** X7.  A write call that succeeds has taken in all it was given and
    holds no TLS bytes back.  [tls_util_rustls_error] is taken to map no
    error of the engine to [APR_SUCCESS].  On a connection that has a
    session and is not in the phase [DONE], when [filter_conn_output]
    returns [APR_SUCCESS] the brigade of the caller is empty, the brigade
    [fout_tls_bb] of TLS bytes on their way to the network is empty, and
    the engine reported at its last test that it has nothing to write.
    (Plaintext may still wait in the buffer for a marker or for more
    data.) *)
Theorem successful_write_leaves_nothing_behind (fuel : nat) (bb : apr_bucket_brigade)
    (st st' : ctx) (s : E) (bb' : apr_bucket_brigade) :
  (forall rr, rustls_ok rr = false -> tls_util_rustls_error X rr <> APR_SUCCESS) ->
  cc_rustls_session st = Some s ->
  cc_state st <> TLS_CONN_ST_DONE ->
  filter_conn_output X fuel bb st = Returns (APR_SUCCESS, bb') st' ->
  bb' = [] /\ fout_tls_bb st' = [] /\ engine_drained X st'.
Proof.
  intros Herr Hs Hd. unfold filter_conn_output.
  destruct (c_aborted st); [discriminate|]. rewrite Hs.
  destruct (tls_conn_state_eqb_spec (cc_state st) TLS_CONN_ST_DONE) as [|_];
    [contradiction|].
  cbn [orb]. intros H.
  apply bind_returns_inv in H. destruct H as ([[[fl rv1] bb1] passed1] & st1 & H1 & H).
  pose proof (conn_output_loop_ends _ _ _ _ _ _ _ _ _ _ _ H1) as Hend.
  destruct fl.
  - apply bind_returns_inv in H. destruct H as (rv2 & st2 & H2 & H).
    injection H; intros; subst.
    destruct (write_all_tls_from_rustls_success _ _ _ Herr H2) as [Hbb Hdr]. auto.
  - injection H; intros; subst. congruence.
Qed.

(** *** Plaintext that waits is served without a pull *)

(** X8.  When [tls_filter_input_pending] answers [OK] the next read
    is served from the plaintext queue.  The answer [OK] means that the
    connection is not aborted, is not in the phase [IGNORED] and has
    plaintext in [fin_plain_bb].  A read call on such a connection, with a
    session and behind the handshake phases, fetches nothing from the
    network and neither feeds the engine nor reads plaintext from it,
    whatever its mode: the only events of the call are those by which TLS
    bytes that the engine wants to write leave for the network. *)
Theorem pending_plaintext_is_served_without_a_pull (fuel : nat) (bb : apr_bucket_brigade)
    (mode : ap_input_mode_t) (block : apr_read_type_e) (readbytes : Z) (st : ctx) (s : E) :
  tls_filter_input_pending (c_aborted st) (Some (cc_state st, Some st)) = OK ->
  cc_rustls_session st = Some s ->
  past_handshake st ->
  adds is_drain_event st
    (final_ctx (filter_conn_input X fuel bb mode block readbytes st)).
Proof.
  unfold tls_filter_input_pending, past_handshake. intros Hpend Hs [Hpre Hhs].
  destruct (c_aborted st) eqn:Hab; [discriminate|]. cbn [orb] in Hpend.
  destruct (tls_conn_state_eqb TLS_CONN_ST_IGNORED (cc_state st)); [discriminate|].
  destruct (fin_plain_bb st) as [|p plain] eqn:Hplain; [discriminate|]. clear Hpend.
  unfold filter_conn_input. cbv zeta.
  change (c_aborted (set_fin_block block st)) with (c_aborted st).
  change (cc_rustls_session (set_fin_block block st)) with (cc_rustls_session st).
  rewrite Hab, Hs.
  unfold filter_conn_input_refill, filter_conn_input_handshake.
  change (cc_state (set_fin_block block st)) with (cc_state st).
  destruct (tls_conn_state_eqb_spec TLS_CONN_ST_PRE_HANDSHAKE (cc_state st)) as [He|_];
    [congruence|].
  cbn [bind].
  change (cc_state (set_fin_block block st)) with (cc_state st).
  destruct (tls_conn_state_eqb_spec TLS_CONN_ST_HANDSHAKE (cc_state st)) as [He|_];
    [congruence|].
  apply adds_trans with (b := set_fin_block block st); [adds_fields|].
  assert (Hloop : input_fill_loop X fuel fuel APR_SUCCESS (set_fin_block block st)
                  = match fuel with
                    | O => Spins (set_fin_block block st)
                    | Datatypes.S _ =>
                        Returns (Fallthrough, APR_SUCCESS, RUSTLS_RESULT_OK)
                                (set_fin_block block st)
                    end).
  { destruct fuel; cbn [input_fill_loop]; [reflexivity|].
    change (fin_plain_bb (set_fin_block block st)) with (fin_plain_bb st).
    rewrite Hplain. reflexivity. }
  pose proof filter_conn_input_modes_calm as Hmodes.
  assert (Hm : forall bb0 md bl rb s0,
             adds is_drain_event s0
               (final_ctx (filter_conn_input_modes X bb0 md bl rb s0))).
  { intros. unfold filter_conn_input_modes. drains. }
  destruct mode; cbn [bind]; rewrite ?Hloop; try (cbn [final_ctx]; apply adds_refl);
    destruct fuel; cbn [bind final_ctx]; try apply adds_refl; drains.
Qed.

(** *** The TLS bytes on their way into the engine *)

Lemma feeds_refl (st : ctx) : feeds st st.
Proof. exists []. rewrite app_nil_r. split; reflexivity. Qed.

Lemma feeds_trans (a b c : ctx) : feeds a b -> feeds b c -> feeds a c.
Proof.
  intros (e1 & H1 & C1) (e2 & H2 & C2). exists (e1 ++ e2). split.
  - rewrite H2, H1, app_assoc. reflexivity.
  - rewrite C1, C2, flat_map_app, !app_assoc. reflexivity.
Qed.

Lemma read_tls_loop_feeds (fuel : nat) (len : Z) (rv : apr_status_t)
    (block : apr_read_type_e) (passed : Z) (st st' : ctx)
    (r : flow * apr_status_t * rustls_result * Z) :
  forallb in_memory (fin_tls_bb st) = true ->
  read_tls_loop X fuel len rv block passed st = Returns r st' ->
  feeds st st'.
Proof.
  revert rv block passed st.
  induction fuel as [|fuel IH]; intros rv block passed st Hmem; cbn [read_tls_loop];
    [discriminate|].
  destruct (fin_tls_bb st) as [|b rest] eqn:Hbb.
  { intros H. injection H; intros; subst. apply feeds_refl. }
  destruct (negb (passed <? len)).
  { intros H. injection H; intros; subst. apply feeds_refl. }
  cbn [forallb] in Hmem. apply andb_true_iff in Hmem. destruct Hmem as [Hb Hrest].
  destruct (APR_BUCKET_IS_EOS b) eqn:Heos.
  { cbv zeta. destruct (fin_tls_buffer_bb (log EvEndOfStream st)); [|discriminate].
    intros H. injection H; intros; subst.
    exists [EvEndOfStream]. split; reflexivity. }
  assert (Hread : exists data,
             apr_bucket_read b block = (APR_SUCCESS, data, b, [])
             /\ bucket_bytes b = data).
  { destruct b; try discriminate; eexists; split; reflexivity. }
  destruct Hread as (data & -> & Hdata).
  cbn [APR_STATUS_IS_EOF apr_status_eqb negb app].
  set (st1 := log (EvBucketRead block) (set_fin_tls_bb (b :: rest) st)).
  assert (F1 : feeds st st1).
  { exists [EvBucketRead block]. split; [reflexivity|]. cbn. rewrite Hbb. reflexivity. }
  destruct (0 <? blen data) eqn:Hpos.
  - destruct (session_read_tls_inv data st1) as [->|(rr & rlen & s' & ->)]; cbn [bind];
      [discriminate|].
    destruct rr as [|code]; cbn [rustls_ok negb].
    + set (st2 := log (EvReadTls data RUSTLS_RESULT_OK rlen)
                    (set_cc_rustls_session (Some s') st1)).
      intros H.
      assert (Hstep : forall (st5 : ctx) (bb5 : apr_bucket_brigade),
                 trace st5 = trace st2 ->
                 fin_tls_bb st5 = bb5 ->
                 brigade_bytes bb5 = skipn (Z.to_nat rlen) data ++ brigade_bytes rest ->
                 forallb in_memory bb5 = true ->
                 read_tls_loop X fuel len APR_SUCCESS APR_NONBLOCK_READ
                   (passed + rlen) st5 = Returns r st' ->
                 feeds st st').
      { intros st5 bb5 Ht5 Hb5 Hbytes Hmem5 Ho.
        eapply feeds_trans; [|eapply IH; [|exact Ho]; rewrite Hb5; exact Hmem5].
        exists [EvBucketRead block; EvReadTls data RUSTLS_RESULT_OK rlen]. split.
        - rewrite Ht5. cbn. rewrite <- app_assoc. reflexivity.
        - rewrite Hbb, Hb5, Hbytes. cbn [flat_map tls_fed app brigade_bytes].
          rewrite Hdata, app_nil_r, app_assoc, firstn_skipn. reflexivity. }
      revert H.
      destruct (fin_tls_buffer_bb st2) as [buf|];
        (destruct (rlen >=? blen data) eqn:Hge;
         [ intros H; eapply Hstep; [| | | |exact H];
           [ reflexivity | reflexivity
           | zbool; unfold blen in Hge; rewrite skipn_all2 by lia; reflexivity
           | exact Hrest ]
         | intros H; eapply Hstep; [| | | |exact H];
           [ reflexivity | reflexivity
           | subst data; destruct b; try discriminate; try discriminate Hpos;
             cbn; rewrite ?app_nil_r; reflexivity
           | destruct b; try discriminate; cbn; exact Hrest ] ]).
    + intros H. injection H; intros; subst st'.
      exists [EvBucketRead block; EvReadTls data (RUSTLS_RESULT_ERROR code) rlen]. split.
      * cbn. rewrite <- app_assoc. reflexivity.
      * cbn. rewrite Hbb. reflexivity.
  - intros H. eapply feeds_trans; [|eapply IH; [|exact H]; exact Hrest].
    exists [EvBucketRead block]. split; [reflexivity|]. cbn. rewrite Hbb.
    cbn. rewrite Hdata.
    assert (Hnil : data = []).
    { destruct data; [reflexivity|]. unfold blen in Hpos. cbn in Hpos. zbool. lia. }
    rewrite Hnil. reflexivity.
Qed.

(** X9.  TLS bytes reach the engine complete and in order.  [fetched]
    is what the filters below deliver when [read_tls_to_rustls] finds
    [fin_tls_bb] empty and asks them; the buckets are markers and data in
    memory.  When the call returns, the bytes that waited in [fin_tls_bb]
    followed by the fetched ones are the bytes the engine took in during
    the call, in the order of the calls, followed by the bytes that wait
    in [fin_tls_bb] now: a bucket that the engine took only a part of
    keeps its other bytes, and nothing is dropped when the call stops at an
    error or at the end of the stream. *)
Theorem tls_bytes_reach_the_engine_in_order (fuel : nat) (len : Z) (st st' : ctx) (rv : apr_status_t) :
  let fetched := match fin_tls_bb st with
                 | [] => snd (fst (ap_get_brigade X (next st) AP_MODE_READBYTES
                                     (fin_block st) len))
                 | _ :: _ => []
                 end in
  forallb in_memory (fin_tls_bb st ++ fetched) = true ->
  read_tls_to_rustls X fuel len st = Returns rv st' ->
  exists ev,
    trace st' = trace st ++ ev
    /\ brigade_bytes (fin_tls_bb st ++ fetched)
       = flat_map tls_fed ev ++ brigade_bytes (fin_tls_bb st').
Proof.
  intros fetched Hmem. unfold read_tls_to_rustls. intros H.
  apply bind_returns_inv in H. destruct H as ([[rv1 rr] passed] & st1 & Hbody & H).
  injection H; intros; subst. clear H.
  unfold read_tls_body in Hbody.
  apply bind_returns_inv in Hbody.
  destruct Hbody as ([[[fl rv2] rr2] passed2] & st2 & Hloop & Htail).
  assert (F2 : exists ev,
             trace st2 = trace st ++ ev
             /\ brigade_bytes (fin_tls_bb st ++ fetched)
                = flat_map tls_fed ev ++ brigade_bytes (fin_tls_bb st2)).
  { subst fetched. destruct (fin_tls_bb st) as [|b rest] eqn:Hbb.
    - unfold next_get_brigade in Hloop.
      destruct (ap_get_brigade X (next st) AP_MODE_READBYTES (fin_block st) len)
        as [[rv0 got] n']. cbn [fst snd app] in *.
      set (st0 := set_fin_tls_bb _ _) in Hloop.
      assert (F0 : trace st0 = trace st ++ [EvGetBrigade AP_MODE_READBYTES (fin_block st) len]
                   /\ fin_tls_bb st0 = got).
      { subst st0. cbn. rewrite Hbb. auto. }
      destruct F0 as [Ht0 Hb0].
      destruct (negb (apr_status_eqb APR_SUCCESS rv0)).
      + injection Hloop; intros; subst st2. eexists. split; [exact Ht0|].
        rewrite Hb0. reflexivity.
      + apply read_tls_loop_feeds in Hloop; [|rewrite Hb0; exact Hmem].
        destruct Hloop as (ev & Ht & Hc). eexists. split.
        * rewrite Ht, Ht0, <- app_assoc. reflexivity.
        * rewrite Hb0 in Hc. rewrite Hc. reflexivity.
    - rewrite app_nil_r in *. apply read_tls_loop_feeds in Hloop; [|rewrite Hbb; exact Hmem].
      unfold feeds in Hloop. rewrite Hbb in Hloop. exact Hloop. }
  destruct F2 as (ev & Ht & Hc).
  assert (Hend : trace st' = trace st2 \/ trace st' = trace st2 ++ [EvProcessNewPackets]).
  { destruct fl; [|injection Htail; intros; subst; auto].
    destruct (0 <? passed2); [|injection Htail; intros; subst; auto].
    apply bind_returns_inv in Htail. destruct Htail as (rr' & st3 & Hp & Htail).
    injection Htail; intros; subst.
    unfold session_process_new_packets, with_session in Hp.
    destruct (cc_rustls_session st2) as [s|]; [|discriminate].
    destruct (rustls_server_session_process_new_packets X s) as [rr0 s'].
    injection Hp; intros; subst. right. reflexivity. }
  assert (Hsame : fin_tls_bb st' = fin_tls_bb st2).
  { destruct fl; [|injection Htail; intros; subst; auto].
    destruct (0 <? passed2); [|injection Htail; intros; subst; auto].
    apply bind_returns_inv in Htail. destruct Htail as (rr' & st3 & Hp & Htail).
    injection Htail; intros; subst.
    unfold session_process_new_packets, with_session in Hp.
    destruct (cc_rustls_session st2) as [s|]; [|discriminate].
    destruct (rustls_server_session_process_new_packets X s) as [rr0 s'].
    injection Hp; intros; subst. reflexivity. }
  destruct Hend as [He|He].
  - exists ev. rewrite He, Hsame. auto.
  - exists (ev ++ [EvProcessNewPackets]). rewrite He, Ht, Hsame, flat_map_app, <- app_assoc.
    split; [reflexivity|]. cbn. rewrite app_nil_r. exact Hc.
Qed.

(** *** The read side leaves the plaintext buffer of the write side alone *)

Ltac same_leaf :=
  first
    [ apply calm_same_buf; calm_leaf
    | repeat match goal with
             | |- context [match ?x with _ => _ end] => destruct x
             end;
      same_buf_leaf ].

Ltac sames := repeat run_step (@same_buf_trans E N) same_leaf.

Hint Resolve calm_same_buf session_send_close_notify_same : core.

Lemma filter_abort_same (fuel : nat) (st : ctx) :
  same_buf st (final_ctx (filter_abort X fuel st)).
Proof. unfold filter_abort. sames. Qed.

Hint Resolve filter_abort_same : core.

Lemma filter_conn_input_same (fuel : nat) (bb : apr_bucket_brigade)
    (mode : ap_input_mode_t) (block : apr_read_type_e) (readbytes : Z) (st : ctx) :
  same_buf st (final_ctx (filter_conn_input X fuel bb mode block readbytes st)).
Proof.
  pose proof input_fill_loop_calm as Hfill.
  pose proof pre_handshake_loop_calm as Hpre.
  pose proof handshake_loop_calm as Hhs.
  unfold filter_conn_input, filter_conn_input_refill, filter_conn_input_modes,
    filter_conn_input_handshake, filter_do_pre_handshake, filter_do_handshake. cbv zeta.
  apply same_buf_trans with (b := set_fin_block block st); [same_buf_leaf|].
  sames.
Qed.

(** *** The two filters, each on its side *)

(** X1.  The output filter works on the write side only.  Whatever
    brigade it is given and wherever its run ends, the events it adds to
    the trace are blocking reads of the buckets of the caller, writes of
    plaintext to the engine, reads of TLS bytes from the engine, a
    close-notify and brigades passed to the filters below.  It fetches
    nothing from the network, feeds no TLS bytes to the engine and reads no
    plaintext from it. *)
Theorem output_filter_stays_on_the_write_side (fuel : nat) (bb : apr_bucket_brigade)
    (st : ctx) :
  exists ev,
    trace (final_ctx (filter_conn_output X fuel bb st)) = trace st ++ ev
    /\ forallb is_output_event ev = true.
Proof.
  change (adds is_output_event st (final_ctx (filter_conn_output X fuel bb st))).
  unfold filter_conn_output. outputs.
Qed.

(** X2.  The input filter works on the read side only.  Whatever its
    mode and wherever its run ends, it writes no plaintext to the engine,
    and it leaves the plaintext buffer of the output filter as it is:
    capacity, length and bytes. *)
Theorem input_filter_stays_on_the_read_side (fuel : nat) (bb : apr_bucket_brigade)
    (mode : ap_input_mode_t) (block : apr_read_type_e) (readbytes : Z) (st : ctx) :
  (exists ev,
      trace (final_ctx (filter_conn_input X fuel bb mode block readbytes st))
      = trace st ++ ev
      /\ forallb is_input_event ev = true)
  /\ same_buf st (final_ctx (filter_conn_input X fuel bb mode block readbytes st)).
Proof.
  split; [apply filter_conn_input_inputs|apply filter_conn_input_same].
Qed.

(** X3.  The phase of a connection never goes back.  In the order
    [IGNORED], [PRE_HANDSHAKE], [HANDSHAKE], [TRAFFIC], [NOTIFIED],
    [DONE], the phase in which a call of [filter_conn_input] or of
    [filter_conn_output] ends, however it ends, is the phase it started in
    or a later one.  In particular [DONE] is never left. *)
Theorem connection_phase_never_goes_back (fuel : nat) (st : ctx) :
  (forall bb mode block readbytes,
      (phase_rank (cc_state st)
       <= phase_rank
            (cc_state (final_ctx (filter_conn_input X fuel bb mode block readbytes st))))%nat)
  /\ (forall bb,
         (phase_rank (cc_state st)
          <= phase_rank (cc_state (final_ctx (filter_conn_output X fuel bb st))))%nat).
Proof.
  split; intros.
  - apply filter_conn_input_advances.
  - apply filter_conn_output_advances.
Qed.

(** X4.  The two handshake steps end in one of three ways.  When
    [filter_do_pre_handshake] or [filter_do_handshake] returns, the status
    is [APR_SUCCESS] or one that [APR_STATUS_IS_EAGAIN] accepts, and then
    the phase is the one the step started in and no close-notify was sent;
    or the status is [APR_ECONNABORTED], and then the step has run
    [filter_abort]: the connection is in the phase [DONE] and, unless it
    was there before, marked aborted.  No other status of a failed read or
    write gets to the caller. *)
Theorem handshake_steps_end_in_three_ways (fuel : nat) (st st' : ctx) (rv : apr_status_t) :
  filter_do_pre_handshake X fuel st = Returns rv st'
  \/ filter_do_handshake X fuel st = Returns rv st' ->
  ((rv = APR_SUCCESS \/ APR_STATUS_IS_EAGAIN rv = true)
   /\ cc_state st' = cc_state st
   /\ close_notifies (trace st') = close_notifies (trace st))
  \/ (rv = APR_ECONNABORTED
      /\ cc_state st' = TLS_CONN_ST_DONE
      /\ (cc_state st <> TLS_CONN_ST_DONE -> c_aborted st' = true)).
Proof.
  intros H.
  assert (Hst : ((rv = APR_SUCCESS \/ APR_STATUS_IS_EAGAIN rv = true) /\ calm st st')
                \/ (rv = APR_ECONNABORTED /\ cc_state st' = TLS_CONN_ST_DONE
                    /\ (cc_state st <> TLS_CONN_ST_DONE -> c_aborted st' = true))).
  { destruct H as [H|H];
      [eapply filter_do_pre_handshake_status|eapply filter_do_handshake_status]; exact H. }
  destruct Hst as [[Hrv Hcalm]|Hab]; [left|right; exact Hab].
  split; [exact Hrv|].
  destruct Hcalm as (_ & _ & Hs & ev & Ht & Hc). split; [exact Hs|].
  unfold close_notifies in *. rewrite Ht, filter_app, Hc, app_nil_r. reflexivity.
Qed.

End Bounds.
(** *** The claims on the small engine *)

(** C1, at the input where the code leaves the claim.  The sniffing is
    driven by non-blocking reads.  The first call feeds the byte "a" to the
    provisional engine, finds nothing more to read and returns
    [APR_EAGAIN] in the phase [PRE_HANDSHAKE].  The second call starts
    [filter_do_pre_handshake] again, which makes a new replay buffer, feeds
    "bcd" and sees the opening message complete.  The provisional engine was
    fed "abcd"; what is queued for the final engine, and then fed to it, is
    "bcd": the byte of the first call is lost. *)
Theorem sniffing_in_two_calls_loses_bytes :
  returned sniff_first_call = Some (APR_EAGAIN, [])
  /\ cc_state (final_ctx sniff_first_call) = TLS_CONN_ST_PRE_HANDSHAKE
  /\ fin_tls_buffer_bb (final_ctx sniff_first_call) = Some [BUCKET_HEAP (bs "a")]
  /\ returned sniff_second_pre_handshake = Some APR_SUCCESS
  /\ brigade_bytes (fin_tls_bb (final_ctx sniff_second_pre_handshake)) = bs "bcd"
  /\ fed_to_provisional (trace (final_ctx sniff_second_pre_handshake)) = bs "abcd"
  /\ cc_state (final_ctx sniff_second_call) = TLS_CONN_ST_HANDSHAKE
  /\ fed_to_provisional (trace (final_ctx sniff_second_call)) = bs "abcd"
  /\ fed_to_final (trace (final_ctx sniff_second_call)) = bs "bcd".
Proof. vm_compute. repeat split. Qed.



Lemma fout_buf_plain_len_within_capacity_witness :
  buf_ok full_buf_conn
  /\ 0 < fout_buf_plain_len full_buf_conn
  /\ fout_buf_plain_len full_buf_conn = fout_buf_plain_size full_buf_conn
  /\ cc_rustls_session full_buf_conn = Some (toy_new 4 100)
  /\ bucket_length (BUCKET_HEAP (bs "i")) <> SIZE_UNKNOWN
  /\ (forall bb,
         buf_ok (final_ctx (filter_conn_output (toy 4) 10 bb full_buf_conn))
         /\ fout_buf_plain_size (final_ctx (filter_conn_output (toy 4) 10 bb full_buf_conn))
            = fout_buf_plain_size full_buf_conn)
  /\ (forall b, buf_ok (final_ctx (fout_plain_buf_append (toy 4) b full_buf_conn)))
  /\ buf_ok (final_ctx (fout_plain_buf_to_rustls (toy 4) full_buf_conn))
  /\ (exists rr wlen ev,
         trace (final_ctx (fout_plain_buf_append (toy 4) (BUCKET_HEAP (bs "i"))
                             full_buf_conn))
         = trace full_buf_conn
           ++ EvSessionWrite
                (firstn (Z.to_nat (fout_buf_plain_len full_buf_conn))
                   (fout_buf_plain full_buf_conn))
                rr wlen :: ev).
Proof.
  assert (H : buf_ok full_buf_conn) by (unfold buf_ok; cbn; lia).
  assert (Hpos : 0 < fout_buf_plain_len full_buf_conn) by (cbn; lia).
  assert (Hfull : fout_buf_plain_len full_buf_conn = fout_buf_plain_size full_buf_conn)
    by reflexivity.
  assert (Hs : cc_rustls_session full_buf_conn = Some (toy_new 4 100)) by reflexivity.
  assert (Hlen : bucket_length (BUCKET_HEAP (bs "i")) <> SIZE_UNKNOWN)
    by (vm_compute; discriminate).
  destruct (fout_buf_plain_len_within_capacity (toy 4) 10 full_buf_conn H)
    as (Hout & Happ & Hflush & Hfirst).
  repeat (split; [assumption|]).
  exact (Hfirst (BUCKET_HEAP (bs "i")) (toy_new 4 100) Hpos Hfull Hs Hlen).
Defined.

(** C5 as stated fails.  In one blocking read call the first fill attempt
    pulls a byte, the engine has no plaintext, and the second fill attempt
    fetches from the network in blocking mode again, although data has
    arrived; so does the third. *)
Lemma later_fill_attempts_block_again :
  spec_pulls APR_BLOCK_READ (trace (final_ctx blocking_read_call)) = false
  /\ trace (final_ctx blocking_read_call)
     = [ EvGetBrigade AP_MODE_READBYTES APR_BLOCK_READ 12;
         EvBucketRead APR_BLOCK_READ;
         EvReadTls (bs "a") RUSTLS_RESULT_OK 1;
         EvProcessNewPackets;
         EvSessionRead [];
         EvGetBrigade AP_MODE_READBYTES APR_BLOCK_READ 12;
         EvBucketRead APR_BLOCK_READ;
         EvReadTls (bs "b") RUSTLS_RESULT_OK 1;
         EvProcessNewPackets;
         EvSessionRead [];
         EvGetBrigade AP_MODE_READBYTES APR_BLOCK_READ 12 ].
Proof. vm_compute. repeat split. Qed.

(** C6, at the input where the code leaves the claim.  In the traffic
    phase the replay buffer [fin_tls_buffer_bb] is NULL.  When the filters
    below deliver an end-of-stream bucket, [read_tls_to_rustls] hands that
    NULL pointer to [apr_brigade_cleanup] and the run ends in a fault: it
    neither returns [APR_EOF] when no bytes were passed nor [APR_SUCCESS]
    when a byte was passed to the engine before. *)
Theorem end_of_stream_bucket_faults_in_traffic :
  fin_tls_buffer_bb traffic_conn = None
  /\ (exists st, eos_alone_call = Faults FaultNull st
                 /\ trace st = [ EvGetBrigade AP_MODE_READBYTES APR_BLOCK_READ 100;
                                 EvEndOfStream ])
  /\ (exists st, eos_after_data_call = Faults FaultNull st
                 /\ trace st = [ EvGetBrigade AP_MODE_READBYTES APR_BLOCK_READ 100;
                                 EvBucketRead APR_BLOCK_READ;
                                 EvReadTls (bs "a") RUSTLS_RESULT_OK 1;
                                 EvEndOfStream ]).
Proof.
  split; [reflexivity|]. split; eexists; split; vm_compute; reflexivity.
Qed.

(** C7 as stated fails.  The connection was brought to the phase [DONE] by
    [filter_abort], which marks it aborted.  A write call on it does not
    pass its data to the next filter: it drops the data, returns
    [APR_ECONNABORTED] and leaves the trace as it was. *)
Lemma write_after_abort_is_dropped :
  cc_state aborted_conn = TLS_CONN_ST_DONE
  /\ c_aborted aborted_conn = true
  /\ write_after_abort_call = Returns (APR_ECONNABORTED, []) aborted_conn
  /\ events_since (trace aborted_conn) (trace (final_ctx write_after_abort_call)) = [].
Proof. vm_compute. repeat split. Qed.

Lemma done_connection_is_left_alone_witness :
  cc_state aborted_conn = TLS_CONN_ST_DONE
  /\ (filter_abort (toy 4) 10 aborted_conn = Returns APR_ECONNABORTED aborted_conn
      /\ (c_aborted aborted_conn = true ->
          (forall bb,
              filter_conn_output (toy 4) 10 bb aborted_conn
              = Returns (APR_ECONNABORTED, []) aborted_conn)
          /\ (forall bb mode block readbytes,
                 filter_conn_input (toy 4) 10 bb mode block readbytes aborted_conn
                 = Returns (APR_ECONNABORTED, bb) (set_fin_block block aborted_conn)))
      /\ (c_aborted aborted_conn = false ->
          forall bb,
          exists rv aborted remains n',
            ap_pass_brigade (toy 4) (next aborted_conn) bb = (rv, aborted, remains, n')
            /\ filter_conn_output (toy 4) 10 bb aborted_conn
               = Returns (rv, remains)
                   (log (EvPassBrigade bb)
                      (set_c_aborted aborted (set_next n' aborted_conn))))).
Proof.
  assert (H : cc_state aborted_conn = TLS_CONN_ST_DONE) by reflexivity.
  split; [exact H|].
  exact (done_connection_is_left_alone (toy 4) 10 aborted_conn H).
Defined.

(** C8, at the input where the code leaves the claim.  Two bytes of data
    and a flush marker are written in one call and the engine takes one byte
    per write.  At the marker the buffer is written to the engine once: one
    byte goes out, encrypted, in front of the marker, the other stays in the
    buffer when the marker is passed to the network. *)
Theorem marker_overtakes_buffered_plaintext :
  returned data_then_flush_call = Some (APR_SUCCESS, [])
  /\ trace (final_ctx data_then_flush_call)
     = [ EvBucketRead APR_BLOCK_READ;
         EvSessionWrite (bs "ab") RUSTLS_RESULT_OK 1;
         EvWriteTls (bs "a");
         EvPassBrigade [BUCKET_HEAP (bs "a"); BUCKET_FLUSH] ]
  /\ fout_buf_plain_len (final_ctx data_then_flush_call) = 1
  /\ firstn 1 (fout_buf_plain (final_ctx data_then_flush_call)) = bs "b".
Proof. vm_compute. repeat split. Qed.



(** *** The further properties on the small engine *)

Lemma handshake_steps_end_in_three_ways_witness :
  (filter_do_pre_handshake (toy 4) 10 (set_fin_block APR_NONBLOCK_READ sniff_conn)
   = Returns APR_EAGAIN (final_ctx sniff_first_pre_handshake)
   \/ filter_do_handshake (toy 4) 10 (set_fin_block APR_NONBLOCK_READ sniff_conn)
      = Returns APR_EAGAIN (final_ctx sniff_first_pre_handshake))
  /\ (((APR_EAGAIN = APR_SUCCESS \/ APR_STATUS_IS_EAGAIN APR_EAGAIN = true)
       /\ cc_state (final_ctx sniff_first_pre_handshake)
          = cc_state (set_fin_block APR_NONBLOCK_READ sniff_conn)
       /\ close_notifies (trace (final_ctx sniff_first_pre_handshake))
          = close_notifies (trace (set_fin_block APR_NONBLOCK_READ sniff_conn)))
      \/ (APR_EAGAIN = APR_ECONNABORTED
          /\ cc_state (final_ctx sniff_first_pre_handshake) = TLS_CONN_ST_DONE
          /\ (cc_state (set_fin_block APR_NONBLOCK_READ sniff_conn) <> TLS_CONN_ST_DONE ->
              c_aborted (final_ctx sniff_first_pre_handshake) = true))).
Proof.
  assert (H : filter_do_pre_handshake (toy 4) 10
                (set_fin_block APR_NONBLOCK_READ sniff_conn)
              = Returns APR_EAGAIN (final_ctx sniff_first_pre_handshake)
              \/ filter_do_handshake (toy 4) 10 (set_fin_block APR_NONBLOCK_READ sniff_conn)
                 = Returns APR_EAGAIN (final_ctx sniff_first_pre_handshake)).
  { left. vm_compute. reflexivity. }
  split; [exact H|].
  exact (handshake_steps_end_in_three_ways (toy 4) 10
           (set_fin_block APR_NONBLOCK_READ sniff_conn)
           (final_ctx sniff_first_pre_handshake) APR_EAGAIN H).
Defined.

Lemma plaintext_only_behind_the_handshake_witness :
  (c_aborted plain_waiting_conn = false
   /\ cc_rustls_session plain_waiting_conn = Some (toy_new 4 100)
   /\ filter_conn_input (toy 4) 10 [] AP_MODE_EXHAUSTIVE APR_NONBLOCK_READ 0
        plain_waiting_conn
      = Returns (APR_SUCCESS, [BUCKET_HEAP (bs "x")]) (final_ctx exhaustive_read_call))
  /\ ((AP_MODE_EXHAUSTIVE = AP_MODE_INIT -> [BUCKET_HEAP (bs "x")] = [])
      /\ (APR_SUCCESS = APR_SUCCESS \/ [BUCKET_HEAP (bs "x")] <> [] ->
          past_handshake (final_ctx exhaustive_read_call))).
Proof.
  assert (H : c_aborted plain_waiting_conn = false
              /\ cc_rustls_session plain_waiting_conn = Some (toy_new 4 100)
              /\ filter_conn_input (toy 4) 10 [] AP_MODE_EXHAUSTIVE APR_NONBLOCK_READ 0
                   plain_waiting_conn
                 = Returns (APR_SUCCESS, [BUCKET_HEAP (bs "x")])
                     (final_ctx exhaustive_read_call)).
  { split; [reflexivity|]. split; [reflexivity|]. vm_compute. reflexivity. }
  split; [exact H|].
  destruct H as [H1 [H2 H3]].
  exact (plaintext_only_behind_the_handshake (toy 4) 10 [] AP_MODE_EXHAUSTIVE
           APR_NONBLOCK_READ 0 plain_waiting_conn (final_ctx exhaustive_read_call)
           (toy_new 4 100) APR_SUCCESS [BUCKET_HEAP (bs "x")] H1 H2 H3).
Defined.

Lemma output_filter_conserves_plaintext_witness :
  (buf_mem_ok slow_engine_conn
   /\ forallb in_memory [BUCKET_HEAP (bs "ab"); BUCKET_FLUSH] = true
   /\ c_aborted slow_engine_conn = false
   /\ cc_rustls_session slow_engine_conn = Some (toy_new 4 1)
   /\ cc_state slow_engine_conn <> TLS_CONN_ST_DONE
   /\ filter_conn_output (toy 4) 10 [BUCKET_HEAP (bs "ab"); BUCKET_FLUSH] slow_engine_conn
      = Returns (APR_SUCCESS, []) (final_ctx data_then_flush_call))
  /\ (conserves slow_engine_conn [BUCKET_HEAP (bs "ab"); BUCKET_FLUSH]
        (final_ctx data_then_flush_call) []
      /\ buf_mem_ok (final_ctx data_then_flush_call)).
Proof.
  assert (H : buf_mem_ok slow_engine_conn
              /\ forallb in_memory [BUCKET_HEAP (bs "ab"); BUCKET_FLUSH] = true
              /\ c_aborted slow_engine_conn = false
              /\ cc_rustls_session slow_engine_conn = Some (toy_new 4 1)
              /\ cc_state slow_engine_conn <> TLS_CONN_ST_DONE
              /\ filter_conn_output (toy 4) 10 [BUCKET_HEAP (bs "ab"); BUCKET_FLUSH]
                   slow_engine_conn
                 = Returns (APR_SUCCESS, []) (final_ctx data_then_flush_call)).
  { split; [unfold buf_mem_ok, buf_ok; cbn; split; [lia|reflexivity]|].
    split; [reflexivity|]. split; [reflexivity|]. split; [reflexivity|].
    split; [discriminate|]. vm_compute. reflexivity. }
  split; [exact H|].
  destruct H as (H1 & H2 & H3 & H4 & H5 & H6).
  exact (output_filter_conserves_plaintext (toy 4) 10 [BUCKET_HEAP (bs "ab"); BUCKET_FLUSH]
           slow_engine_conn (final_ctx data_then_flush_call) (toy_new 4 1)
           APR_SUCCESS [] H1 H2 H3 H4 H5 H6).
Defined.

Lemma successful_write_leaves_nothing_behind_witness :
  ((forall rr, rustls_ok rr = false -> tls_util_rustls_error (toy 4) rr <> APR_SUCCESS)
   /\ cc_rustls_session slow_engine_conn = Some (toy_new 4 1)
   /\ cc_state slow_engine_conn <> TLS_CONN_ST_DONE
   /\ filter_conn_output (toy 4) 10 [BUCKET_HEAP (bs "ab"); BUCKET_FLUSH] slow_engine_conn
      = Returns (APR_SUCCESS, []) (final_ctx data_then_flush_call))
  /\ (@nil apr_bucket = []
      /\ fout_tls_bb (final_ctx data_then_flush_call) = []
      /\ engine_drained (toy 4) (final_ctx data_then_flush_call)).
Proof.
  assert (H : (forall rr, rustls_ok rr = false ->
                          tls_util_rustls_error (toy 4) rr <> APR_SUCCESS)
              /\ cc_rustls_session slow_engine_conn = Some (toy_new 4 1)
              /\ cc_state slow_engine_conn <> TLS_CONN_ST_DONE
              /\ filter_conn_output (toy 4) 10 [BUCKET_HEAP (bs "ab"); BUCKET_FLUSH]
                   slow_engine_conn
                 = Returns (APR_SUCCESS, []) (final_ctx data_then_flush_call)).
  { split; [intros rr _; discriminate|]. split; [reflexivity|].
    split; [discriminate|]. vm_compute. reflexivity. }
  split; [exact H|].
  destruct H as (H1 & H2 & H3 & H4).
  exact (successful_write_leaves_nothing_behind (toy 4) 10
           [BUCKET_HEAP (bs "ab"); BUCKET_FLUSH] slow_engine_conn
           (final_ctx data_then_flush_call) (toy_new 4 1) [] H1 H2 H3 H4).
Defined.

Lemma pending_plaintext_is_served_without_a_pull_witness :
  (tls_filter_input_pending (c_aborted plain_waiting_conn)
     (Some (cc_state plain_waiting_conn, Some plain_waiting_conn)) = OK
   /\ cc_rustls_session plain_waiting_conn = Some (toy_new 4 100)
   /\ past_handshake plain_waiting_conn)
  /\ adds is_drain_event plain_waiting_conn
       (final_ctx (filter_conn_input (toy 4) 10 [] AP_MODE_EXHAUSTIVE APR_NONBLOCK_READ 0
                     plain_waiting_conn)).
Proof.
  assert (H : tls_filter_input_pending (c_aborted plain_waiting_conn)
                (Some (cc_state plain_waiting_conn, Some plain_waiting_conn)) = OK
              /\ cc_rustls_session plain_waiting_conn = Some (toy_new 4 100)
              /\ past_handshake plain_waiting_conn).
  { split; [reflexivity|]. split; [reflexivity|]. split; discriminate. }
  split; [exact H|].
  destruct H as (H1 & H2 & H3).
  exact (pending_plaintext_is_served_without_a_pull (toy 4) 10 [] AP_MODE_EXHAUSTIVE
           APR_NONBLOCK_READ 0 plain_waiting_conn (toy_new 4 100) H1 H2 H3).
Defined.

Lemma tls_bytes_reach_the_engine_in_order_witness :
  (forallb in_memory
     (fin_tls_bb three_bytes_conn
      ++ match fin_tls_bb three_bytes_conn with
         | [] => snd (fst (ap_get_brigade (toy 4) (next three_bytes_conn)
                             AP_MODE_READBYTES (fin_block three_bytes_conn) 100))
         | _ :: _ => []
         end) = true
   /\ read_tls_to_rustls (toy 4) 10 100 three_bytes_conn
      = Returns APR_SUCCESS (final_ctx three_bytes_call))
  /\ exists ev,
       trace (final_ctx three_bytes_call) = trace three_bytes_conn ++ ev
       /\ brigade_bytes
            (fin_tls_bb three_bytes_conn
             ++ match fin_tls_bb three_bytes_conn with
                | [] => snd (fst (ap_get_brigade (toy 4) (next three_bytes_conn)
                                    AP_MODE_READBYTES (fin_block three_bytes_conn) 100))
                | _ :: _ => []
                end)
          = flat_map tls_fed ev ++ brigade_bytes (fin_tls_bb (final_ctx three_bytes_call)).
Proof.
  assert (H : forallb in_memory
                (fin_tls_bb three_bytes_conn
                 ++ match fin_tls_bb three_bytes_conn with
                    | [] => snd (fst (ap_get_brigade (toy 4) (next three_bytes_conn)
                                        AP_MODE_READBYTES (fin_block three_bytes_conn) 100))
                    | _ :: _ => []
                    end) = true
              /\ read_tls_to_rustls (toy 4) 10 100 three_bytes_conn
                 = Returns APR_SUCCESS (final_ctx three_bytes_call)).
  { split; [reflexivity|]. vm_compute. reflexivity. }
  split; [exact H|].
  destruct H as (H1 & H2).
  exact (tls_bytes_reach_the_engine_in_order (toy 4) 10 100 three_bytes_conn
           (final_ctx three_bytes_call) APR_SUCCESS H1 H2).
Defined.

End TlsFilterFacts.

(* ===================================================================== *)
(** * tls_core.c: startup and shutdown of the configurations *)
(* ===================================================================== *)

Module TlsCoreConfigFacts.
Import TlsCore TlsCoreConfig.

Section ConfigFacts.
Context {K P B C W : Type} (X : externals K P B C W).

(** ** The first loop *)

Lemma tls_core_init_enable_returns (gc : tls_conf_global_t) (servers servers' : list (server K C)) :
  tls_core_init_enable gc servers = Returns servers' ->
  map srv servers' = tls_core_init_servers (tls_addresses gc) (map srv servers)
  /\ map global servers' = map global servers
  /\ map certificates servers' = map certificates servers
  /\ map rustls_config servers' = map rustls_config servers.
Proof.
  revert servers'. induction servers as [|s rest IH]; intros servers' H; cbn -[apr_status_eqb] in H.
  - injection H as <-. repeat split.
  - unfold tls_core_init_servers in *. simpl.
    destruct (tls_conf_server_get (srv s)) eqn:Hc.
    + destruct (negb (gc_addr (global s) =? gc_addr gc)); [discriminate|].
      destruct (tls_core_init_enable gc rest) as [rest'|f]; [|discriminate].
      injection H as <-. destruct (IH rest' eq_refl) as (H1 & H2 & H3 & H4).
      simpl. rewrite H1, H2, H3, H4. repeat split.
    + destruct (tls_core_init_enable gc rest) as [rest'|f]; [|discriminate].
      injection H as <-. destruct (IH rest' eq_refl) as (H1 & H2 & H3 & H4).
      simpl. rewrite H1, H2, H3, H4. repeat split.
      unfold tls_core_init_server. rewrite Hc. reflexivity.
Qed.

Lemma tls_core_init_enable_faults (gc : tls_conf_global_t) (servers : list (server K C))
    (f : TlsFilter.fault) :
  tls_core_init_enable gc servers = Faults f ->
  f = TlsFilter.FaultAssert /\ Exists (foreign gc) servers.
Proof.
  induction servers as [|s rest IH]; intros H; cbn -[apr_status_eqb] in H; [discriminate|].
  destruct (tls_conf_server_get (srv s)) eqn:Hc.
  - destruct (Z.eqb_spec (gc_addr (global s)) (gc_addr gc)) as [He|Hne]; cbn -[apr_status_eqb] in H.
    + destruct (tls_core_init_enable gc rest) as [rest'|f']; [discriminate|].
      injection H as <-. destruct (IH eq_refl) as [-> Hex]. split; [reflexivity|].
      apply Exists_cons_tl, Hex.
    + injection H as <-. split; [reflexivity|]. apply Exists_cons_hd.
      split; [unfold has_conf; congruence|exact Hne].
  - destruct (tls_core_init_enable gc rest) as [rest'|f']; [discriminate|].
    injection H as <-. destruct (IH eq_refl) as [-> Hex]. split; [reflexivity|].
    apply Exists_cons_tl, Hex.
Qed.

Lemma tls_core_init_enable_foreign (gc : tls_conf_global_t) (servers : list (server K C)) :
  Exists (foreign gc) servers ->
  tls_core_init_enable gc servers = Faults TlsFilter.FaultAssert.
Proof.
  induction servers as [|s rest IH]; intros H; [inversion H|]. simpl.
  destruct (tls_conf_server_get (srv s)) eqn:Hc.
  - destruct (Z.eqb_spec (gc_addr (global s)) (gc_addr gc)) as [He|Hne]; simpl;
      [|reflexivity].
    inversion H as [? ? [_ Hf]|? ? Hex]; subst; [contradiction|].
    rewrite (IH Hex). reflexivity.
  - inversion H as [? ? [Hf _]|? ? Hex]; subst; [unfold has_conf in Hf; contradiction|].
    rewrite (IH Hex). reflexivity.
Qed.

(** ** The second loop *)

Lemma kept_refl (s : server K C) : kept s s.
Proof. repeat split. Qed.

Lemma kept_set_rustls_config (v : option C) (s : server K C) :
  is_enabled s = true -> kept s (set_rustls_config v s).
Proof. intros He. repeat split. intros Hd. congruence. Qed.

Lemma Forall2_kept_refl (l : list (server K C)) : Forall2 kept l l.
Proof. induction l; constructor; auto using kept_refl. Qed.

Lemma is_enabled_skip (s : server K C) :
  match tls_conf_server_get (srv s) with
  | None => true
  | Some sc => negb (tls_flag_eqb (enabled sc) TLS_FLAG_TRUE)
  end = negb (is_enabled s).
Proof. unfold is_enabled. destruct (tls_conf_server_get (srv s)); reflexivity. Qed.

Lemma is_enabled_set_rustls_config (v : option C) (s : server K C) :
  is_enabled (set_rustls_config v s) = is_enabled s.
Proof. reflexivity. Qed.

Lemma tls_core_init_configs_kept (servers : list (server K C)) :
  forall rv w fl rv' servers' w',
    tls_core_init_configs X rv w servers = (fl, rv', servers', w') ->
    Forall2 kept servers servers'
    /\ (fl = TlsFilter.Fallthrough -> Forall served servers').
Proof.
  induction servers as [|s rest IH]; intros rv w fl rv' servers' w' H; cbn -[apr_status_eqb] in H.
  - injection H as <- <- <- <-. split; [constructor|]. intros _. constructor.
  - rewrite is_enabled_skip in H. destruct (is_enabled s) eqn:He; cbn -[apr_status_eqb] in H.
    + destruct (rustls_server_config_builder_new X w) as [[b0|] w1].
      2:{ cbn -[apr_status_eqb] in H. injection H as <- <- <- <-. split; [apply Forall2_kept_refl|discriminate]. }
      destruct (certificates s) as [|spec certs] eqn:Hcerts.
      * destruct (rustls_server_config_builder_build X b0 w1) as [[cfg|] w3].
        -- destruct (tls_core_init_configs X rv w3 rest) as [[[fl2 rv2] rest2] w4] eqn:Hr.
           cbn -[apr_status_eqb] in H. injection H as <- <- <- <-. destruct (IH _ _ _ _ _ _ Hr) as [Hk Hs].
           split.
           ++ constructor; [apply kept_set_rustls_config, He|exact Hk].
           ++ intros Hf. constructor; [|exact (Hs Hf)]. intros _. discriminate.
        -- cbn -[apr_status_eqb] in H. injection H as <- <- <- <-. split; [|discriminate].
           constructor; [apply kept_set_rustls_config, He|apply Forall2_kept_refl].
      * destruct (tls_util_load_pem X w1 spec) as [[rv1 pems] w2].
        destruct (negb (apr_status_eqb APR_SUCCESS rv1)).
        { cbn -[apr_status_eqb] in H. injection H as <- <- <- <-. split; [apply Forall2_kept_refl|discriminate]. }
        destruct (rustls_server_config_builder_set_single_cert_pem X b0 pems) as [rr b1].
        destruct (negb (TlsFilter.rustls_ok rr)).
        { cbn -[apr_status_eqb] in H. injection H as <- <- <- <-. split; [apply Forall2_kept_refl|discriminate]. }
        destruct (rustls_server_config_builder_build X b1 w2) as [[cfg|] w3].
        -- destruct (tls_core_init_configs X rv1 w3 rest) as [[[fl2 rv2] rest2] w4] eqn:Hr.
           cbn -[apr_status_eqb] in H. injection H as <- <- <- <-. destruct (IH _ _ _ _ _ _ Hr) as [Hk Hs].
           split.
           ++ constructor; [apply kept_set_rustls_config, He|exact Hk].
           ++ intros Hf. constructor; [|exact (Hs Hf)]. intros _. discriminate.
        -- cbn -[apr_status_eqb] in H. injection H as <- <- <- <-. split; [|discriminate].
           constructor; [apply kept_set_rustls_config, He|apply Forall2_kept_refl].
    + destruct (tls_core_init_configs X rv w rest) as [[[fl2 rv2] rest2] w4] eqn:Hr.
      cbn -[apr_status_eqb] in H. injection H as <- <- <- <-. destruct (IH _ _ _ _ _ _ Hr) as [Hk Hs].
      split.
      * constructor; [apply kept_refl|exact Hk].
      * intros Hf. constructor; [|exact (Hs Hf)]. intros He'. congruence.
Qed.

(** Where nothing fails to allocate and an error of crustls has a status
    of its own, the loop leaves for [cleanup] with a failure in [rv]. *)
Lemma tls_core_init_configs_cleanup_status (servers : list (server K C)) :
  (forall w, fst (rustls_server_config_builder_new X w) <> None) ->
  (forall b w, fst (rustls_server_config_builder_build X b w) <> None) ->
  (forall rr, TlsFilter.rustls_ok rr = false -> tls_util_rustls_error X rr <> APR_SUCCESS) ->
  forall rv w rv' servers' w',
    tls_core_init_configs X rv w servers = (TlsFilter.GotoCleanup, rv', servers', w') ->
    rv' <> APR_SUCCESS.
Proof.
  intros Hnew Hbuild Herr.
  induction servers as [|s rest IH]; intros rv w rv' servers' w' H; cbn -[apr_status_eqb] in H.
  - discriminate.
  - rewrite is_enabled_skip in H. destruct (is_enabled s) eqn:He; cbn -[apr_status_eqb] in H.
    + pose proof (Hnew w) as Hn.
      destruct (rustls_server_config_builder_new X w) as [[b0|] w1];
        [|exfalso; apply Hn; reflexivity].
      destruct (certificates s) as [|spec certs] eqn:Hcerts.
      * pose proof (Hbuild b0 w1) as Hb.
        destruct (rustls_server_config_builder_build X b0 w1) as [[cfg|] w3];
          [|exfalso; apply Hb; reflexivity].
        destruct (tls_core_init_configs X rv w3 rest) as [[[fl2 rv2] rest2] w4] eqn:Hr.
        cbn -[apr_status_eqb] in H. injection H as -> <- <- <-. exact (IH _ _ _ _ _ Hr).
      * destruct (tls_util_load_pem X w1 spec) as [[rv1 pems] w2].
        destruct (apr_status_eqb_spec APR_SUCCESS rv1) as [Hs|Hs]; cbn -[apr_status_eqb] in H.
        2:{ cbn -[apr_status_eqb] in H. injection H as <- <- <-. congruence. }
        destruct (rustls_server_config_builder_set_single_cert_pem X b0 pems) as [rr b1].
        destruct (TlsFilter.rustls_ok rr) eqn:Hrr; cbn -[apr_status_eqb] in H.
        2:{ cbn -[apr_status_eqb] in H. injection H as <- <- <-. apply Herr, Hrr. }
        pose proof (Hbuild b1 w2) as Hb.
        destruct (rustls_server_config_builder_build X b1 w2) as [[cfg|] w3];
          [|exfalso; apply Hb; reflexivity].
        destruct (tls_core_init_configs X rv1 w3 rest) as [[[fl2 rv2] rest2] w4] eqn:Hr.
        cbn -[apr_status_eqb] in H. injection H as -> <- <- <-. exact (IH _ _ _ _ _ Hr).
    + destruct (tls_core_init_configs X rv w rest) as [[[fl2 rv2] rest2] w4] eqn:Hr.
      cbn -[apr_status_eqb] in H. injection H as -> <- <- <-. exact (IH _ _ _ _ _ Hr).
Qed.

(** The loop passes the servers that are not enabled. *)
Lemma tls_core_init_configs_skip (pre l : list (server K C)) (rv : apr_status_t) (w : W) :
  Forall (fun p => is_enabled p = false) pre ->
  tls_core_init_configs X rv w (pre ++ l)
  = let '(fl, rv', l', w') := tls_core_init_configs X rv w l in (fl, rv', pre ++ l', w').
Proof.
  induction pre as [|p pre IH]; intros H; simpl.
  - destruct (tls_core_init_configs X rv w l) as [[[? ?] ?] ?]. reflexivity.
  - inversion H as [|? ? Hp Hpre]; subst. rewrite is_enabled_skip, Hp. simpl.
    rewrite (IH Hpre). destruct (tls_core_init_configs X rv w l) as [[[? ?] ?] ?].
    reflexivity.
Qed.

Lemma Forall2_kept_maps (l l' : list (server K C)) :
  Forall2 kept l l' ->
  map srv l' = map srv l /\ map global l' = map global l
  /\ map certificates l' = map certificates l
  /\ Forall2 (fun s s' => is_enabled s = false -> rustls_config s' = rustls_config s) l l'.
Proof.
  induction 1 as [|s s' l l' (H1 & H2 & H3 & H4) _ (I1 & I2 & I3 & I4)]; simpl.
  - repeat split; constructor.
  - rewrite H1, H2, H3, I1, I2, I3. repeat split. constructor; assumption.
Qed.

Lemma tls_core_init_server_enabled_as (gc : tls_conf_global_t) (l l1 : list (server K C)) :
  tls_core_init_enable gc l = Returns l1 ->
  Forall2 (fun s s1 =>
             srv s1 = tls_core_init_server (tls_addresses gc) (srv s)
             /\ global s1 = global s /\ certificates s1 = certificates s
             /\ rustls_config s1 = rustls_config s) l l1.
Proof.
  revert l1. induction l as [|s rest IH]; intros l1 H; cbn -[apr_status_eqb] in H.
  - injection H as <-. constructor.
  - destruct (tls_conf_server_get (srv s)) eqn:Hc.
    + destruct (negb (gc_addr (global s) =? gc_addr gc)); [discriminate|].
      destruct (tls_core_init_enable gc rest) as [rest'|f]; [|discriminate].
      injection H as <-. constructor; [|apply IH; reflexivity]. repeat split.
    + destruct (tls_core_init_enable gc rest) as [rest'|f]; [|discriminate].
      injection H as <-. constructor; [|apply IH; reflexivity]. repeat split.
      unfold tls_core_init_server. rewrite Hc. reflexivity.
Qed.

Lemma enabled_as_kept (addresses : list server_addr_rec) (l l1 l2 : list (server K C)) :
  Forall2 (fun s s1 =>
             srv s1 = tls_core_init_server addresses (srv s)
             /\ global s1 = global s /\ certificates s1 = certificates s
             /\ rustls_config s1 = rustls_config s) l l1 ->
  Forall2 kept l1 l2 ->
  Forall2 (fun s s' => is_enabled s' = false -> rustls_config s' = rustls_config s) l l2.
Proof.
  intros Ha. revert l2.
  induction Ha as [|s s1 l l1 (A1 & A2 & A3 & A4) _ IH]; intros l2 Hk;
    inversion Hk as [|? s' ? l' (B1 & B2 & B3 & B4) Hk']; subst; constructor.
  - intros Hd. rewrite <- A4. apply B4. unfold is_enabled in *. rewrite <- B1. exact Hd.
  - apply IH, Hk'.
Qed.

(** The parts of [tls_core_init]. *)
Lemma tls_core_init_returns (w : W) (base : server K C) (others : list (server K C))
    (rv : apr_status_t) (servers' : list (server K C)) (w' : W) :
  tls_core_init X w base others = Returns (rv, servers', w') ->
  exists servers1 fl rv1,
    tls_core_init_enable (global base) (base :: others) = Returns servers1
    /\ tls_core_init_configs X APR_ENOMEM w servers1 = (fl, rv1, servers', w')
    /\ rv = match fl with TlsFilter.Fallthrough => APR_SUCCESS
                        | TlsFilter.GotoCleanup => rv1 end.
Proof.
  unfold tls_core_init. intros H.
  destruct (tls_conf_server_get (srv base)); [|discriminate].
  destruct (tls_core_init_enable (global base) (base :: others)) as [servers1|f];
    [|discriminate].
  destruct (tls_core_init_configs X APR_ENOMEM w servers1) as [[[fl rv1] servers2] w2] eqn:Hr.
  exists servers1, fl, rv1.
  destruct fl; injection H as <- <- <-; (split; [reflexivity|split; [exact Hr|reflexivity]]).
Qed.

End ConfigFacts.

Section FreeFacts.
Context {K C : Type}.

Lemma tls_core_free_loop_freed (servers : list (server K C)) :
  fst (tls_core_free_loop servers)
  = flat_map (fun s => match tls_conf_server_get (srv s), rustls_config s with
                       | Some _, Some cfg => [cfg]
                       | _, _ => []
                       end) servers.
Proof.
  induction servers as [|s rest IH]; [reflexivity|]. simpl.
  destruct (tls_core_free_loop rest) as [freed rest']. simpl in IH. rewrite <- IH.
  destruct (tls_conf_server_get (srv s)); [destruct (rustls_config s)|]; reflexivity.
Qed.

Lemma tls_core_free_loop_released (servers : list (server K C)) :
  Forall2 (fun s s' =>
             srv s' = srv s /\ global s' = global s /\ certificates s' = certificates s
             /\ (tls_conf_server_get (srv s) = None -> rustls_config s' = rustls_config s)
             /\ (tls_conf_server_get (srv s') <> None -> rustls_config s' = None))
          servers (snd (tls_core_free_loop servers)).
Proof.
  induction servers as [|s rest IH]; [constructor|]. simpl.
  destruct (tls_core_free_loop rest) as [freed rest']. simpl in IH.
  destruct (tls_conf_server_get (srv s)) eqn:Hc; [destruct (rustls_config s) eqn:Hcfg|];
    simpl; (constructor; [|exact IH]); repeat split; simpl; congruence.
Qed.

Lemma tls_core_free_loop_again (servers : list (server K C)) :
  Forall (fun s => tls_conf_server_get (srv s) <> None -> rustls_config s = None) servers ->
  tls_core_free_loop servers = ([], servers).
Proof.
  induction 1 as [|s rest Hs _ IH]; [reflexivity|]. simpl. rewrite IH.
  destruct (tls_conf_server_get (srv s)) eqn:Hc; [|reflexivity].
  rewrite Hs by congruence. reflexivity.
Qed.

End FreeFacts.

(** X14.  The second loop of [tls_core_init] works on the enablement
    that the first loop decided, and only there: when [tls_core_init]
    returns, the servers carry the flags that [tls_core_init_servers]
    computes from the listen addresses of the global configuration, their
    global parts and certificates are as before, and a server that is not
    enabled afterwards has the configuration of crustls it had, whatever
    the status that is returned. *)
Theorem tls_core_init_touches_only_enabled_servers
    {K P B C W : Type} (X : externals K P B C W) (w : W)
    (base : server K C) (others : list (server K C))
    (rv : apr_status_t) (servers' : list (server K C)) (w' : W) :
  tls_core_init X w base others = Returns (rv, servers', w') ->
  map srv servers'
  = tls_core_init_servers (tls_addresses (global base)) (map srv (base :: others))
  /\ map global servers' = map global (base :: others)
  /\ map certificates servers' = map certificates (base :: others)
  /\ Forall2 (fun s s' => is_enabled s' = false -> rustls_config s' = rustls_config s)
             (base :: others) servers'.
Proof.
  intros H. destruct (tls_core_init_returns X _ _ _ _ _ _ H) as (l1 & fl & rv1 & He & Hc & _).
  destruct (tls_core_init_enable_returns _ _ _ He) as (E1 & E2 & E3 & E4).
  destruct (tls_core_init_configs_kept X _ _ _ _ _ _ _ Hc) as [Hk _].
  destruct (Forall2_kept_maps _ _ Hk) as (K1 & K2 & K3 & _).
  rewrite K1, K2, K3, E1, E2, E3. repeat split.
  exact (enabled_as_kept _ _ _ _ (tls_core_init_server_enabled_as _ _ _ He) Hk).
Qed.

(** X15.  Where crustls never fails to allocate a builder or to build
    and its errors never translate to [APR_SUCCESS], a run of
    [tls_core_init] that returns [APR_SUCCESS] leaves every enabled server
    with a configuration of crustls. *)
Theorem tls_core_init_success_means_configured
    {K P B C W : Type} (X : externals K P B C W) (w : W)
    (base : server K C) (others : list (server K C))
    (servers' : list (server K C)) (w' : W) :
  (forall w, fst (rustls_server_config_builder_new X w) <> None) ->
  (forall b w, fst (rustls_server_config_builder_build X b w) <> None) ->
  (forall rr, TlsFilter.rustls_ok rr = false -> tls_util_rustls_error X rr <> APR_SUCCESS) ->
  tls_core_init X w base others = Returns (APR_SUCCESS, servers', w') ->
  Forall (fun s => is_enabled s = true -> rustls_config s <> None) servers'.
Proof.
  intros Hnew Hbuild Herr H.
  destruct (tls_core_init_returns X _ _ _ _ _ _ H) as (l1 & fl & rv1 & He & Hc & Hrv).
  destruct fl.
  - destruct (tls_core_init_configs_kept X _ _ _ _ _ _ _ Hc) as [_ Hs]. exact (Hs eq_refl).
  - exfalso. subst rv1.
    exact (tls_core_init_configs_cleanup_status X _ Hnew Hbuild Herr _ _ _ _ _ Hc eq_refl).
Qed.

(** X16.  The status of [tls_core_init] when the build of the
    configuration fails for the first enabled server: it is the value that
    [rv] has at that place.  With no certificate that is [APR_ENOMEM], the
    initial value; with a certificate that was loaded and accepted it is
    [APR_SUCCESS], the status of the load, and the server is left enabled
    without a configuration. *)
Theorem tls_core_init_status_after_a_failed_build
    {K P B C W : Type} (X : externals K P B C W) (w : W)
    (base : server K C) (others pre post : list (server K C)) (s : server K C)
    (b0 b1 : B) (w1 w2 w3 : W) (status : apr_status_t) :
  tls_conf_server_get (srv base) <> None ->
  tls_core_init_enable (global base) (base :: others) = Returns (pre ++ s :: post) ->
  Forall (fun p => is_enabled p = false) pre ->
  is_enabled s = true ->
  rustls_server_config_builder_new X w = (Some b0, w1) ->
  (certificates s = [] /\ b1 = b0 /\ w2 = w1 /\ status = APR_ENOMEM
   \/ exists spec certs pems rr,
        certificates s = spec :: certs
        /\ tls_util_load_pem X w1 spec = (APR_SUCCESS, pems, w2)
        /\ rustls_server_config_builder_set_single_cert_pem X b0 pems = (rr, b1)
        /\ TlsFilter.rustls_ok rr = true
        /\ status = APR_SUCCESS) ->
  rustls_server_config_builder_build X b1 w2 = (None, w3) ->
  tls_core_init X w base others
  = Returns (status, pre ++ set_rustls_config None s :: post, w3).
Proof.
  intros Hbase He Hpre Hs Hnew Hcert Hbuild. unfold tls_core_init.
  destruct (tls_conf_server_get (srv base)); [|contradiction Hbase; reflexivity].
  rewrite He, (tls_core_init_configs_skip X pre (s :: post) _ _ Hpre).
  simpl. rewrite is_enabled_skip, Hs, Hnew. simpl.
  destruct Hcert as [(Hc & -> & -> & ->)|(spec & certs & pems & rr & Hc & Hl & Hset & Hrr & ->)];
    rewrite Hc.
  - rewrite Hbuild. reflexivity.
  - rewrite Hl. simpl. rewrite Hset, Hrr. simpl. rewrite Hbuild. reflexivity.
Qed.

(** X17.  How [tls_core_init] ends.  It reads the global part through
    the configuration of the base server, so it stops at a NULL pointer when
    the base server has none.  Otherwise it stops at its assertion exactly
    when a server behind the base server has a configuration with another
    global part, and returns a status exactly when there is no such
    server. *)
Theorem tls_core_init_asserts_one_global
    {K P B C W : Type} (X : externals K P B C W) (w : W)
    (base : server K C) (others : list (server K C)) :
  (tls_conf_server_get (srv base) = None ->
   tls_core_init X w base others = Faults TlsFilter.FaultNull)
  /\ (tls_conf_server_get (srv base) <> None ->
      (Exists (foreign (global base)) others
       <-> tls_core_init X w base others = Faults TlsFilter.FaultAssert)
      /\ (Forall (fun s => ~ foreign (global base) s) others
          <-> exists r, tls_core_init X w base others = Returns r)).
Proof.
  unfold tls_core_init. split.
  - intros ->. reflexivity.
  - intros Hb. destruct (tls_conf_server_get (srv base)) eqn:Hc; [clear Hb|contradiction].
    assert (Hown : ~ foreign (global base) base) by (intros [_ Hn]; contradiction).
    destruct (tls_core_init_enable (global base) (base :: others)) as [l1|f] eqn:He.
    + assert (Hall : Forall (fun s => ~ foreign (global base) s) others).
      { apply Forall_forall. intros s Hin Hf.
        assert (Hex : Exists (foreign (global base)) (base :: others)).
        { apply Exists_cons_tl, Exists_exists. exists s. split; assumption. }
        rewrite (tls_core_init_enable_foreign _ _ Hex) in He. discriminate. }
      destruct (tls_core_init_configs X APR_ENOMEM w l1) as [[[fl rv1] l2] w2].
      split; split.
      * intros Hex. apply Exists_exists in Hex. destruct Hex as (s & Hin & Hf).
        rewrite Forall_forall in Hall. exfalso. exact (Hall s Hin Hf).
      * destruct fl; discriminate.
      * intros _. destruct fl; eexists; reflexivity.
      * intros _. exact Hall.
    + destruct (tls_core_init_enable_faults _ _ _ He) as [-> Hex].
      inversion Hex as [? ? Hf|? ? Hex']; subst; [contradiction|].
      split; split.
      * reflexivity.
      * intros _. exact Hex'.
      * intros Hall. exfalso. apply Exists_exists in Hex'. destruct Hex' as (s & Hin & Hf).
        rewrite Forall_forall in Hall. exact (Hall s Hin Hf).
      * intros [r Hr]. discriminate.
Qed.

(** X18.  [tls_core_free] hands to [rustls_server_config_free] the
    configurations of crustls of the servers that have a module
    configuration, each once and in the order of the servers, and clears
    the pointers it freed: the servers keep everything else, no server with
    a module configuration points to a configuration of crustls afterwards,
    and a second run frees nothing and changes nothing. *)
Theorem tls_core_free_frees_each_config_once
    {K C : Type} (servers : list (server K C)) :
  exists freed servers',
    tls_core_free servers = (APR_SUCCESS, freed, servers')
    /\ freed = flat_map (fun s => match tls_conf_server_get (srv s), rustls_config s with
                                  | Some _, Some cfg => [cfg]
                                  | _, _ => []
                                  end) servers
    /\ map srv servers' = map srv servers
    /\ map global servers' = map global servers
    /\ map certificates servers' = map certificates servers
    /\ Forall2 (fun s s' => tls_conf_server_get (srv s) = None ->
                            rustls_config s' = rustls_config s) servers servers'
    /\ Forall (fun s' => tls_conf_server_get (srv s') <> None -> rustls_config s' = None)
              servers'
    /\ tls_core_free servers' = (APR_SUCCESS, [], servers').
Proof.
  unfold tls_core_free.
  destruct (tls_core_free_loop servers) as [freed servers'] eqn:Hr.
  pose proof (tls_core_free_loop_freed servers) as Hf.
  pose proof (tls_core_free_loop_released servers) as Hk.
  rewrite Hr in Hf, Hk. simpl in Hf, Hk.
  exists freed, servers'. split; [reflexivity|]. split; [exact Hf|].
  assert (Hnone : Forall (fun s' => tls_conf_server_get (srv s') <> None ->
                                    rustls_config s' = None) servers').
  { clear - Hk. induction Hk as [|s s' l l' (_ & _ & _ & _ & H5) _ IH]; constructor; assumption. }
  assert (Hmaps : map srv servers' = map srv servers
                  /\ map global servers' = map global servers
                  /\ map certificates servers' = map certificates servers
                  /\ Forall2 (fun s s' => tls_conf_server_get (srv s) = None ->
                                           rustls_config s' = rustls_config s)
                             servers servers').
  { clear - Hk. induction Hk as [|s s' l l' (H1 & H2 & H3 & H4 & _) _ (I1 & I2 & I3 & I4)];
      simpl; [repeat split; constructor|].
    rewrite H1, H2, H3, I1, I2, I3. repeat split. constructor; assumption. }
  destruct Hmaps as (M1 & M2 & M3 & M4). repeat split; try assumption.
  rewrite (tls_core_free_loop_again _ Hnone). reflexivity.
Qed.

Lemma tls_core_init_touches_only_enabled_servers_witness :
  tls_core_init (small None) 0 https_server [http_server]
  = Returns (APR_SUCCESS,
             [set_rustls_config (Some 0) https_server_enabled; http_server_disabled], 1)
  /\ (map srv [set_rustls_config (Some 0) https_server_enabled; http_server_disabled]
      = tls_core_init_servers (tls_addresses (global https_server))
                              (map srv (https_server :: [http_server]))
      /\ map global [set_rustls_config (Some 0) https_server_enabled; http_server_disabled]
         = map global (https_server :: [http_server])
      /\ map certificates
             [set_rustls_config (Some 0) https_server_enabled; http_server_disabled]
         = map certificates (https_server :: [http_server])
      /\ Forall2 (fun s s' => is_enabled s' = false -> rustls_config s' = rustls_config s)
                 (https_server :: [http_server])
                 [set_rustls_config (Some 0) https_server_enabled; http_server_disabled]).
Proof.
  assert (H : tls_core_init (small None) 0 https_server [http_server]
              = Returns (APR_SUCCESS,
                         [set_rustls_config (Some 0) https_server_enabled;
                          http_server_disabled], 1)).
  { vm_compute. reflexivity. }
  split; [exact H|].
  exact (tls_core_init_touches_only_enabled_servers
           (small None) 0 https_server [http_server] APR_SUCCESS
           [set_rustls_config (Some 0) https_server_enabled; http_server_disabled] 1 H).
Defined.

Lemma tls_core_init_success_means_configured_witness :
  tls_core_init (small None) 0 https_server [http_server]
  = Returns (APR_SUCCESS,
             [set_rustls_config (Some 0) https_server_enabled; http_server_disabled], 1)
  /\ Forall (fun s => is_enabled s = true -> rustls_config s <> None)
            [set_rustls_config (Some 0) https_server_enabled; http_server_disabled].
Proof.
  assert (H : tls_core_init (small None) 0 https_server [http_server]
              = Returns (APR_SUCCESS,
                         [set_rustls_config (Some 0) https_server_enabled;
                          http_server_disabled], 1)).
  { vm_compute. reflexivity. }
  assert (Hnew : forall w, fst (rustls_server_config_builder_new (small None) w) <> None).
  { intros w. simpl. discriminate. }
  assert (Hbuild : forall b w,
             fst (rustls_server_config_builder_build (small None) b w) <> None).
  { intros b w. simpl. discriminate. }
  assert (Herr : forall rr, TlsFilter.rustls_ok rr = false ->
                            tls_util_rustls_error (small None) rr <> APR_SUCCESS).
  { intros rr _. simpl. discriminate. }
  split; [exact H|].
  exact (tls_core_init_success_means_configured
           (small None) 0 https_server [http_server]
           [set_rustls_config (Some 0) https_server_enabled; http_server_disabled] 1
           Hnew Hbuild Herr H).
Defined.

Lemma tls_core_init_status_after_a_failed_build_witness :
  tls_core_init_enable (global https_server) (https_server :: [http_server])
  = Returns ([] ++ https_server_enabled :: [http_server_disabled])
  /\ rustls_server_config_builder_build (small (Some 0)) [7] 0 = (None, 1)
  /\ tls_core_init (small (Some 0)) 0 https_server [http_server]
     = Returns (APR_SUCCESS,
                [] ++ set_rustls_config None https_server_enabled :: [http_server_disabled],
                1).
Proof.
  assert (Hbase : tls_conf_server_get (srv https_server) <> None).
  { simpl. discriminate. }
  assert (He : tls_core_init_enable (global https_server) (https_server :: [http_server])
               = Returns ([] ++ https_server_enabled :: [http_server_disabled])).
  { vm_compute. reflexivity. }
  assert (Hpre : Forall (fun p : server Z Z => is_enabled p = false) []).
  { constructor. }
  assert (Hs : is_enabled https_server_enabled = true).
  { reflexivity. }
  assert (Hnew : rustls_server_config_builder_new (small (Some 0)) 0 = (Some [], 0)).
  { reflexivity. }
  assert (Hcert :
            certificates https_server_enabled = [] /\ [7] = [] /\ 0 = 0
            /\ APR_SUCCESS = APR_ENOMEM
            \/ exists spec certs pems rr,
                 certificates https_server_enabled = spec :: certs
                 /\ tls_util_load_pem (small (Some 0)) 0 spec = (APR_SUCCESS, pems, 0)
                 /\ rustls_server_config_builder_set_single_cert_pem
                      (small (Some 0)) [] pems = (rr, [7])
                 /\ TlsFilter.rustls_ok rr = true
                 /\ APR_SUCCESS = APR_SUCCESS).
  { right. exists 7, [], 7, TlsFilter.RUSTLS_RESULT_OK. repeat split. }
  assert (Hbuild : rustls_server_config_builder_build (small (Some 0)) [7] 0 = (None, 1)).
  { reflexivity. }
  split; [exact He|]. split; [exact Hbuild|].
  exact (tls_core_init_status_after_a_failed_build
           (small (Some 0)) 0 https_server [http_server] [] [http_server_disabled]
           https_server_enabled [] [7] 0 0 1 APR_SUCCESS
           Hbase He Hpre Hs Hnew Hcert Hbuild).
Defined.

End TlsCoreConfigFacts.

(* ===================================================================== *)
(** * mod_tls.c: when the filters are installed *)
(* ===================================================================== *)

Module ModTlsFacts.
Import TlsCore TlsCoreConfig ModTls.

Lemma tls_flag_eqb_true (a : tls_flag) :
  tls_flag_eqb a TLS_FLAG_TRUE = true <-> a = TLS_FLAG_TRUE.
Proof. destruct a; simpl; split; congruence. Qed.

Lemma tls_flag_eqb_not_true (a : tls_flag) :
  tls_flag_eqb a TLS_FLAG_TRUE = false <-> a <> TLS_FLAG_TRUE.
Proof. destruct a; simpl; split; congruence. Qed.

Lemma hook_pre_connection_ok {E N : Type} (X : TlsFilter.externals E N)
    (c c' : conn_rec E N) :
  hook_pre_connection X c = Returns (OK, c') ->
  exists cc session,
    tls_conf_conn_get c = Some cc
    /\ rustls_session cc = Some session
    /\ c' = set_conn
              (set_filter_ctx
                 (TlsFilter.tls_filter_conn_init X (aborted c) (state cc) session (below c))
                 cc) c.
Proof.
  unfold hook_pre_connection, tls_core_conn_init, tls_filter_conn_init.
  destruct (master c); [discriminate|].
  destruct (tls_conf_conn_get c) as [cc|].
  - destruct (tls_flag_eqb (flag_disabled cc) TLS_FLAG_TRUE); [discriminate|].
    destruct (base_server_conf c) as [sc|]; [|discriminate].
    destruct (negb (tls_flag_eqb (enabled sc) TLS_FLAG_TRUE)); [discriminate|].
    destruct (rustls_session cc) as [session|] eqn:Hs; [|discriminate].
    intros H. injection H as <-. exists cc, session. repeat split. exact Hs.
  - destruct (base_server_conf c) as [sc|]; [|discriminate].
    destruct (negb (tls_flag_eqb (enabled sc) TLS_FLAG_TRUE)); discriminate.
Qed.

(** The cases of the hook, once its tests are decided. *)
Ltac hook_end :=
  repeat split; intros;
  repeat match goal with
         | H : _ /\ _ |- _ => destruct H
         | H : exists _, _ |- _ => destruct H
         | H : _ \/ _ |- _ => destruct H
         end;
  try discriminate; try congruence;
  try match goal with
      | H : Returns _ = Returns _ |- _ => injection H; intros; subst
      end;
  eauto 15.

(** X19.  [hook_pre_connection] installs the filters, and returns
    [OK], exactly on a primary connection that already has a connection
    context, not disabled, with a session of crustls, on a base server that
    is enabled: the connection then differs only in the filter context,
    which is the fresh one of [tls_filter_conn_init].  When the hook
    declines, the connection is as it was, and it is a secondary
    connection, or disabled, or its base server is not enabled.
    [tls_core_conn_init] attaches no context to the connection: on an
    enabled server, a primary connection stops at an assertion of
    [tls_filter_conn_init] exactly when it has no context, or one that is
    not disabled and has no session. *)
Theorem hook_pre_connection_installs_the_filters
    {E N : Type} (X : TlsFilter.externals E N) (c : conn_rec E N) :
  (forall c',
      hook_pre_connection X c = Returns (OK, c') <->
      master c = false
      /\ exists cc sc session,
           tls_conf_conn_get c = Some cc
           /\ flag_disabled cc <> TLS_FLAG_TRUE
           /\ base_server_conf c = Some sc
           /\ enabled sc = TLS_FLAG_TRUE
           /\ rustls_session cc = Some session
           /\ c' = set_conn
                     (set_filter_ctx
                        (TlsFilter.tls_filter_conn_init X (aborted c) (state cc) session
                                                        (below c)) cc) c)
  /\ (forall c',
         hook_pre_connection X c = Returns (DECLINED, c') ->
         c' = c
         /\ (master c = true
             \/ (exists cc, tls_conf_conn_get c = Some cc /\ flag_disabled cc = TLS_FLAG_TRUE)
             \/ (exists sc, base_server_conf c = Some sc /\ enabled sc <> TLS_FLAG_TRUE)))
  /\ (hook_pre_connection X c = Faults TlsFilter.FaultAssert <->
      master c = false
      /\ (exists sc, base_server_conf c = Some sc /\ enabled sc = TLS_FLAG_TRUE)
      /\ (tls_conf_conn_get c = None
          \/ exists cc, tls_conf_conn_get c = Some cc
                        /\ flag_disabled cc <> TLS_FLAG_TRUE
                        /\ rustls_session cc = None)).
Proof.
  unfold hook_pre_connection, tls_core_conn_init, tls_filter_conn_init.
  destruct (master c) eqn:Hm; [hook_end|].
  destruct (tls_conf_conn_get c) as [cc|] eqn:Hcc.
  - destruct (tls_flag_eqb (flag_disabled cc) TLS_FLAG_TRUE) eqn:Hd;
      [apply tls_flag_eqb_true in Hd; hook_end|apply tls_flag_eqb_not_true in Hd].
    destruct (base_server_conf c) as [sc|] eqn:Hsc; [|hook_end].
    destruct (tls_flag_eqb (enabled sc) TLS_FLAG_TRUE) eqn:He; simpl;
      [apply tls_flag_eqb_true in He|apply tls_flag_eqb_not_true in He; hook_end].
    destruct (rustls_session cc) as [session|] eqn:Hs; hook_end.
  - destruct (base_server_conf c) as [sc|] eqn:Hsc; [|hook_end].
    destruct (tls_flag_eqb (enabled sc) TLS_FLAG_TRUE) eqn:He; simpl;
      [apply tls_flag_eqb_true in He|apply tls_flag_eqb_not_true in He]; hook_end.
Qed.

(** X20.  What the hook installs is ready for the filters: where
    [2 * TLS_PREF_WRITE_SIZE] is a size, the connection that
    [hook_pre_connection] returns with [OK] has a filter context with the
    phase and the session of its connection context, whose plaintext buffer
    is empty, within its bound and has the memory of its capacity, on
    which nothing has happened yet, and for which
    [tls_filter_input_pending] reports no input. *)
Theorem installed_filters_start_empty
    {E N : Type} (X : TlsFilter.externals E N) (c c' : conn_rec E N) :
  hook_pre_connection X c = Returns (OK, c') ->
  0 <= TlsFilter.TLS_PREF_WRITE_SIZE X ->
  2 * TlsFilter.TLS_PREF_WRITE_SIZE X < 2 ^ 64 ->
  exists cc fctx,
    tls_conf_conn_get c' = Some cc
    /\ filter_ctx cc = Some fctx
    /\ TlsFilter.buf_mem_ok fctx
    /\ TlsFilter.buf_content fctx = []
    /\ TlsFilter.trace fctx = []
    /\ TlsFilter.cc_state fctx = state cc
    /\ TlsFilter.cc_rustls_session fctx = rustls_session cc
    /\ TlsFilter.tls_filter_input_pending (aborted c') (Some (state cc, filter_ctx cc))
       = DECLINED.
Proof.
  intros H Hpos Hsize.
  destruct (hook_pre_connection_ok X c c' H) as (cc & session & Hcc & Hs & ->).
  eexists _, _. split; [reflexivity|]. split; [reflexivity|].
  unfold TlsFilter.buf_mem_ok, TlsFilter.buf_ok, TlsFilter.buf_content,
    TlsFilter.tls_filter_input_pending, TlsFilter.tls_filter_conn_init.
  cbn [TlsFilter.fout_buf_plain_len TlsFilter.fout_buf_plain_size TlsFilter.fout_buf_plain
       TlsFilter.trace TlsFilter.cc_state TlsFilter.cc_rustls_session
       TlsFilter.fin_plain_bb set_conn set_filter_ctx state rustls_session filter_ctx
       aborted tls_conf_conn_get].
  repeat split; try lia.
  - unfold TlsFilter.blen. rewrite repeat_length. lia.
  - symmetry. exact Hs.
  - destruct (aborted c || tls_conn_state_eqb TLS_CONN_ST_IGNORED (state cc)); reflexivity.
Qed.

Lemma installed_filters_start_empty_witness :
  hook_pre_connection (TlsFilter.toy 4) fresh_conn
  = Returns (OK,
             set_conn
               (set_filter_ctx
                  (TlsFilter.tls_filter_conn_init (TlsFilter.toy 4) false
                     TLS_CONN_ST_PRE_HANDSHAKE (TlsFilter.toy_new 3 10) [])
                  {| flag_disabled := TLS_FLAG_UNSET;
                     state := TLS_CONN_ST_PRE_HANDSHAKE;
                     rustls_session := Some (TlsFilter.toy_new 3 10);
                     filter_ctx := None |})
               fresh_conn)
  /\ exists cc fctx,
       tls_conf_conn_get
         (set_conn
            (set_filter_ctx
               (TlsFilter.tls_filter_conn_init (TlsFilter.toy 4) false
                  TLS_CONN_ST_PRE_HANDSHAKE (TlsFilter.toy_new 3 10) [])
               {| flag_disabled := TLS_FLAG_UNSET;
                  state := TLS_CONN_ST_PRE_HANDSHAKE;
                  rustls_session := Some (TlsFilter.toy_new 3 10);
                  filter_ctx := None |})
            fresh_conn) = Some cc
       /\ filter_ctx cc = Some fctx
       /\ TlsFilter.buf_mem_ok fctx
       /\ TlsFilter.buf_content fctx = []
       /\ TlsFilter.trace fctx = []
       /\ TlsFilter.cc_state fctx = state cc
       /\ TlsFilter.cc_rustls_session fctx = rustls_session cc
       /\ TlsFilter.tls_filter_input_pending
            (aborted
               (set_conn
                  (set_filter_ctx
                     (TlsFilter.tls_filter_conn_init (TlsFilter.toy 4) false
                        TLS_CONN_ST_PRE_HANDSHAKE (TlsFilter.toy_new 3 10) [])
                     {| flag_disabled := TLS_FLAG_UNSET;
                        state := TLS_CONN_ST_PRE_HANDSHAKE;
                        rustls_session := Some (TlsFilter.toy_new 3 10);
                        filter_ctx := None |})
                  fresh_conn))
            (Some (state cc, filter_ctx cc))
          = DECLINED.
Proof.
  assert (H : hook_pre_connection (TlsFilter.toy 4) fresh_conn
              = Returns (OK,
                         set_conn
                           (set_filter_ctx
                              (TlsFilter.tls_filter_conn_init (TlsFilter.toy 4) false
                                 TLS_CONN_ST_PRE_HANDSHAKE (TlsFilter.toy_new 3 10) [])
                              {| flag_disabled := TLS_FLAG_UNSET;
                                 state := TLS_CONN_ST_PRE_HANDSHAKE;
                                 rustls_session := Some (TlsFilter.toy_new 3 10);
                                 filter_ctx := None |})
                           fresh_conn)).
  { reflexivity. }
  assert (Hpos : 0 <= TlsFilter.TLS_PREF_WRITE_SIZE (TlsFilter.toy 4)).
  { simpl. lia. }
  assert (Hsize : 2 * TlsFilter.TLS_PREF_WRITE_SIZE (TlsFilter.toy 4) < 2 ^ 64).
  { simpl. lia. }
  split; [exact H|].
  exact (installed_filters_start_empty (TlsFilter.toy 4) fresh_conn _ H Hpos Hsize).
Defined.

End ModTlsFacts.
